(* ===== verification/_CoqProject ===== *)
-Q . S2P
Prelude.v
Js.v
Endpoint.v
Http.v
Json.v
Schema.v
QueryCache.v
QueryGc.v
Waitlist.v
Mutation.v
View.v
Markup.v
EndToEnd.v
Console.v
System.v
