(* ===== verification/Prelude.v ===== *)
(** * Verification of the klede client data layer

    The program (saatvik-dev/klede, client side) is a small data layer for
    a single waitlist form.  Its parts, from the leaves up, and where they
    are modelled:

    - EndpointResolver, [getApiUrl] of src/client/src/lib/queryClient.ts:
      [Endpoint.v], Module [Resolver].  The runtime flags it reads
      ([typeof window], [import.meta.env.PROD], [window.location.origin])
      are the record [Env], so resolution is a pure function.
    - RequestExecutor, [throwIfResNotOk] and [apiRequest], and the query
      function [getQueryFn] of the same file: [Http.v], Module [Executor].
      Each [async] function is split at its [await fetch(...)] into the
      request it issues ([apiRequest_init], [getQueryFn_init]) and the
      continuation on the outcome of [fetch] ([apiRequest_settle],
      [getQueryFn_settle]); the network is the class [Network].  The
      continuation of [getQueryFn] takes [res.json()] as a parameter; it is
      instantiated with [Json.json_parse] in [EndToEnd.defaultQueryFn].
    - [JSON.parse], the built-in behind [res.json()] (line 89): [Json.v],
      Module [Json], a recursive-descent parser over the body text.
    - CacheStore, the [queryClient] of lines 92-105: [QueryCache.v],
      Module [Cache].  The options object is translated as the record
      [QueryClientConfig]; the query cache it configures is TanStack's, so
      its behaviour (reads with deduplication, the fetch action, settlement
      with retries, invalidation, focus and interval refetch) is modelled
      from spec sections 4.3 and 5 as a store [Store] over a [gmap] and a
      step function [cache_step], with [cache_reachable] as its reachable
      set.  Its garbage collection, under the default [gcTime] that
      [queryClient] leaves in place: [QueryGc.v], Module [CacheGc];
      [GcStore] adds the pending gc timeout of each query, and [gc_step]
      fires them as the clock advances.
    - SubmissionWorkflow, the [WaitlistCard] component of
      src/client/src/components/WaitlistCard.tsx: [Waitlist.v], Module
      [Workflow].  Its [useState], [useMutation] and [useForm] state is the
      record [State]; form submission ([submit], guarded as the rendered
      form guards it) and settlement of the mutation ([settle]) are its
      events, [reachable] its reachable set.
    - The mutation of [WaitlistCard] under TanStack's retryer, with
      [defaultOptions.mutations.retry] of [queryClient] (lines 101-103):
      [Mutation.v], Module [MutationRetry]; [MState] adds the failure
      count and the calls of [mutationFn] of the current mutation.
    - Presentation, the markup [WaitlistCard] returns (lines 49-94):
      [View.v], Module [Render]: [render] maps a [State] to the form or the
      success panel, and [dispatch_submit] is the submission the markup
      lets through.  [Markup.v], Module [Markup]: the whole element tree
      ([card_tree]), read by DOM queries ([view_of_tree]) and submitted
      by HTML's rule for forms ([tree_dispatch_submit]).
    - ValidatedInput, [emailSchema] of @shared/schema (not among the
      sources): [Schema.v], Module [EmailSchema], modelled from spec
      section 6 as zod's email rule.
    - [addToWaitlist] of @/lib/supabase (not among the sources) and the
      composition of the parts: [EndToEnd.v], Module [EndToEnd].
    - Diagnostic logging, the [console.log] and [console.error] calls of
      queryClient.ts: [Console.v], Module [Console]; [getApiUrl],
      [throwIfResNotOk], [apiRequest] and [getQueryFn] rerun in a writer
      monad ([logged]) with every console call at its place.
    - The page under its single-threaded event loop (spec section 5):
      [System.v], Module [System]; [Global] holds the workflow's state and
      the gc cache's, [gstep] runs one event of either against a fixed
      [Network], and [grun_split] shows the loop is their product (the
      two share no state), so no claim is stated at this level.
    - JavaScript built-ins the code relies on (truthiness, [JSON.stringify],
      [Error] objects): [Js.v], Module [JsValue].  This file holds the
      shared result type, string helpers, notations, hints and tactics.

    What the theorems show, by group (claim numbers in the doc comments):
    - the workflow: an invariant of every reachable state (at most one
      mutation in flight, exactly while pending), the refinement of the
      state machine of spec 4.4 ([abs_step]) through [abstract], the
      pending guard, the behaviour of each event on every branch, that
      success is final (the code accepts no new attempt, unlike the spec)
      and that success is reachable from every reachable state;
    - the mutation retryer: under [queryClient] ([retry: false]) it is
      the workflow above, and for every [retry] a submission sends at
      most [retry + 1] POSTs;
    - the presentation: the guard [submit] is equivalent to what the
      rendered markup delivers, and what every reachable state shows; the
      full element tree refines that view, and HTML's submission rule on
      it is the same guard;
    - logging: every rejection of [apiRequest] is the last console line,
      with the error thrown, after ["API Error:"] for an HTTP error; the
      query function logs only the endpoint and HTTP errors, never a
      transport failure; and every waitlist submission logs the visitor's
      address, more than spec 4.2 permits (that logging cannot change
      what the functions compute is checked by the [_val] lemmas, which
      a writer monad makes true by construction);
    - the executor: no response outside 200-299 reaches a caller as a
      success, the exact error of every failure, the status code read back
      from every error message (a round trip through the decimal printing),
      the shape of the request (credentials, body and header exactly for
      truthy data), the two 401 policies of the query function;
    - the cache: one network fetch in flight per key in every reachable
      store, deduplication of concurrent reads (spec property 5), failed
      reads not retried and
      refetched next time, a bound on the failure count of every entry,
      every fetch in flight settling without new requests, invalidation,
      and a refinement of reads and writes against the memo table [view];
      with garbage collection, valid data is served from the cache for as
      long as its gc timeout is pending ([staleTime: Infinity]), and every
      idle entry of every reachable cache is dropped once the default
      [gcTime] has passed, so the next read goes to the network, unlike
      spec section 3;
    - the resolver: it meets the contract of spec 4.1 ([resolver_contract]),
      well-formed endpoints, and the two places where the code and spec
      property 3 or the bare-prefix edge case part;
    - end to end: the scenarios of spec section 7 for every address and
      network answer, JSON bodies read back into the cache, and a blank
      2xx body turned into a [SyntaxError] without status.

    [JSON.parse] and [JSON.stringify] are platform built-ins: the
    termination of the parser ([parse_value_fuel]) and its round trip
    with [JSON.stringify] ([json_parse_of_stringify]) are lemmas the
    end-to-end theorems use, not claims about the repository.

    Bounds and fuel: [gcTime_default] is TanStack's five minutes in
    milliseconds, the unit of the clock of [QueryCache.v] (one [Tick]);
    the gc theorem is proved for every positive [gcTime] and applied at
    it.  The parser of [Json.v] is the only definition with fuel,
    [json_fuel s = 2 * length s + 1]; it is enough because every
    unit of fuel either consumes a character or goes from an array or
    object to its first item, which consumes one next ([parse_fuel_enough]),
    and [parse_value_fuel] shows that no larger fuel changes the answer.
    Every other definition is structurally recursive.  Integers are [Z]
    (status codes, JSON numbers) and [nat] (clock, counters); none of them
    is machine-width in the source.  Strings are strings of 8-bit code
    units, not UTF-16; numbers in JSON bodies are integers.

    Not modelled: the rendering of [KledeLogo] and [CheckCircle] (files
    outside the sources, opaque nodes of the tree) and of toasts by
    [useToast]'s Toaster (outside the sources), and its limit on the toasts
    shown ([toasts] keeps every toast raised); the field's change events
    (react-hook-form re-validates on change after a failed submission,
    so [errors.email] here changes only on submission); a rejection of
    [await res.text()] in [throwIfResNotOk] (a body is a string); a
    server whose answers depend on earlier requests (the [Network] is a
    fixed function); the scheduling of promise continuations beyond the
    order of events the step functions take (a fetch settles as one
    event); JSON numbers with a fraction or an exponent and [\u] escapes
    beyond 00FF (outside the value domain); TanStack's observers (an
    invalidation does not refetch by itself: no source calls [useQuery],
    so no observer exists to exercise, and every query is collected as an
    inactive one) and the key-sorting of [hashKey]; the retry delay of
    the mutation retryer (a retry is one settlement event).

    Every line of the two source files that is not an import, a type
    alias or the export is modelled; what remains are library behaviours
    the sources do not exercise (query observers) and the retry delay. *)

From stdpp Require Export base strings list gmap.
From Stdlib Require Export ZArith DecimalString DecimalZ.
From Stdlib Require Import Lia.
From Stdlib Require Export Ascii.

Declare Scope klede_scope.
Delimit Scope klede_scope with klede.
Open Scope string_scope.

(** ** Results: the value a JavaScript [async] function settles with.
    [Ok a] is a resolved promise, [Err e] a rejected one (a thrown error). *)
Inductive result (A E : Type) : Type :=
  | Ok (a : A)
  | Err (e : E).
Arguments Ok {A E} a.
Arguments Err {A E} e.

(** [await c] followed by [k]: a rejection of [c] propagates unchanged. *)
Definition bind_result {A B E} (c : result A E) (k : A -> result B E) : result B E :=
  match c with
  | Ok a => k a
  | Err e => Err e
  end.

Notation "'let*' x ':=' c 'in' k" := (bind_result c (fun x => k))
  (at level 10, x name, c at level 100, k at level 200) : klede_scope.

Definition is_ok {A E} (r : result A E) : bool :=
  match r with Ok _ => true | Err _ => false end.

(** ** Strings as the source manipulates them *)

(** [s.substring(n)] for [n >= 0]: drop the first [n] characters,
    the empty string when [n] exceeds the length. *)
Fixpoint str_drop (n : nat) (s : string) : string :=
  match n, s with
  | O, _ => s
  | S _, EmptyString => EmptyString
  | S n', String _ s' => str_drop n' s'
  end.

(** [a || b] on strings: the empty string is the only falsy string. *)
Definition str_or (a b : string) : string :=
  if String.eqb a EmptyString then b else a.

(** [`${n}`] on an integral number: its decimal notation. *)
Definition z_to_string (z : Z) : string :=
  NilEmpty.string_of_int (Z.to_int z).

(** The inverse reading of a decimal integer. *)
Definition z_of_string (s : string) : option Z :=
  match NilEmpty.int_of_string s with
  | Some d => Some (Z.of_int d)
  | None => None
  end.

(** Every character satisfies [p]. *)
Fixpoint str_all (p : Ascii.ascii -> bool) (s : string) : bool :=
  match s with
  | EmptyString => true
  | String c s' => p c && str_all p s'
  end.

(** The text before and after the first occurrence of [c], if any. *)
Fixpoint split_first (c : Ascii.ascii) (s : string) : option (string * string) :=
  match s with
  | EmptyString => None
  | String x s' =>
      if Ascii.eqb x c then Some (EmptyString, s')
      else match split_first c s' with
           | Some (a, b) => Some (String x a, b)
           | None => None
           end
  end.

(** ** Generic lemmas on strings *)

(** stdpp declares [String.append] [simpl never]; these are its equations. *)
Lemma append_nil_l (b : string) : EmptyString +:+ b = b.
Proof. reflexivity. Qed.

Lemma append_cons (x : Ascii.ascii) (a b : string) :
  String x a +:+ b = String x (a +:+ b).
Proof. reflexivity. Qed.

Lemma str_drop_app (a b : string) : str_drop (String.length a) (a +:+ b) = b.
Proof. induction a; rewrite ?append_cons; simpl; auto. Qed.

Lemma prefix_app (a b : string) : String.prefix a (a +:+ b) = true.
Proof.
  induction a as [|c a IH]; rewrite ?append_cons; simpl; [by destruct b|].
  destruct (Ascii.ascii_dec c c); [exact IH | congruence].
Qed.

Lemma prefix_spec (a s : string) :
  String.prefix a s = true <-> exists t, s = a +:+ t.
Proof.
  split.
  - revert s; induction a as [|c a IH]; intros s H; [by exists s|].
    destruct s as [|c' s]; simpl in H; [discriminate|].
    destruct (Ascii.ascii_dec c c') as [->|]; [|discriminate].
    destruct (IH s H) as [t ->]. by exists t.
  - intros [t ->]. apply prefix_app.
Qed.

Lemma prefix_decompose (a s : string) :
  String.prefix a s = true -> s = a +:+ str_drop (String.length a) s.
Proof. intros [t ->]%prefix_spec. by rewrite str_drop_app. Qed.

Lemma append_assoc (a b c : string) : a +:+ (b +:+ c) = (a +:+ b) +:+ c.
Proof. induction a as [|x a IH]; rewrite ?append_cons; [done|]. by rewrite IH. Qed.

Lemma append_length (a b : string) :
  String.length (a +:+ b) = String.length a + String.length b.
Proof. induction a as [|x a IH]; rewrite ?append_cons; simpl; auto. Qed.

Lemma append_empty_r (a : string) : a +:+ EmptyString = a.
Proof. induction a as [|x a IH]; rewrite ?append_cons; [done|]. by rewrite IH. Qed.

Lemma append_inv_l (a b c : string) : a +:+ b = a +:+ c -> b = c.
Proof.
  induction a as [|x a IH]; rewrite ?append_cons; [done|].
  intros H. injection H. auto.
Qed.

Lemma split_first_app (c : Ascii.ascii) (a b : string) :
  str_all (fun x => negb (Ascii.eqb x c)) a = true ->
  split_first c (a +:+ String c b) = Some (a, b).
Proof.
  induction a as [|x a IH]; intros Ha.
  - simpl. by rewrite Ascii.eqb_refl.
  - rewrite append_cons. simpl in *. apply andb_true_iff in Ha as [Hx Ha].
    apply negb_true_iff in Hx. rewrite Hx. by rewrite IH.
Qed.

(** The decimal text of an integer has no colon. *)
Lemma z_to_string_no_colon (z : Z) :
  str_all (fun x => negb (Ascii.eqb x ":"%char)) (z_to_string z) = true.
Proof.
  unfold z_to_string, NilEmpty.string_of_int.
  assert (Hu : forall d, str_all (fun x => negb (Ascii.eqb x ":"%char)) (NilEmpty.string_of_uint d) = true)
    by (induction d; simpl; auto).
  destruct (Z.to_int z); simpl; [apply Hu | apply Hu].
Qed.

Lemma str_or_nonempty (a b : string) : a <> EmptyString -> str_or a b = a.
Proof. unfold str_or. destruct (String.eqb_spec a EmptyString); congruence. Qed.

Lemma str_or_empty (b : string) : str_or EmptyString b = b.
Proof. reflexivity. Qed.

(** Decimal printing of an integer is read back by [z_of_string]. *)
Lemma z_of_to_string (z : Z) : z_of_string (z_to_string z) = Some z.
Proof.
  unfold z_of_string, z_to_string. rewrite NilEmpty.isi. by rewrite DecimalZ.of_to.
Qed.

Lemma z_to_string_inj (z1 z2 : Z) : z_to_string z1 = z_to_string z2 -> z1 = z2.
Proof.
  intros H. apply (f_equal z_of_string) in H. rewrite !z_of_to_string in H.
  congruence.
Qed.

Lemma bind_result_ok {A B E} (a : A) (k : A -> result B E) :
  bind_result (Ok a) k = k a.
Proof. reflexivity. Qed.

Lemma bind_result_err {A B E} (e : E) (k : A -> result B E) :
  bind_result (Err e) k = Err e.
Proof. reflexivity. Qed.

(** ** Automation shared by the components *)

Create HintDb klede discriminated.
Create Rewrite HintDb klede_rw.
#[export] Hint Rewrite append_nil_l append_cons str_drop_app prefix_app append_empty_r z_of_to_string
  @bind_result_ok @bind_result_err : klede_rw.
#[export] Hint Resolve prefix_app str_or_nonempty z_to_string_inj : klede.

(** Rewrite with the shared equations, then close what is left. *)
Ltac klede_simp := autorewrite with klede_rw in *; simpl in *; try done.

(** Case analysis on the boolean tests the source performs. *)
Ltac case_bools :=
  repeat match goal with
  | |- context [if String.prefix ?a ?s then _ else _] =>
      destruct (String.prefix a s) eqn:?
  | |- context [if String.eqb ?a ?b then _ else _] =>
      destruct (String.eqb_spec a b)
  | |- context [if ?b then _ else _] =>
      lazymatch type of b with bool => destruct b eqn:? end
  end.
