(* ===== verification/Js.v ===== *)
(** * The JavaScript values the data layer handles

    The request body of [apiRequest] is an arbitrary JavaScript value
    ([data?: unknown]); the source tests it for truthiness ([if (data)],
    [data ? ... : ...]) and serialises it with [JSON.stringify].  Errors
    are JavaScript [Error] objects whose [message] the UI displays.  This
    file models those three built-ins on the values a JSON body can hold:
    integral numbers only (no NaN, no fractions), ASCII strings. *)

From S2P Require Import Prelude.

Local Set Warnings "-register-all".

Module JsValue.

(** The JSON-representable JavaScript values, plus [undefined]. *)
Inductive jsval : Type :=
  | JUndefined
  | JNull
  | JBool (b : bool)
  | JNum (n : Z)
  | JStr (s : string)
  | JArr (items : list jsval)
  | JObj (fields : list (string * jsval)).

(** ECMAScript ToBoolean: [undefined], [null], [false], [0] and the empty
    string are falsy; every object and array is truthy. *)
Definition truthy (v : jsval) : bool :=
  match v with
  | JUndefined | JNull => false
  | JBool b => b
  | JNum n => negb (Z.eqb n 0)
  | JStr s => negb (String.eqb s EmptyString)
  | JArr _ | JObj _ => true
  end.

(** The characters JSON.stringify treats specially. *)
Definition quote_char : Ascii.ascii := Ascii.ascii_of_nat 34.
Definition backslash : Ascii.ascii := Ascii.ascii_of_nat 92.

Definition hex_digit (n : nat) : Ascii.ascii :=
  if Nat.ltb n 10 then Ascii.ascii_of_nat (48 + n) else Ascii.ascii_of_nat (87 + n).

(** QuoteJSONString, one code unit at a time. *)
Definition escape_char (c : Ascii.ascii) : string :=
  let n := Ascii.nat_of_ascii c in
  if Nat.eqb n 34 then String backslash (String quote_char EmptyString)
  else if Nat.eqb n 92 then String backslash (String backslash EmptyString)
  else if Nat.eqb n 8 then "\b"
  else if Nat.eqb n 12 then "\f"
  else if Nat.eqb n 10 then "\n"
  else if Nat.eqb n 13 then "\r"
  else if Nat.eqb n 9 then "\t"
  else if Nat.ltb n 32 then
    "\u00" +:+ String (hex_digit (n / 16)) (String (hex_digit (n mod 16)) EmptyString)
  else String c EmptyString.

Fixpoint escape (s : string) : string :=
  match s with
  | EmptyString => EmptyString
  | String c s' => escape_char c +:+ escape s'
  end.

Definition quote (s : string) : string :=
  String quote_char (escape s +:+ String quote_char EmptyString).

Fixpoint join (sep : string) (l : list string) : string :=
  match l with
  | [] => EmptyString
  | [x] => x
  | x :: l' => x +:+ sep +:+ join sep l'
  end.

(** [JSON.stringify v]: [None] is the [undefined] it returns for
    [undefined]; inside an array [undefined] prints as [null], inside an
    object its member is left out. *)
Fixpoint stringify (v : jsval) : option string :=
  match v with
  | JUndefined => None
  | JNull => Some "null"
  | JBool true => Some "true"
  | JBool false => Some "false"
  | JNum n => Some (z_to_string n)
  | JStr s => Some (quote s)
  | JArr items =>
      Some ("[" +:+ join ","
        ((fix go (l : list jsval) : list string :=
            match l with
            | [] => []
            | x :: l' => default "null" (stringify x) :: go l'
            end) items) +:+ "]")
  | JObj fields =>
      Some ("{" +:+ join ","
        ((fix go (l : list (string * jsval)) : list string :=
            match l with
            | [] => []
            | (k, x) :: l' =>
                match stringify x with
                | Some sx => (quote k +:+ ":" +:+ sx) :: go l'
                | None => go l'
                end
            end) fields) +:+ "}")
  end.

(** The thrown values: [new Error(m)], the [TypeError] of a failed
    [fetch] or of a property access on a non-object, the [SyntaxError]
    of [res.json()] on a body that is not JSON. *)
Inductive exn : Type :=
  | JsError (message : string)
  | JsTypeError (message : string)
  | JsSyntaxError (message : string).

Definition exn_message (e : exn) : string :=
  match e with
  | JsError m | JsTypeError m | JsSyntaxError m => m
  end.

Lemma truthy_stringify (v : jsval) :
  truthy v = true -> is_Some (stringify v).
Proof. destruct v as [| |[]| | | |]; simpl; try discriminate; eauto. Qed.

Lemma stringify_none_iff (v : jsval) : stringify v = None <-> v = JUndefined.
Proof. destruct v as [| |[]| | | |]; simpl; split; congruence. Qed.

End JsValue.

#[export] Hint Resolve JsValue.truthy_stringify : klede.
