(* ===== verification/Endpoint.v ===== *)
(** * EndpointResolver: [getApiUrl] of src/client/src/lib/queryClient.ts

    The runtime environment the function reads ([typeof window],
    [import.meta.env.PROD], [window.location.origin]) is an explicit
    record, so resolution is a pure function of the path and that record.
    [resolver_contract] states what spec section 4.1 asks of a resolver;
    [getApiUrl_contract] proves that [getApiUrl] meets it. *)

From S2P Require Import Prelude.

Module Resolver.

(** What [getApiUrl] reads from its surroundings. *)
Record Env : Type := mkEnv {
  has_window : bool;        (** [typeof window !== 'undefined'] *)
  PROD : bool;              (** [import.meta.env.PROD] *)
  location_origin : string  (** [window.location.origin] *)
}.

(** The branch condition of line 22. *)
Definition is_production (env : Env) : bool := has_window env && PROD env.

Definition api_prefix : string := "/api/".
Definition function_route : string := "/.netlify/functions/api-standalone".

(** Line 19: make sure the path starts with a slash. *)
Definition normalizePath (path : string) : string :=
  if String.prefix "/" path then path else "/" +:+ path.

Definition getApiUrl (env : Env) (path : string) : string :=
  let normalizedPath := normalizePath path in
  if is_production env then
    let baseUrl := location_origin env in
    if String.prefix api_prefix normalizedPath then
      baseUrl +:+ function_route +:+ str_drop 4 normalizedPath
    else baseUrl +:+ normalizedPath
  else normalizedPath.

(** The contract of spec section 4.1, for a resolver running in direct
    mode ([direct = true]) or hosted at [origin]. *)
Record resolver_contract (direct : bool) (origin : string)
    (resolve : string -> string) : Prop := {
  rc_normalize : forall p, String.prefix "/" p = false ->
    resolve p = resolve ("/" +:+ p);
  rc_direct : direct = true -> forall p, String.prefix "/" p = true ->
    resolve p = p;
  rc_api : direct = false -> forall s,
    resolve (api_prefix +:+ s) = origin +:+ function_route +:+ "/" +:+ s;
  rc_other : direct = false -> forall p, String.prefix "/" p = true ->
    String.prefix api_prefix p = false -> resolve p = origin +:+ p
}.

(** ** Lemmas on normalisation *)

Lemma normalizePath_slash (p : string) :
  String.prefix "/" p = true -> normalizePath p = p.
Proof. unfold normalizePath. by intros ->. Qed.

Lemma normalizePath_noslash (p : string) :
  String.prefix "/" p = false -> normalizePath p = "/" +:+ p.
Proof. unfold normalizePath. by intros ->. Qed.

Lemma normalizePath_starts (p : string) : String.prefix "/" (normalizePath p) = true.
Proof.
  unfold normalizePath. destruct (String.prefix "/" p) eqn:E; [done|].
  apply prefix_app.
Qed.

Lemma normalizePath_idem (p : string) : normalizePath (normalizePath p) = normalizePath p.
Proof. apply normalizePath_slash, normalizePath_starts. Qed.

Lemma normalizePath_prepend (p : string) :
  String.prefix "/" p = false -> normalizePath ("/" +:+ p) = normalizePath p.
Proof.
  intros H. rewrite (normalizePath_noslash p H).
  apply normalizePath_slash, prefix_app.
Qed.

(** [getApiUrl] only sees the normalised path. *)
Lemma getApiUrl_normalized (env : Env) (p : string) :
  getApiUrl env p = getApiUrl env (normalizePath p).
Proof. unfold getApiUrl. by rewrite normalizePath_idem. Qed.

Lemma api_prefix_slash (p : string) :
  String.prefix api_prefix p = true -> String.prefix "/" p = true.
Proof. intros [t ->]%prefix_spec. apply (prefix_app "/" ("api/" +:+ t)). Qed.

Lemma getApiUrl_prepend_slash (env : Env) (p : string) :
  String.prefix "/" p = false -> getApiUrl env p = getApiUrl env ("/" +:+ p).
Proof.
  intros H. rewrite getApiUrl_normalized, (getApiUrl_normalized env ("/" +:+ p)).
  by rewrite normalizePath_prepend.
Qed.

#[local] Hint Resolve normalizePath_slash normalizePath_starts api_prefix_slash : klede.

(** ** Properties *)

(** C13: [getApiUrl] meets the resolver contract of spec section 4.1:
    missing leading slashes are added, direct mode returns the path,
    hosted mode routes [/api/<s>] to the function route with [/<s>] kept
    and anchors every other path at the origin.  Outside hosted mode the
    result is the normalised path, relative to the page, also when a
    production build runs outside a browser, whereas spec property 3 asks
    for [origin + p]. *)
Theorem getApiUrl_contract (env : Env) :
  resolver_contract (negb (is_production env)) (location_origin env) (getApiUrl env) /\
  (is_production env = false -> forall p, getApiUrl env p = normalizePath p).
Proof.
  split; [split|intros H p; unfold getApiUrl; by rewrite H].
  - apply getApiUrl_prepend_slash.
  - intros Hd p Hp. unfold getApiUrl. rewrite normalizePath_slash by done.
    by destruct (is_production env).
  - intros Hd s. unfold getApiUrl. destruct (is_production env); [|discriminate].
    rewrite normalizePath_slash by (apply api_prefix_slash, prefix_app).
    rewrite prefix_app. reflexivity.
  - intros Hd p Hp Hapi. unfold getApiUrl. destruct (is_production env); [|discriminate].
    rewrite normalizePath_slash by done. by rewrite Hapi.
Qed.

Lemma getApiUrl_contract_witness :
  is_production (mkEnv false true "https://klede.app") = false /\
  getApiUrl (mkEnv false true "https://klede.app") "api/waitlist" = "/api/waitlist".
Proof.
  split; [reflexivity|].
  apply (proj2 (getApiUrl_contract (mkEnv false true "https://klede.app"))). reflexivity.
Defined.

(** C31: every resolved endpoint is well formed: in direct mode it is a
    path starting with a slash, in hosted mode it is the origin followed
    by a path starting with a slash; in particular [/api/] alone yields
    the function route followed by [/].  The reserved prefix is [/api/]
    with its trailing slash: in hosted mode the bare path [/api] is not
    routed to the function but anchored at the origin like a page path. *)
Theorem getApiUrl_well_formed (env : Env) (p : string) :
  (exists rest, getApiUrl env p =
    (if is_production env then location_origin env else EmptyString) +:+ "/" +:+ rest) /\
  (is_production env = true -> getApiUrl env "/api" = location_origin env +:+ "/api").
Proof.
  split; [|intros H; unfold getApiUrl; by rewrite H].
  unfold getApiUrl. destruct (is_production env).
  - destruct (String.prefix api_prefix (normalizePath p)) eqn:E.
    + apply prefix_spec in E as [t ->].
      exists (".netlify/functions/api-standalone/" +:+ t). reflexivity.
    + destruct (proj1 (prefix_spec _ _) (normalizePath_starts p)) as [t Ht].
      rewrite Ht. by exists t.
  - destruct (proj1 (prefix_spec _ _) (normalizePath_starts p)) as [t Ht].
    rewrite Ht. by exists t.
Qed.

Lemma getApiUrl_well_formed_witness :
  is_production (mkEnv true true "https://klede.app") = true /\
  getApiUrl (mkEnv true true "https://klede.app") "/api" = "https://klede.app/api".
Proof.
  split; [reflexivity|].
  apply (proj2 (getApiUrl_well_formed (mkEnv true true "https://klede.app") "/api")). reflexivity.
Defined.

End Resolver.
