(* ===== verification/Http.v ===== *)
(** * RequestExecutor: [throwIfResNotOk], [apiRequest] and [getQueryFn]
    of src/client/src/lib/queryClient.ts

    An [async] function that awaits [fetch] is modelled in two halves: the
    request it issues (the URL and the [RequestInit] object passed to
    [fetch]) and the continuation run on the outcome of that [fetch] (a
    [Response], or the rejection of the promise).  The network itself is
    the [Network] class: one [fetch] call maps a request to an outcome.
    [res.text()] is the response body; [res.json()] is a parser passed as a
    parameter ([JSON.parse] is a built-in of the platform). *)

From S2P Require Import Prelude Js Endpoint.
Local Open Scope klede_scope.

Module Executor.
Import JsValue Resolver.

(** The fields of a [Response] the code reads. *)
Record Response : Type := mkResponse {
  status : Z;
  statusText : string;
  res_url : string;
  res_body : string   (** what [await res.text()] yields *)
}.

(** [Response.ok]: the status is in the range 200-299. *)
Definition ok (res : Response) : bool := (200 <=? status res)%Z && (status res <=? 299)%Z.

(** The [RequestInit] object handed to [fetch]; [None] is an absent key. *)
Record RequestInit : Type := mkInit {
  init_method : option string;
  init_headers : list (string * string);
  init_body : option string;
  init_credentials : option string
}.

(** What a call of [fetch] settles with: a [Response] (whatever its
    status) or a rejection, a [TypeError] when the network is unreachable. *)
Inductive fetch_result : Type :=
  | Fetched (res : Response)
  | FetchFailed (e : exn).

(** The network: the outcome of one [fetch(url, init)]. *)
Class Network : Type := fetch : string -> RequestInit -> fetch_result.

(** The message built on lines 5-6. *)
Definition error_message (res : Response) : string :=
  let text := str_or (res_body res) (statusText res) in
  z_to_string (status res) +:+ ": " +:+ text.

(** Reading the status code back from an error message: the integer
    before the first colon. *)
Definition message_status (m : string) : option Z :=
  match split_first ":"%char m with
  | Some (a, _) => z_of_string a
  | None => None
  end.

(** Lines 3-10 (the [console.error] call is observational only). *)
Definition throwIfResNotOk (res : Response) : result unit exn :=
  if negb (ok res) then Err (JsError (error_message res)) else Ok tt.

Definition json_content_type : list (string * string) :=
  [("Content-Type", "application/json")].

(** Lines 46-59 up to the [await]: the URL and options passed to [fetch]. *)
Definition apiRequest_init (env : Env) (method url : string) (data : jsval)
    : string * RequestInit :=
  let apiUrl := getApiUrl env url in
  (apiUrl, {| init_method := Some method;
              init_headers := if truthy data then json_content_type else [];
              init_body := if truthy data then stringify data else None;
              init_credentials := Some "include" |}).

(** Lines 53-68 after the [await]: the [catch] rethrows what it caught. *)
Definition apiRequest_settle (r : fetch_result) : result Response exn :=
  match r with
  | FetchFailed e => Err e
  | Fetched res => bind_result (throwIfResNotOk res) (fun _ => Ok res)
  end.

(** [apiRequest] as a whole, against a network. *)
Definition apiRequest `{Network} (env : Env) (method url : string) (data : jsval)
    : result Response exn :=
  let '(u, init) := apiRequest_init env method url data in
  apiRequest_settle (fetch u init).

Inductive UnauthorizedBehavior : Type :=
  | returnNull
  | throw.

(** [queryKey[0] as string] followed by [path.startsWith]: the cast does
    not check, so a key whose head is not a string fails in [getApiUrl]. *)
Definition queryKey_path (queryKey : list jsval) : result string exn :=
  match queryKey with
  | JStr s :: _ => Ok s
  | [] | JUndefined :: _ =>
      Err (JsTypeError "Cannot read properties of undefined (reading 'startsWith')")
  | JNull :: _ => Err (JsTypeError "Cannot read properties of null (reading 'startsWith')")
  | _ :: _ => Err (JsTypeError "path.startsWith is not a function")
  end.

(** The options of line 80: [{ credentials: "include" }], a GET. *)
Definition query_init : RequestInit :=
  {| init_method := None; init_headers := []; init_body := None;
     init_credentials := Some "include" |}.

(** Lines 76-82 up to the [await]. *)
Definition getQueryFn_init (env : Env) (queryKey : list jsval)
    : result (string * RequestInit) exn :=
  let* path := queryKey_path queryKey in
  Ok (getApiUrl env path, query_init).

Section QueryFn.
(** [res.json()]: a parse of the body, rejecting with a [SyntaxError]. *)
Context (json_parse : string -> result jsval exn).

(** Lines 84-89 after the [await]: a rejected [fetch] is not caught. *)
Definition getQueryFn_settle (unauthorizedBehavior : UnauthorizedBehavior)
    (r : fetch_result) : result jsval exn :=
  match r with
  | FetchFailed e => Err e
  | Fetched res =>
      if (match unauthorizedBehavior with returnNull => true | throw => false end)
         && (status res =? 401)%Z
      then Ok JNull
      else let* _ := throwIfResNotOk res in json_parse (res_body res)
  end.

(** [getQueryFn({ on401 })] applied to a query key, against a network. *)
Definition getQueryFn `{Network} (on401 : UnauthorizedBehavior) (env : Env)
    (queryKey : list jsval) : result jsval exn :=
  let* req := getQueryFn_init env queryKey in
  getQueryFn_settle on401 (fetch (fst req) (snd req)).

End QueryFn.

(** ** Lemmas *)

Lemma throwIfResNotOk_ok (res : Response) : ok res = true -> throwIfResNotOk res = Ok tt.
Proof. unfold throwIfResNotOk. by intros ->. Qed.

Lemma throwIfResNotOk_not_ok (res : Response) :
  ok res = false -> throwIfResNotOk res = Err (JsError (error_message res)).
Proof. unfold throwIfResNotOk. by intros ->. Qed.

Lemma ok_range (res : Response) : ok res = true <-> (200 <= status res <= 299)%Z.
Proof. unfold ok. rewrite andb_true_iff, Z.leb_le, Z.leb_le. done. Qed.

Lemma error_message_nonempty (res : Response) : error_message res <> EmptyString.
Proof.
  unfold error_message. intros H.
  apply (f_equal String.length) in H. rewrite !append_length in H. simpl in H. lia.
Qed.


Lemma apiRequest_settle_eq (r : fetch_result) :
  apiRequest_settle r =
    match r with
    | FetchFailed e => Err e
    | Fetched res => if ok res then Ok res else Err (JsError (error_message res))
    end.
Proof.
  destruct r as [res|e]; [|done]. simpl. unfold throwIfResNotOk.
  by destruct (ok res).
Qed.

(** ** Properties *)

(** C4: [apiRequest] after its fetch settles: a transport rejection is
    rethrown unchanged, a response is returned exactly when it is [ok],
    and any other response becomes [new Error("<status>: <text>")]. *)
Theorem apiRequest_settle_spec (r : fetch_result) :
  apiRequest_settle r =
    match r with
    | FetchFailed e => Err e
    | Fetched res => if ok res then Ok res else Err (JsError (error_message res))
    end.
Proof. apply apiRequest_settle_eq. Qed.

(** C3: spec property 4: no response outside 200-299 reaches the caller
    of [apiRequest] as a success. *)
Theorem apiRequest_ok_status `{Network} (env : Env) (method url : string)
    (data : jsval) (res : Response) :
  apiRequest env method url data = Ok res ->
  (200 <= status res <= 299)%Z /\
  fetch (fst (apiRequest_init env method url data))
        (snd (apiRequest_init env method url data)) = Fetched res.
Proof.
  unfold apiRequest. simpl. rewrite apiRequest_settle_eq.
  destruct (fetch _ _) as [r|e]; [|discriminate].
  destruct (ok r) eqn:E; [|discriminate]. intros [= ->].
  split; [by apply ok_range | done].
Qed.

(** A network that answers every request with the same response. *)
Definition constant_network (res : Response) : Network := fun _ _ => Fetched res.

Lemma apiRequest_ok_status_witness :
  @apiRequest (constant_network (mkResponse 201 "Created" "/api/waitlist" "{}"))
    (mkEnv false false EmptyString) "POST" "/api/waitlist" (JObj [("email", JStr "a@b.co")])
    = Ok (mkResponse 201 "Created" "/api/waitlist" "{}") /\
  (200 <= status (mkResponse 201 "Created" "/api/waitlist" "{}") <= 299)%Z.
Proof.
  assert (Hr : @apiRequest (constant_network (mkResponse 201 "Created" "/api/waitlist" "{}"))
    (mkEnv false false EmptyString) "POST" "/api/waitlist" (JObj [("email", JStr "a@b.co")])
    = Ok (mkResponse 201 "Created" "/api/waitlist" "{}")) by reflexivity.
  split; [exact Hr|]. exact (proj1 (apiRequest_ok_status _ _ _ _ _ Hr)).
Defined.

(** C28: the request [apiRequest] issues: the endpoint is resolved by
    [getApiUrl] on every call, credentials are always included, and a
    JSON body with its [Content-Type] header is sent exactly when [data]
    is truthy.  The test is JavaScript truthiness, not presence: a
    supplied body [0], [false], the empty string or [null] is silently
    dropped, and the request goes out with neither body nor
    [Content-Type]. *)
Theorem apiRequest_init_shape (env : Env) (method url : string) (data : jsval) :
  (let '(u, init) := apiRequest_init env method url data in
   u = getApiUrl env url /\
   init_method init = Some method /\
   init_credentials init = Some "include" /\
   (if truthy data
    then init_headers init = json_content_type /\ init_body init = stringify data /\
         is_Some (init_body init)
    else init_headers init = [] /\ init_body init = None)) /\
  Forall (fun d => init_body (snd (apiRequest_init env method url d)) = None /\
                   init_headers (snd (apiRequest_init env method url d)) = [])
    [JNum 0; JBool false; JStr EmptyString; JNull].
Proof.
  simpl. split; [|repeat constructor]. do 3 (split; [done|]).
  destruct (truthy data) eqn:E; [|done].
  split; [done|]. split; [done|]. by apply truthy_stringify.
Qed.

(** C27: the query function after [fetch] settles (lines 84-89), under
    both policies: a transport failure is its rejection; with
    [on401: "returnNull"] a 401 response is the result [null], its body
    unread; otherwise an [ok] response yields its parsed JSON body and any
    other response the [Error] of [throwIfResNotOk]. *)
Theorem getQueryFn_settle_spec (json_parse : string -> result jsval exn)
    (on401 : UnauthorizedBehavior) (r : fetch_result) :
  getQueryFn_settle json_parse on401 r =
    match r with
    | FetchFailed e => Err e
    | Fetched res =>
        if (match on401 with returnNull => true | throw => false end) && (status res =? 401)%Z
        then Ok JNull
        else if ok res then json_parse (res_body res)
        else Err (JsError (error_message res))
    end.
Proof.
  destruct r as [res|e]; [|done]. simpl.
  destruct (_ && _); [done|]. unfold throwIfResNotOk. by destruct (ok res).
Qed.

(** C36: the message of [throwIfResNotOk] (lines 5-6).  Round trip: the
    status code of a failed response is recovered from the message of the
    [Error] thrown, whatever the body or status text.  The message is
    never empty, and when the response has neither a body nor a status
    text (as over HTTP/2, where [statusText] is empty) it is only
    ["<status>: "]: the generic fallback the spec asks for is never
    substituted. *)
Theorem error_message_spec (res : Response) :
  message_status (error_message res) = Some (status res) /\
  error_message res <> EmptyString /\
  (res_body res = EmptyString -> statusText res = EmptyString ->
   error_message res = z_to_string (status res) +:+ ": ").
Proof.
  split; [|split; [apply error_message_nonempty|]].
  - unfold message_status, error_message.
    change (": " +:+ str_or (res_body res) (statusText res))
      with (String ":"%char (String " "%char (str_or (res_body res) (statusText res)))).
    rewrite split_first_app by apply z_to_string_no_colon.
    apply z_of_to_string.
  - intros Hb Ht. unfold error_message. by rewrite Hb, Ht.
Qed.

Lemma error_message_spec_witness :
  res_body (mkResponse 500 EmptyString "/api/waitlist" EmptyString) = EmptyString /\
  statusText (mkResponse 500 EmptyString "/api/waitlist" EmptyString) = EmptyString /\
  error_message (mkResponse 500 EmptyString "/api/waitlist" EmptyString) = "500: ".
Proof.
  split; [reflexivity|]. split; [reflexivity|].
  exact (proj2 (proj2 (error_message_spec (mkResponse 500 EmptyString "/api/waitlist" EmptyString)))
                  eq_refl eq_refl).
Defined.

End Executor.
