(* ===== verification/Json.v ===== *)
(** * [JSON.parse]: what [res.json()] does with a response body

    [getQueryFn] ends with [return await res.json()] (queryClient.ts line
    89), which reads the body text and hands it to the platform's
    [JSON.parse].  That built-in is not among the sources; it is modelled
    here from the JSON grammar (ECMA-404) on the value domain of [Js.v]:
    integral numbers and strings of 8-bit code units, so a number with a
    fraction or an exponent, and a [\u] escape above 00FF, are outside
    the domain and rejected.  Objects keep their members in order, as
    association lists.

    The parser is recursive descent over the text with three mutually
    recursive functions (a value, the elements of an array, the members of
    an object).  Their recursion is bounded by the fuel [json_fuel s],
    twice the length of the text: [parse_value_fuel] shows that this much
    fuel never runs out and that more fuel gives the same answer, so
    [json_parse] is the total function [JSON.parse];
    [json_parse_of_stringify] shows that it reads back what
    [JsValue.stringify] prints.  These are facts of the built-ins, used by
    the theorems of [EndToEnd.v] about bodies the query function reads;
    they are lemmas here, not claims about the repository's code. *)

From S2P Require Import Prelude Js Endpoint Http.
From Stdlib Require Import DecimalPos DecimalFacts.

Module Json.
Import JsValue Executor.

(** The outcome of a parser run on a prefix of the text. *)
Inductive presult (A : Type) : Type :=
  | Parsed (a : A) (rest : string)
  | Failed (msg : string)
  | OutOfFuel.
Arguments Parsed {A} a rest.
Arguments Failed {A} msg.
Arguments OutOfFuel {A}.

Definition pmap {A B} (f : A -> B) (r : presult A) : presult B :=
  match r with
  | Parsed a rest => Parsed (f a) rest
  | Failed m => Failed m
  | OutOfFuel => OutOfFuel
  end.

(** The [SyntaxError] message for the text where parsing stopped. *)
Definition unexpected (s : string) : string :=
  match s with
  | EmptyString => "Unexpected end of JSON input"
  | String c _ => "Unexpected token " +:+ String c EmptyString
  end.

Definition bad_string : string := "Bad string in JSON".

(** JSON whitespace: space, tab, line feed, carriage return. *)
Definition is_ws (c : Ascii.ascii) : bool :=
  let n := Ascii.nat_of_ascii c in
  Nat.eqb n 32 || Nat.eqb n 9 || Nat.eqb n 10 || Nat.eqb n 13.

Fixpoint skip_ws (s : string) : string :=
  match s with
  | String c r => if is_ws c then skip_ws r else s
  | EmptyString => EmptyString
  end.

Definition is_digit (c : Ascii.ascii) : bool :=
  Nat.leb 48 (Ascii.nat_of_ascii c) && Nat.leb (Ascii.nat_of_ascii c) 57.

(** The longest prefix of digits, and what follows it. *)
Fixpoint take_digits (s : string) : string * string :=
  match s with
  | String c r =>
      if is_digit c then let '(d, r') := take_digits r in (String c d, r')
      else (EmptyString, s)
  | EmptyString => (EmptyString, EmptyString)
  end.

Definition leading_zero (ds : string) : bool :=
  match ds with
  | String c (String _ _) => Ascii.eqb c "0"
  | _ => false
  end.

(** An optional minus sign. *)
Definition split_sign (s : string) : string * string :=
  match s with
  | String c r => if Ascii.eqb c "-" then ("-", r) else (EmptyString, s)
  | EmptyString => (EmptyString, EmptyString)
  end.

(** [-?(0|[1-9][0-9]{0,})], the integral numbers of the grammar. *)
Definition parse_number (s : string) : option (Z * string) :=
  let '(sign, s1) := split_sign s in
  let '(ds, s2) := take_digits s1 in
  if String.eqb ds EmptyString || leading_zero ds then None
  else match z_of_string (sign +:+ ds) with
       | Some z => Some (z, s2)
       | None => None
       end.

Definition hex_value (c : Ascii.ascii) : option nat :=
  let n := Ascii.nat_of_ascii c in
  if Nat.leb 48 n && Nat.leb n 57 then Some (n - 48)
  else if Nat.leb 97 n && Nat.leb n 102 then Some (n - 87)
  else if Nat.leb 65 n && Nat.leb n 70 then Some (n - 55)
  else None.

(** [\uXXXX], for the code units of the domain. *)
Definition hex4 (h1 h2 h3 h4 : Ascii.ascii) : option Ascii.ascii :=
  match hex_value h1, hex_value h2, hex_value h3, hex_value h4 with
  | Some a, Some b, Some c, Some d =>
      let n := a * 4096 + b * 256 + c * 16 + d in
      if Nat.ltb n 256 then Some (Ascii.ascii_of_nat n) else None
  | _, _, _, _ => None
  end.

(** The one-character escapes: backslash followed by a quote, a backslash, a
    slash, or one of b f n r t. *)
Definition unescape (e : Ascii.ascii) : option Ascii.ascii :=
  let n := Ascii.nat_of_ascii e in
  if Nat.eqb n 34 then Some quote_char
  else if Nat.eqb n 92 then Some backslash
  else if Nat.eqb n 47 then Some "/"%char
  else if Nat.eqb n 98 then Some (Ascii.ascii_of_nat 8)
  else if Nat.eqb n 102 then Some (Ascii.ascii_of_nat 12)
  else if Nat.eqb n 110 then Some (Ascii.ascii_of_nat 10)
  else if Nat.eqb n 114 then Some (Ascii.ascii_of_nat 13)
  else if Nat.eqb n 116 then Some (Ascii.ascii_of_nat 9)
  else None.

Definition cons_fst (c : Ascii.ascii) (o : option (string * string)) : option (string * string) :=
  match o with
  | Some (x, rest) => Some (String c x, rest)
  | None => None
  end.

(** The characters of a string literal after its opening quote, up to and
    without the closing quote; raw control characters are refused. *)
Fixpoint parse_chars (s : string) : option (string * string) :=
  match s with
  | EmptyString => None
  | String c r =>
      if Ascii.eqb c quote_char then Some (EmptyString, r)
      else if Ascii.eqb c backslash then
        match r with
        | String e r1 =>
            match unescape e with
            | Some d => cons_fst d (parse_chars r1)
            | None =>
                match r1 with
                | String h1 (String h2 (String h3 (String h4 r2))) =>
                    if Ascii.eqb e "u" then
                      match hex4 h1 h2 h3 h4 with
                      | Some d => cons_fst d (parse_chars r2)
                      | None => None
                      end
                    else None
                | _ => None
                end
            end
        | EmptyString => None
        end
      else if Nat.ltb (Ascii.nat_of_ascii c) 32 then None
      else cons_fst c (parse_chars r)
  end.

(** The word [w] of a literal, after its first character. *)
Definition literal (w : string) (v : jsval) (s : string) : presult jsval :=
  if String.prefix w s then Parsed v (str_drop (String.length w) s) else Failed (unexpected s).

(** The values without structure, at the first character [c]. *)
Definition parse_scalar (c : Ascii.ascii) (r : string) : presult jsval :=
  if Ascii.eqb c "n" then literal "ull" JNull r
  else if Ascii.eqb c "t" then literal "rue" (JBool true) r
  else if Ascii.eqb c "f" then literal "alse" (JBool false) r
  else if Ascii.eqb c quote_char then
    match parse_chars r with
    | Some (x, r') => Parsed (JStr x) r'
    | None => Failed bad_string
    end
  else match parse_number (String c r) with
       | Some (z, r') => Parsed (JNum z) r'
       | None => Failed (unexpected (String c r))
       end.

(** After an opening bracket: the text after the closing one when the
    array or object is empty. *)
Definition closes_at_once (close : Ascii.ascii) (s : string) : option string :=
  match skip_ws s with
  | String d r => if Ascii.eqb d close then Some r else None
  | EmptyString => None
  end.

(** After an element or member: [Some (true, r)] at a comma, [Some (false, r)]
    at the closing bracket. *)
Definition after_item (close : Ascii.ascii) (s : string) : option (bool * string) :=
  match skip_ws s with
  | String c r =>
      if Ascii.eqb c "," then Some (true, r)
      else if Ascii.eqb c close then Some (false, r)
      else None
  | EmptyString => None
  end.

(** A member's key and its colon. *)
Definition parse_key (s : string) : option (string * string) :=
  match skip_ws s with
  | String q r =>
      if Ascii.eqb q quote_char then
        match parse_chars r with
        | Some (k, r1) =>
            match skip_ws r1 with
            | String col r2 => if Ascii.eqb col ":" then Some (k, r2) else None
            | EmptyString => None
            end
        | None => None
        end
      else None
  | EmptyString => None
  end.

Fixpoint parse_value (fuel : nat) (s : string) {struct fuel} : presult jsval :=
  match fuel with
  | O => OutOfFuel
  | S f =>
      match skip_ws s with
      | String c r =>
          if Ascii.eqb c "[" then
            match closes_at_once "]" r with
            | Some r' => Parsed (JArr []) r'
            | None => pmap JArr (parse_elements f r)
            end
          else if Ascii.eqb c "{" then
            match closes_at_once "}" r with
            | Some r' => Parsed (JObj []) r'
            | None => pmap JObj (parse_members f r)
            end
          else parse_scalar c r
      | EmptyString => Failed (unexpected EmptyString)
      end
  end
with parse_elements (fuel : nat) (s : string) {struct fuel} : presult (list jsval) :=
  match fuel with
  | O => OutOfFuel
  | S f =>
      match parse_value f s with
      | Parsed v r =>
          match after_item "]" r with
          | Some (true, r') => pmap (cons v) (parse_elements f r')
          | Some (false, r') => Parsed [v] r'
          | None => Failed (unexpected (skip_ws r))
          end
      | Failed m => Failed m
      | OutOfFuel => OutOfFuel
      end
  end
with parse_members (fuel : nat) (s : string) {struct fuel}
    : presult (list (string * jsval)) :=
  match fuel with
  | O => OutOfFuel
  | S f =>
      match parse_key s with
      | Some (k, r) =>
          match parse_value f r with
          | Parsed v r' =>
              match after_item "}" r' with
              | Some (true, r'') => pmap (cons (k, v)) (parse_members f r'')
              | Some (false, r'') => Parsed [(k, v)] r''
              | None => Failed (unexpected (skip_ws r'))
              end
          | Failed m => Failed m
          | OutOfFuel => OutOfFuel
          end
      | None => Failed (unexpected (skip_ws s))
      end
  end.

(** Enough fuel for any text (see [parse_value_fuel]). *)
Definition json_fuel (s : string) : nat := S (2 * String.length s).

(** [JSON.parse(s)] run with [fuel]: one value, then only whitespace. *)
Definition json_parse_fuel (fuel : nat) (s : string) : result jsval exn :=
  match parse_value fuel s with
  | Parsed v r =>
      if String.eqb (skip_ws r) EmptyString then Ok v
      else Err (JsSyntaxError (unexpected (skip_ws r)))
  | Failed m => Err (JsSyntaxError m)
  | OutOfFuel => Err (JsSyntaxError "Maximum nesting depth exceeded")
  end.

(** [JSON.parse(s)]. *)
Definition json_parse (s : string) : result jsval exn := json_parse_fuel (json_fuel s) s.

(** [JSON.parse(JSON.stringify(v))]: [undefined] becomes [null] inside an
    array and its member disappears from an object. *)
Fixpoint to_json (v : jsval) : jsval :=
  match v with
  | JArr items =>
      JArr ((fix go (l : list jsval) : list jsval :=
               match l with
               | [] => []
               | JUndefined :: l' => JNull :: go l'
               | x :: l' => to_json x :: go l'
               end) items)
  | JObj fields =>
      JObj ((fix go (l : list (string * jsval)) : list (string * jsval) :=
               match l with
               | [] => []
               | (_, JUndefined) :: l' => go l'
               | (k, x) :: l' => (k, to_json x) :: go l'
               end) fields)
  | _ => v
  end.

(** The values JSON can represent exactly: no [undefined] anywhere. *)
Fixpoint is_json (v : jsval) : bool :=
  match v with
  | JUndefined => false
  | JArr items => forallb is_json items
  | JObj fields => forallb (fun kv => is_json (snd kv)) fields
  | _ => true
  end.

(** ** Auxiliary definitions of the proofs *)

Definition starts_digit (s : string) : bool :=
  match s with String c _ => is_digit c | EmptyString => false end.

Section JsvalInd.
Variable P : jsval -> Prop.
Hypothesis P_undef : P JUndefined.
Hypothesis P_null : P JNull.
Hypothesis P_bool : forall b, P (JBool b).
Hypothesis P_num : forall n, P (JNum n).
Hypothesis P_str : forall s, P (JStr s).
Hypothesis P_arr : forall items, Forall P items -> P (JArr items).
Hypothesis P_obj : forall fields, Forall (fun kv => P (snd kv)) fields -> P (JObj fields).

(** Induction on values, with the hypothesis on every item of an array
    or object. *)
Fixpoint jsval_ind' (v : jsval) : P v :=
  match v with
  | JUndefined => P_undef
  | JNull => P_null
  | JBool b => P_bool b
  | JNum n => P_num n
  | JStr s => P_str s
  | JArr items =>
      P_arr items ((fix go (l : list jsval) : Forall P l :=
                      match l with
                      | [] => List.Forall_nil _
                      | x :: l' => @List.Forall_cons _ P x l' (jsval_ind' x) (go l')
                      end) items)
  | JObj fields =>
      P_obj fields ((fix go (l : list (string * jsval)) : Forall (fun kv => P (snd kv)) l :=
                      match l with
                      | [] => List.Forall_nil _
                      | kv :: l' => @List.Forall_cons _ (fun kv => P (snd kv)) kv l' (jsval_ind' (snd kv)) (go l')
                      end) fields)
  end.
End JsvalInd.

Definition defined (v : jsval) : bool := match v with JUndefined => false | _ => true end.

Definition item_str (x : jsval) : string := default "null" (stringify x).

Definition item_val (x : jsval) : jsval := match x with JUndefined => JNull | _ => to_json x end.

Definition member_str (kv : string * jsval) : string :=
  quote (fst kv) +:+ ":" +:+ default "null" (stringify (snd kv)).

Definition members_of (fields : list (string * jsval)) : list (string * jsval) :=
  List.filter (fun kv => defined (snd kv)) fields.

(** The first character of a printed value: no whitespace, no closing
    bracket. *)
Definition value_start (c : Ascii.ascii) : bool :=
  negb (is_ws c) && negb (Ascii.eqb c "]") && negb (Ascii.eqb c "}").

Definition number_start (c : Ascii.ascii) : bool := Ascii.eqb c "-" || is_digit c.

(** [JSON.parse] reads [v] back from its printed text [s] followed by any
    text that does not continue a number. *)
Definition reads_back (v : jsval) : Prop :=
  forall s r, stringify v = Some s -> starts_digit r = false ->
  exists n, parse_value n (s +:+ r) = Parsed (to_json v) r.

(** ** Lengths: every successful step consumes text *)

Lemma skip_ws_length (s : string) : String.length (skip_ws s) <= String.length s.
Proof. induction s as [|c s IH]; simpl; [lia|]. destruct (is_ws c); simpl; lia. Qed.

Lemma take_digits_length (s : string) :
  String.length (snd (take_digits s)) <= String.length s.
Proof.
  induction s as [|c s IH]; simpl; [lia|].
  destruct (is_digit c); [destruct (take_digits s); simpl in *; lia | simpl; lia].
Qed.

Lemma cons_fst_some (c : Ascii.ascii) (o : option (string * string)) (x r : string) :
  cons_fst c o = Some (x, r) -> exists x', o = Some (x', r).
Proof. destruct o as [[x' r']|]; simpl; intros; simplify_eq; eauto. Qed.

(** [parse_chars] recurses below the first character, also past the four
    hex digits of a [\u] escape: induction on a bound of the length. *)
Lemma parse_chars_length (s x r : string) :
  parse_chars s = Some (x, r) -> String.length r < String.length s.
Proof.
  remember (String.length s) as n eqn:Hn. assert (Hle : String.length s <= n) by lia.
  clear Hn. revert s x Hle. induction n as [|n IH]; intros s x Hle H.
  - destruct s; simpl in *; [done | lia].
  - destruct s as [|c s]; simpl in H; [done|]. simpl in Hle.
    repeat case_match; simplify_eq/=; try lia;
      match goal with
      | Hc : cons_fst _ _ = Some _ |- _ =>
          apply cons_fst_some in Hc as [? Hc]; apply IH in Hc; simpl in *; lia
      end.
Qed.

Lemma take_digits_split (s d r : string) :
  take_digits s = (d, r) -> String.length d + String.length r = String.length s.
Proof.
  revert d r. induction s as [|c s IH]; intros d r H; simpl in H; [by simplify_eq|].
  destruct (is_digit c); [|by simplify_eq].
  destruct (take_digits s) as [d' r'] eqn:E. simplify_eq/=. specialize (IH _ _ eq_refl). lia.
Qed.

Lemma split_sign_length (s : string) :
  String.length (snd (split_sign s)) <= String.length s.
Proof. destruct s as [|c r]; simpl; [lia|]. destruct (Ascii.eqb c "-"); simpl; lia. Qed.

Lemma parse_number_length (s r : string) (z : Z) :
  parse_number s = Some (z, r) -> String.length r < String.length s.
Proof.
  unfold parse_number. pose proof (split_sign_length s) as Hl.
  destruct (split_sign s) as [sign s1]. simpl in Hl.
  destruct (take_digits s1) as [ds s2] eqn:Ht. apply take_digits_split in Ht.
  destruct ds as [|c ds]; [done|]. simpl in *. repeat case_match; intros; simplify_eq/=; lia.
Qed.

Lemma literal_length (w : string) (v v' : jsval) (s r : string) :
  literal w v s = Parsed v' r -> String.length r <= String.length s.
Proof.
  unfold literal. destruct (String.prefix w s) eqn:E; [|done]. intros [= _ <-].
  apply prefix_spec in E as [t ->]. rewrite str_drop_app, append_length. lia.
Qed.


Lemma parse_scalar_length (c : Ascii.ascii) (r r' : string) (v : jsval) :
  parse_scalar c r = Parsed v r' -> String.length r' < String.length (String c r).
Proof.
  unfold parse_scalar. simpl.
  repeat case_match; intros; simplify_eq/=;
    repeat match goal with
    | H : literal _ _ _ = _ |- _ => apply literal_length in H
    | H : parse_chars _ = _ |- _ => apply parse_chars_length in H
    | H : parse_number _ = _ |- _ => apply parse_number_length in H; simpl in H
    end; lia.
Qed.

Lemma closes_at_once_length (c : Ascii.ascii) (s r : string) :
  closes_at_once c s = Some r -> String.length r < String.length s.
Proof.
  unfold closes_at_once. pose proof (skip_ws_length s).
  repeat case_match; intros; simplify_eq/=; lia.
Qed.

Lemma after_item_length (c : Ascii.ascii) (s r : string) (b : bool) :
  after_item c s = Some (b, r) -> String.length r < String.length s.
Proof.
  unfold after_item. pose proof (skip_ws_length s).
  repeat case_match; intros; simplify_eq/=; lia.
Qed.

Lemma parse_key_length (s k r : string) :
  parse_key s = Some (k, r) -> String.length r < String.length s.
Proof.
  unfold parse_key. pose proof (skip_ws_length s).
  repeat case_match; intros; simplify_eq/=;
    repeat match goal with
    | H : parse_chars _ = _ |- _ => apply parse_chars_length in H
    | H : skip_ws ?x = String _ _ |- _ =>
        let L := fresh in pose proof (skip_ws_length x) as L; rewrite H in L; clear H
    end; simpl in *; lia.
Qed.

Lemma pmap_parsed {A B} (f : A -> B) (r : presult A) (b : B) (rest : string) :
  pmap f r = Parsed b rest -> exists a, r = Parsed a rest /\ b = f a.
Proof. destruct r; simpl; intros; simplify_eq; eauto. Qed.

Lemma pmap_out {A B} (f : A -> B) (r : presult A) : pmap f r = OutOfFuel <-> r = OutOfFuel.
Proof. destruct r; simpl; split; congruence. Qed.

(** The three parsers consume at least one character when they succeed. *)
Lemma parse_consumes (n : nat) :
  (forall s v r, parse_value n s = Parsed v r -> String.length r < String.length s) /\
  (forall s l r, parse_elements n s = Parsed l r -> String.length r < String.length s) /\
  (forall s l r, parse_members n s = Parsed l r -> String.length r < String.length s).
Proof.
  induction n as [|n (IHv & IHe & IHm)]; [repeat split; intros; simplify_eq/=|].
  repeat split; intros s x r H; simpl in H.
  - pose proof (skip_ws_length s). destruct (skip_ws s) as [|c t] eqn:E; [done|].
    simpl in *. repeat case_match; simplify_eq/=;
      repeat match goal with
      | H : closes_at_once _ _ = Some _ |- _ => apply closes_at_once_length in H
      | H : pmap _ _ = Parsed _ _ |- _ => apply pmap_parsed in H as (? & H & ?)
      | H : parse_elements _ _ = Parsed _ _ |- _ => apply IHe in H
      | H : parse_members _ _ = Parsed _ _ |- _ => apply IHm in H
      | H : parse_scalar _ _ = Parsed _ _ |- _ => apply parse_scalar_length in H
      end; simpl in *; lia.
  - repeat case_match; simplify_eq/=;
      repeat match goal with
      | H : after_item _ _ = Some _ |- _ => apply after_item_length in H
      | H : pmap _ _ = Parsed _ _ |- _ => apply pmap_parsed in H as (? & H & ?)
      | H : parse_elements _ _ = Parsed _ _ |- _ => apply IHe in H
      | H : parse_value _ _ = Parsed _ _ |- _ => apply IHv in H
      end; lia.
  - repeat case_match; simplify_eq/=;
      repeat match goal with
      | H : after_item _ _ = Some _ |- _ => apply after_item_length in H
      | H : parse_key _ = Some _ |- _ => apply parse_key_length in H
      | H : pmap _ _ = Parsed _ _ |- _ => apply pmap_parsed in H as (? & H & ?)
      | H : parse_members _ _ = Parsed _ _ |- _ => apply IHm in H
      | H : parse_value _ _ = Parsed _ _ |- _ => apply IHv in H
      end; lia.
Qed.

Lemma parse_scalar_not_out (c : Ascii.ascii) (r : string) : parse_scalar c r <> OutOfFuel.
Proof. unfold parse_scalar, literal. repeat case_match; discriminate. Qed.

(** Twice the length of the text is enough fuel: each unit of fuel either
    consumes a character or passes from an array or object to its first
    item. *)
Lemma parse_fuel_enough (n : nat) :
  (forall s, 2 * String.length s < n -> parse_value n s <> OutOfFuel) /\
  (forall s, 2 * String.length s + 1 < n -> parse_elements n s <> OutOfFuel) /\
  (forall s, 2 * String.length s + 1 < n -> parse_members n s <> OutOfFuel).
Proof.
  induction n as [|n (IHv & IHe & IHm)]; [repeat split; intros; lia|].
  repeat split; intros s Hn; simpl.
  - pose proof (skip_ws_length s). destruct (skip_ws s) as [|c t]; [done|]. simpl in *.
    repeat case_match; try done; try apply parse_scalar_not_out;
      rewrite pmap_out; [apply IHe | apply IHm]; lia.
  - pose proof (proj1 (parse_consumes n) s) as Hc.
    destruct (parse_value n s) as [v r| |] eqn:E; [|done|exfalso; by apply (IHv s); [lia|]].
    specialize (Hc _ _ eq_refl).
    destruct (after_item "]" r) as [[[] r']|] eqn:Ea; try done.
    apply after_item_length in Ea. rewrite pmap_out. apply IHe. lia.
  - destruct (parse_key s) as [[k r]|] eqn:Ek; [|done]. apply parse_key_length in Ek.
    pose proof (proj1 (parse_consumes n) r) as Hc.
    destruct (parse_value n r) as [v r'| |] eqn:E; [|done|exfalso; by apply (IHv r); [lia|]].
    specialize (Hc _ _ eq_refl).
    destruct (after_item "}" r') as [[[] r'']|] eqn:Ea; try done.
    apply after_item_length in Ea. rewrite pmap_out. apply IHm. lia.
Qed.

Lemma pmap_not_out {A B} (f : A -> B) (r : presult A) : pmap f r <> OutOfFuel -> r <> OutOfFuel.
Proof. rewrite pmap_out. done. Qed.

(** Fuel that suffices gives the same answer as any larger fuel. *)
Lemma parse_fuel_mono (n : nat) : forall m, n <= m ->
  (forall s, parse_value n s <> OutOfFuel -> parse_value m s = parse_value n s) /\
  (forall s, parse_elements n s <> OutOfFuel -> parse_elements m s = parse_elements n s) /\
  (forall s, parse_members n s <> OutOfFuel -> parse_members m s = parse_members n s).
Proof.
  induction n as [|n IH]; intros m Hle; [repeat split; intros s H; by destruct H|].
  destruct m as [|m]; [lia|]. destruct (IH m ltac:(lia)) as (IHv & IHe & IHm).
  repeat split; intros s H; simpl in *.
  - destruct (skip_ws s) as [|c t]; [done|].
    repeat case_match; try done; f_equal;
      [apply IHe | apply IHm]; eapply pmap_not_out; eassumption.
  - destruct (parse_value n s) as [v r| |] eqn:E; [|by rewrite IHv, E; [|rewrite E]|done].
    rewrite IHv, E by (rewrite E; discriminate).
    destruct (after_item "]" r) as [[[] r']|]; try done.
    f_equal. apply IHe. eapply pmap_not_out; eassumption.
  - destruct (parse_key s) as [[k r]|]; [|done].
    destruct (parse_value n r) as [v r'| |] eqn:E; [|by rewrite IHv, E; [|rewrite E]|done].
    rewrite IHv, E by (rewrite E; discriminate).
    destruct (after_item "}" r') as [[[] r'']|]; try done.
    f_equal. apply IHm. eapply pmap_not_out; eassumption.
Qed.

(** ** Reading back printed values *)

Lemma to_uint_head (p : positive) (u : Decimal.uint) : Pos.to_uint p <> Decimal.D0 u.
Proof.
  intros H.
  pose proof (DecimalPos.Unsigned.to_of (Pos.to_uint p)) as E.
  rewrite DecimalPos.Unsigned.of_to in E. simpl in E. rewrite H, DecimalFacts.unorm_D0 in E.
  destruct u as [|u|u|u|u|u|u|u|u|u|u];
    [apply (DecimalPos.Unsigned.to_uint_nonzero p); by rewrite H|..];
    match type of E with _ = Decimal.unorm ?x =>
      pose proof (DecimalFacts.nb_digits_unorm x ltac:(discriminate)) as L end;
    rewrite <- E in L; simpl in L; lia.
Qed.

Lemma take_digits_uint (d : Decimal.uint) (r : string) :
  starts_digit r = false ->
  take_digits (NilEmpty.string_of_uint d +:+ r) = (NilEmpty.string_of_uint d, r).
Proof.
  intros Hr. induction d; rewrite ?append_cons; simpl; try (by rewrite IHd);
    destruct r as [|c r]; simpl in *; [done|]. by rewrite Hr.
Qed.

Lemma leading_zero_cons (c : Ascii.ascii) (t : string) :
  Ascii.eqb c "0" = false -> leading_zero (String c t) = false.
Proof. destruct t; simpl; auto. Qed.

Lemma uint_leading (d : Decimal.uint) :
  d = Decimal.zero \/ (forall u, d <> Decimal.D0 u) ->
  leading_zero (NilEmpty.string_of_uint d) = false.
Proof.
  intros [->|Hd]; [reflexivity|].
  destruct d; [reflexivity | by destruct (Hd d) | ..]; apply leading_zero_cons; reflexivity.
Qed.

Lemma parse_number_uint (sign : string) (d : Decimal.uint) (r : string) :
  (sign = EmptyString \/ sign = "-") -> d <> Decimal.Nil ->
  leading_zero (NilEmpty.string_of_uint d) = false -> starts_digit r = false ->
  parse_number (sign +:+ NilEmpty.string_of_uint d +:+ r) =
    match z_of_string (sign +:+ NilEmpty.string_of_uint d) with
    | Some z => Some (z, r) | None => None end.
Proof.
  intros Hs Hd Hl Hr. unfold parse_number.
  assert (Hsp : split_sign (sign +:+ NilEmpty.string_of_uint d +:+ r) =
                (sign, NilEmpty.string_of_uint d +:+ r)).
  { destruct Hs as [->| ->]; [|reflexivity]. destruct d; done. }
  rewrite Hsp, take_digits_uint, Hl by done. rewrite orb_false_r.
  by destruct d.
Qed.

(** The decimal text of an integer: an optional minus sign, then digits
    without a leading zero. *)
Lemma z_to_string_shape (z : Z) :
  exists sign d, z_to_string z = sign +:+ NilEmpty.string_of_uint d /\
    (sign = EmptyString \/ sign = "-") /\ d <> Decimal.Nil /\
    leading_zero (NilEmpty.string_of_uint d) = false.
Proof.
  destruct z as [|p|p]; [exists EmptyString, Decimal.zero | exists EmptyString, (Pos.to_uint p)
    | exists "-", (Pos.to_uint p)];
    (split; [reflexivity|]); (split; [auto|]);
    (split; [try apply DecimalPos.Unsigned.to_uint_nonnil; discriminate|]);
    apply uint_leading; auto using to_uint_head.
Qed.

Lemma parse_number_z (z : Z) (r : string) :
  starts_digit r = false -> parse_number (z_to_string z +:+ r) = Some (z, r).
Proof.
  intros Hr. destruct (z_to_string_shape z) as (sign & d & Hz & Hs & Hd & Hl).
  pose proof (z_of_to_string z) as Hzz. rewrite Hz in *.
  rewrite <- append_assoc, parse_number_uint by done. by rewrite Hzz.
Qed.

Lemma escape_char_parse (c : Ascii.ascii) (t : string) :
  parse_chars (escape_char c +:+ t) = cons_fst c (parse_chars t).
Proof. destruct c as [[] [] [] [] [] [] [] []]; reflexivity. Qed.

Lemma parse_chars_escape (x r : string) :
  parse_chars (escape x +:+ String quote_char r) = Some (x, r).
Proof.
  induction x as [|c x IH]; [reflexivity|]. simpl.
  by rewrite <- append_assoc, escape_char_parse, IH.
Qed.

Lemma stringify_arr (items : list jsval) :
  stringify (JArr items) = Some ("[" +:+ join "," (map item_str items) +:+ "]").
Proof. reflexivity. Qed.

Lemma defined_stringify (x : jsval) (sx : string) : stringify x = Some sx -> defined x = true.
Proof. by destruct x. Qed.

Lemma stringify_obj (fields : list (string * jsval)) :
  stringify (JObj fields) = Some ("{" +:+ join "," (map member_str (members_of fields)) +:+ "}").
Proof.
  simpl. do 4 f_equal. induction fields as [|[k x] l IH]; [done|]. simpl.
  destruct (stringify x) as [sx|] eqn:E.
  - unfold members_of. simpl. rewrite (defined_stringify x sx E). simpl.
    unfold member_str at 1. simpl. rewrite E. f_equal. exact IH.
  - apply stringify_none_iff in E as ->. exact IH.
Qed.

Lemma to_json_arr (items : list jsval) : to_json (JArr items) = JArr (map item_val items).
Proof. simpl. f_equal. induction items as [|[] l IH]; simpl; congruence. Qed.

Lemma to_json_obj (fields : list (string * jsval)) :
  to_json (JObj fields) = JObj (map (fun kv => (fst kv, to_json (snd kv))) (members_of fields)).
Proof. simpl. f_equal. induction fields as [|[k []] l IH]; simpl; congruence. Qed.

Lemma parsed_lift (n m : nat) (s : string) :
  n <= m ->
  (forall v r, parse_value n s = Parsed v r -> parse_value m s = Parsed v r) /\
  (forall l r, parse_elements n s = Parsed l r -> parse_elements m s = Parsed l r) /\
  (forall l r, parse_members n s = Parsed l r -> parse_members m s = Parsed l r).
Proof.
  intros Hle. destruct (parse_fuel_mono n m Hle) as (Hv & He & Hm).
  repeat split; intros x r H; rewrite <- H; [apply Hv | apply He | apply Hm]; by rewrite H.
Qed.

Lemma stringify_start (v : jsval) (s : string) :
  stringify v = Some s -> exists c t, s = String c t /\ value_start c = true.
Proof.
  intros H. destruct v as [| |[]|z| | |]; simpl in H; simplify_eq; try by eexists _, _.
  destruct (z_to_string_shape z) as (sign & d & -> & [-> | ->] & Hd & _);
    [destruct d; [done|..] | ]; by eexists _, _.
Qed.

Lemma item_start (x : jsval) : exists c t, item_str x = String c t /\ value_start c = true.
Proof.
  unfold item_str. destruct (stringify x) as [s|] eqn:E; [|by eexists _, _].
  by apply stringify_start in E.
Qed.

Lemma closes_at_once_value (close c : Ascii.ascii) (t : string) :
  value_start c = true -> (close = "]"%char \/ close = "}"%char) ->
  closes_at_once close (String c t) = None.
Proof.
  unfold value_start, closes_at_once. intros H Hc.
  apply andb_true_iff in H as [H H2]. apply andb_true_iff in H as [H0 H1].
  apply negb_true_iff in H0, H1, H2. simpl. rewrite H0.
  destruct Hc as [-> | ->]; by rewrite ?H1, ?H2.
Qed.

Lemma parse_key_quote (k t : string) :
  parse_key (quote k +:+ ":" +:+ t) = Some (k, t).
Proof.
  unfold parse_key, quote. rewrite append_cons. simpl.
  rewrite <- append_assoc, (append_cons _ EmptyString), append_nil_l, parse_chars_escape.
  reflexivity.
Qed.

Lemma literal_app (w : string) (v : jsval) (r : string) : literal w v (w +:+ r) = Parsed v r.
Proof. unfold literal. by rewrite prefix_app, str_drop_app. Qed.

Lemma parse_null (r : string) : parse_value 1 ("null" +:+ r) = Parsed JNull r.
Proof. rewrite append_cons. apply literal_app. Qed.

Lemma parse_bool (b : bool) (r : string) :
  parse_value 1 ((if b then "true" else "false") +:+ r) = Parsed (JBool b) r.
Proof. destruct b; rewrite append_cons; apply literal_app. Qed.

Lemma parse_quote (x r : string) : parse_value 1 (quote x +:+ r) = Parsed (JStr x) r.
Proof.
  unfold quote. rewrite append_cons, <- append_assoc, (append_cons _ EmptyString), append_nil_l.
  simpl. unfold parse_scalar. simpl. by rewrite parse_chars_escape.
Qed.

Lemma parse_value_number_start (n : nat) (c : Ascii.ascii) (t : string) :
  number_start c = true ->
  parse_value (S n) (String c t) =
    match parse_number (String c t) with
    | Some (z, r') => Parsed (JNum z) r'
    | None => Failed (unexpected (String c t))
    end.
Proof. destruct c as [[] [] [] [] [] [] [] []]; try discriminate; reflexivity. Qed.

Lemma z_to_string_start (z : Z) (r : string) :
  exists c t, z_to_string z +:+ r = String c t /\ number_start c = true.
Proof.
  destruct (z_to_string_shape z) as (sign & d & -> & [-> | ->] & Hd & _);
    [destruct d; [done|..] | ]; by eexists _, _.
Qed.

Lemma parse_num (z : Z) (r : string) :
  starts_digit r = false -> parse_value 1 (z_to_string z +:+ r) = Parsed (JNum z) r.
Proof.
  intros Hr. destruct (z_to_string_start z r) as (c & t & Ht & Hc).
  rewrite Ht, parse_value_number_start, <- Ht, parse_number_z by done. reflexivity.
Qed.

Lemma join_head (sep a : string) (l : list string) : exists u, join sep (a :: l) = a +:+ u.
Proof.
  destruct l as [|b l]; [exists EmptyString; by rewrite append_empty_r|].
  by exists (sep +:+ join sep (b :: l)).
Qed.

Lemma after_item_comma (close : Ascii.ascii) (t : string) : after_item close (String "," t) = Some (true, t).
Proof. reflexivity. Qed.

Lemma after_item_close (close : Ascii.ascii) (t : string) :
  close = "]"%char \/ close = "}"%char -> after_item close (String close t) = Some (false, t).
Proof. by intros [-> | ->]. Qed.

Lemma item_parse (x : jsval) (r : string) :
  reads_back x -> starts_digit r = false ->
  exists n, parse_value n (item_str x +:+ r) = Parsed (item_val x) r.
Proof.
  intros Hx Hr. destruct x as [| |[]| | | |]; [exists 1; apply parse_null|..]; by apply Hx.
Qed.

Lemma elements_read (items : list jsval) (r : string) :
  Forall reads_back items -> items <> [] ->
  exists n, parse_elements n (join "," (map item_str items) +:+ String "]" r) =
            Parsed (map item_val items) r.
Proof.
  induction 1 as [|x l Hx Hl IH]; [done|]. intros _.
  destruct l as [|y l].
  - destruct (item_parse x (String "]" r) Hx eq_refl) as [n Hn].
    exists (S n). simpl. by rewrite Hn.
  - destruct (IH ltac:(discriminate)) as [n2 H2].
    destruct (item_parse x (String "," (join "," (map item_str (y :: l)) +:+ String "]" r)) Hx eq_refl)
      as [n1 H1].
    exists (S (n1 + n2)).
    change (join "," (map item_str (x :: y :: l))) with
      (item_str x +:+ "," +:+ join "," (map item_str (y :: l))).
    rewrite <- !append_assoc, (append_cons _ EmptyString), append_nil_l. cbn [parse_elements].
    rewrite (proj1 (parsed_lift n1 (n1 + n2) _ ltac:(lia)) _ _ H1), after_item_comma.
    by rewrite (proj1 (proj2 (parsed_lift n2 (n1 + n2) _ ltac:(lia))) _ _ H2).
Qed.

Lemma members_of_forall (Q : jsval -> Prop) (fields : list (string * jsval)) :
  Forall (fun kv => Q (snd kv)) fields ->
  Forall (fun kv => Q (snd kv) /\ defined (snd kv) = true) (members_of fields).
Proof.
  induction 1 as [|[k x] l Hx Hl IH]; [constructor|]. unfold members_of in *. simpl.
  destruct (defined x) eqn:E; [constructor|]; auto.
Qed.

Lemma member_value (x : jsval) (r : string) :
  reads_back x -> defined x = true -> starts_digit r = false ->
  exists n, parse_value n (default "null" (stringify x) +:+ r) = Parsed (to_json x) r.
Proof.
  intros Hx Hd Hr. destruct (stringify x) as [sx|] eqn:E; [by apply Hx|].
  apply stringify_none_iff in E as ->. discriminate.
Qed.

Lemma members_read (ms : list (string * jsval)) (r : string) :
  Forall (fun kv => reads_back (snd kv) /\ defined (snd kv) = true) ms -> ms <> [] ->
  exists n, parse_members n (join "," (map member_str ms) +:+ String "}" r) =
            Parsed (map (fun kv => (fst kv, to_json (snd kv))) ms) r.
Proof.
  induction 1 as [|[k x] l [Hx Hd] Hl IH]; [done|]. intros _.
  destruct l as [|kv l].
  - destruct (member_value x (String "}" r) Hx Hd eq_refl) as [n Hn].
    exists (S n). cbn [map join]. unfold member_str. rewrite <- !append_assoc. cbn [parse_members].
    rewrite parse_key_quote. cbn [fst snd]. by rewrite Hn.
  - destruct (IH ltac:(discriminate)) as [n2 H2].
    destruct (member_value x (String "," (join "," (map member_str (kv :: l)) +:+ String "}" r)) Hx Hd eq_refl)
      as [n1 H1].
    exists (S (n1 + n2)).
    change (join "," (map member_str ((k, x) :: kv :: l))) with
      (member_str (k, x) +:+ "," +:+ join "," (map member_str (kv :: l))).
    unfold member_str at 1.
    rewrite <- !append_assoc, (append_cons ","%char EmptyString), append_nil_l. cbn [parse_members].
    rewrite parse_key_quote. cbn [fst snd].
    rewrite (proj1 (parsed_lift n1 (n1 + n2) _ ltac:(lia)) _ _ H1), after_item_comma.
    by rewrite (proj2 (proj2 (parsed_lift n2 (n1 + n2) _ ltac:(lia))) _ _ H2).
Qed.

Lemma parse_value_open (n : nat) (t : string) :
  parse_value (S n) (String "[" t) =
    match closes_at_once "]" t with
    | Some r' => Parsed (JArr []) r'
    | None => pmap JArr (parse_elements n t)
    end /\
  parse_value (S n) (String "{" t) =
    match closes_at_once "}" t with
    | Some r' => Parsed (JObj []) r'
    | None => pmap JObj (parse_members n t)
    end.
Proof. split; reflexivity. Qed.

Lemma closes_at_once_join (close : Ascii.ascii) (a : string) (l : list string) (r : string) :
  (exists c t, a = String c t /\ value_start c = true) -> (close = "]"%char \/ close = "}"%char) ->
  closes_at_once close (join "," (a :: l) +:+ r) = None.
Proof.
  intros (c & t & -> & Hc) Hclose. destruct (join_head "," (String c t) l) as [u ->].
  rewrite <- append_assoc, append_cons. by apply closes_at_once_value.
Qed.

(** Every value [JSON.parse] reads back from its printed text. *)
Lemma stringify_reads_back (v : jsval) : reads_back v.
Proof.
  induction v as [| |b|z|x|items IH|fields IH] using jsval_ind'; intros s r Hs Hr.
  - discriminate.
  - simplify_eq/=. exists 1. apply parse_null.
  - exists 1. destruct b; simplify_eq/=; [apply (parse_bool true) | apply (parse_bool false)].
  - simplify_eq/=. exists 1. by apply parse_num.
  - simplify_eq/=. exists 1. apply parse_quote.
  - rewrite stringify_arr in Hs. simplify_eq. rewrite to_json_arr.
    rewrite <- !append_assoc, (append_cons "["%char EmptyString), (append_cons "]"%char EmptyString), !append_nil_l.
    destruct items as [|x l]; [by exists 1|].
    destruct (elements_read (x :: l) r IH ltac:(discriminate)) as [n Hn].
    exists (S n). rewrite (proj1 (parse_value_open n _)).
    change (map item_str (x :: l)) with (item_str x :: map item_str l) in *.
    rewrite (closes_at_once_join "]" (item_str x)) by (auto using item_start). by rewrite Hn.
  - rewrite stringify_obj in Hs. simplify_eq. rewrite to_json_obj.
    rewrite <- !append_assoc, (append_cons "{"%char EmptyString), (append_cons "}"%char EmptyString), !append_nil_l.
    pose proof (members_of_forall _ _ IH) as Hall.
    destruct (members_of fields) as [|[k x] l]; [by exists 1|].
    destruct (members_read ((k, x) :: l) r Hall ltac:(discriminate)) as [n Hn].
    exists (S n). rewrite (proj2 (parse_value_open n _)).
    change (map member_str ((k, x) :: l)) with (member_str (k, x) :: map member_str l) in *.
    rewrite (closes_at_once_join "}" (member_str (k, x))) by (unfold member_str, quote; eauto).
    by rewrite Hn.
Qed.

Lemma is_json_defined (x : jsval) : is_json x = true -> defined x = true.
Proof. by destruct x. Qed.

Lemma to_json_id (v : jsval) : is_json v = true -> to_json v = v.
Proof.
  induction v as [| | | | |items IH|fields IH] using jsval_ind'; cbv beta; intros H; try done.
  - rewrite to_json_arr. f_equal.
    induction IH as [|x l Hx Hl IHl]; [done|]. cbn [is_json forallb map] in *.
    apply andb_true_iff in H as [H1 H2]. rewrite IHl by done. f_equal.
    destruct x; [done|..]; by apply Hx.
  - rewrite to_json_obj. f_equal. unfold members_of.
    induction IH as [|[k x] l Hx Hl IHl]; [done|]. cbn [is_json forallb snd] in *.
    apply andb_true_iff in H as [H1 H2]. cbn [List.filter snd].
    rewrite (is_json_defined x H1). cbn [map fst snd]. rewrite Hx, IHl by done. done.
Qed.

(** The fuel of [json_parse] gives the answer of any larger fuel. *)
Lemma parse_value_stable (s : string) (n : nat) :
  json_fuel s <= n -> parse_value n s = parse_value (json_fuel s) s.
Proof.
  intros Hle. apply (parse_fuel_mono _ _ Hle).
  apply (proj1 (parse_fuel_enough (json_fuel s))). unfold json_fuel. lia.
Qed.

Lemma parse_value_json_fuel (s : string) (n : nat) (v : jsval) (r : string) :
  parse_value n s = Parsed v r -> parse_value (json_fuel s) s = Parsed v r.
Proof.
  intros H. rewrite <- (parse_value_stable s (Nat.max n (json_fuel s))) by lia.
  by apply (parsed_lift n); [lia|].
Qed.

(** A blank text is the end of the input. *)
Lemma json_parse_blank (s : string) :
  skip_ws s = EmptyString -> json_parse s = Err (JsSyntaxError "Unexpected end of JSON input").
Proof. intros H. unfold json_parse, json_parse_fuel, json_fuel. simpl. by rewrite H. Qed.

(** Termination of [JSON.parse]: the fuel [json_fuel s] never runs out,
    and any larger fuel gives the same answer. *)
Lemma parse_value_fuel (s : string) (n : nat) :
  json_fuel s <= n ->
  parse_value n s = parse_value (json_fuel s) s /\ parse_value n s <> OutOfFuel.
Proof.
  intros Hle. split; [by apply parse_value_stable|].
  apply (proj1 (parse_fuel_enough n)). unfold json_fuel in Hle. lia.
Qed.

(** [JSON.parse] reads back what [JSON.stringify] prints, up to what
    printing loses ([undefined] items print as [null], [undefined]
    members are dropped). *)
Lemma json_parse_of_stringify (v : jsval) (s : string) :
  stringify v = Some s -> json_parse s = Ok (to_json v).
Proof.
  intros Hs. destruct (stringify_reads_back v s EmptyString Hs eq_refl) as [n Hn].
  rewrite append_empty_r in Hn.
  unfold json_parse, json_parse_fuel. by rewrite (parse_value_json_fuel s n _ _ Hn).
Qed.

End Json.
