(* ===== verification/Schema.v ===== *)
(** * ValidatedInput: [emailSchema] of @shared/schema

    The schema module is not among the sources; the spec (section 6)
    describes it as one email field checked against a standard address
    rule.  It is modelled as zod's [z.string().email()] check, whose rule
    is the case-insensitive expression
    [^(?!\.)(?!.*\.\.)([A-Z0-9_'+\-\.]{0,})[A-Z0-9_+-]@([A-Z0-9][A-Z0-9\-]*\.)+[A-Z]{2,}$],
    written here as a decision procedure on the characters, with zod's
    default message. *)

From S2P Require Import Prelude.
From Stdlib Require Import Ascii.

Module EmailSchema.

Definition in_range (lo hi : nat) (c : Ascii.ascii) : bool :=
  Nat.leb lo (Ascii.nat_of_ascii c) && Nat.leb (Ascii.nat_of_ascii c) hi.

Definition is_alpha (c : Ascii.ascii) : bool := in_range 65 90 c || in_range 97 122 c.
Definition is_alnum (c : Ascii.ascii) : bool := is_alpha c || in_range 48 57 c.
Definition is_char (n : nat) (c : Ascii.ascii) : bool := Nat.eqb (Ascii.nat_of_ascii c) n.

(** [[A-Z0-9_+-]], the last character of the local part. *)
Definition local_last_ok (c : Ascii.ascii) : bool :=
  is_alnum c || is_char 95 c || is_char 43 c || is_char 45 c.
(** [[A-Z0-9_'+\-\.]], the other characters of the local part. *)
Definition local_char_ok (c : Ascii.ascii) : bool :=
  local_last_ok c || is_char 39 c || is_char 46 c.
Definition label_char_ok (c : Ascii.ascii) : bool := is_alnum c || is_char 45 c.

Fixpoint last_char (s : string) : option Ascii.ascii :=
  match s with
  | EmptyString => None
  | String c EmptyString => Some c
  | String _ s' => last_char s'
  end.

(** Split at every occurrence of a separator character. *)
Fixpoint split_on (sep : Ascii.ascii) (s : string) : list string :=
  match s with
  | EmptyString => [EmptyString]
  | String c s' =>
      match split_on sep s' with
      | [] => []
      | w :: ws => if Ascii.eqb c sep then EmptyString :: w :: ws else String c w :: ws
      end
  end.

(** The lookahead [(?!.*\.\.)]. *)
Fixpoint has_double_dot (s : string) : bool :=
  match s with
  | String c ((String c' _) as s') => (is_char 46 c && is_char 46 c') || has_double_dot s'
  | _ => false
  end.

Definition local_ok (l : string) : bool :=
  str_all local_char_ok l &&
  match last_char l with Some c => local_last_ok c | None => false end.

(** [[A-Z0-9][A-Z0-9\-]*] *)
Definition label_ok (l : string) : bool :=
  match l with
  | String c r => is_alnum c && str_all label_char_ok r
  | EmptyString => false
  end.

(** [[A-Z]{2,}] *)
Definition tld_ok (t : string) : bool := Nat.leb 2 (String.length t) && str_all is_alpha t.

Definition domain_ok (d : string) : bool :=
  match rev (split_on "."%char d) with
  | tld :: (_ :: _) as labels => tld_ok tld && forallb label_ok labels
  | _ => false
  end.

Definition email_ok (s : string) : bool :=
  negb (String.prefix "." s) && negb (has_double_dot s) &&
  match split_on "@"%char s with
  | [local; domain] => local_ok local && domain_ok domain
  | _ => false
  end.

Definition invalid_email_message : string := "Invalid email".

(** [zodResolver(emailSchema)] on the form value [{ email }]: the parsed
    value, or the field-level message of [errors.email]. *)
Definition emailSchema_parse (email : string) : result string string :=
  if email_ok email then Ok email else Err invalid_email_message.

Lemma emailSchema_parse_ok (email v : string) :
  emailSchema_parse email = Ok v -> v = email /\ email_ok email = true.
Proof. unfold emailSchema_parse. destruct (email_ok email); by intros [=]. Qed.

Lemma emailSchema_parse_err (email m : string) :
  emailSchema_parse email = Err m -> m = invalid_email_message /\ email_ok email = false.
Proof. unfold emailSchema_parse. destruct (email_ok email); by intros [=]. Qed.

(** Every accepted address has exactly one [@]. *)
Lemma email_ok_one_at (s : string) :
  email_ok s = true -> exists l d, split_on "@"%char s = [l; d].
Proof.
  unfold email_ok. destruct (split_on "@"%char s) as [|l [|d [|x r]]];
    rewrite ?andb_false_r; try discriminate; eauto.
Qed.

Example email_ok_user_example : email_ok "user@example.com" = true.
Proof. reflexivity. Qed.

Example email_ok_not_an_email : email_ok "not-an-email" = false.
Proof. reflexivity. Qed.

End EmailSchema.
