(* ===== verification/QueryCache.v ===== *)
(** * CacheStore: the [queryClient] of src/client/src/lib/queryClient.ts

    [queryClient] (lines 92-105) is a TanStack [QueryClient] built with
    default options; the options are translated as the record
    [QueryClientConfig].  The query cache they configure belongs to the
    library, so its behaviour is modelled from spec sections 4.3 and 5:
    a store of query entries keyed by the hashed query key, each with its
    last data, its error, whether a fetch is in flight and whether it was
    invalidated.  [requests] records every network fetch the cache issued
    and [outstanding] those not yet settled.  Reads ([getOrFetch]), the
    settlement of a fetch ([resolve]), [invalidate], window focus and
    the passing of time are the events; [cache_step] applies one.

    [tick] advances the clock and runs the interval refetch but collects
    no garbage: this store is TanStack's cache with [gcTime: Infinity].
    [QueryGc.v] adds the gc timeouts of the default [gcTime] that
    [queryClient] leaves in place; the theorems here are about single
    events or hold whatever the clock does, and those about time passing
    are stated there. *)

From S2P Require Import Prelude Js Http.

Module Cache.
Import JsValue Executor.

(** ** The configuration, lines 92-105 *)

Record QueryDefaults : Type := mkQueryDefaults {
  queryFn_on401 : UnauthorizedBehavior;   (** [queryFn: getQueryFn({ on401 })] *)
  refetchInterval : option nat;           (** [false] is [None] *)
  refetchOnWindowFocus : bool;
  staleTime : option nat;                 (** [Infinity] is [None] *)
  retry : nat                             (** [false] is [0] *)
}.

Record MutationDefaults : Type := mkMutationDefaults { mutation_retry : nat }.

Record QueryClientConfig : Type := mkConfig {
  queries : QueryDefaults;
  mutations : MutationDefaults
}.

Definition queryClient : QueryClientConfig :=
  mkConfig (mkQueryDefaults throw None false None 0) (mkMutationDefaults 0).

(** ** The cache *)

Record Query : Type := mkQuery {
  data : option jsval;
  query_error : option exn;
  fetching : bool;
  isInvalidated : bool;
  dataUpdatedAt : nat;
  failureCount : nat
}.

Definition new_query : Query := mkQuery None None false false 0 0.

Record Store : Type := mkStore {
  entries : gmap string Query;
  clock : nat;
  requests : list string;      (** every network fetch issued, oldest first *)
  outstanding : list string    (** keys whose network fetch has not settled *)
}.

Definition empty_store : Store := mkStore ∅ 0 [] [].

Definition query_of (st : Store) (k : string) : Query := default new_query (entries st !! k).

(** The query hash: the JSON text of the key array. *)
Definition hashKey (queryKey : list jsval) : string := default EmptyString (stringify (JArr queryKey)).

(** [isStaleByTime]: invalidated, without data, or older than [staleTime]. *)
Definition isStale (cfg : QueryDefaults) (now : nat) (q : Query) : bool :=
  isInvalidated q ||
  match data q with None => true | Some _ => false end ||
  match staleTime cfg with
  | None => false
  | Some t => Nat.leb (dataUpdatedAt q + t) now
  end.

Inductive read_outcome : Type :=
  | Served (v : jsval)   (** answered from the cache *)
  | Joined               (** attached to the fetch already in flight *)
  | Started.             (** a new network fetch *)

(** The [fetch] action of a query: in flight, failure count reset, and
    the error cleared when there is no data to show. *)
Definition set_fetching (q : Query) : Query :=
  mkQuery (data q) (match data q with None => None | Some _ => query_error q end) true
          (isInvalidated q) (dataUpdatedAt q) 0.

Definition start_fetch (k : string) (q : Query) (st : Store) : Store :=
  mkStore (<[k := set_fetching q]> (entries st)) (clock st)
          (requests st ++ [k]) (outstanding st ++ [k]).

(** A read of key [k]: served while fresh, otherwise deduplicated onto
    the fetch in flight or a new fetch. *)
Definition getOrFetch (cfg : QueryDefaults) (k : string) (st : Store) : read_outcome * Store :=
  let q := query_of st k in
  if isStale cfg (clock st) q then
    if fetching q then (Joined, st) else (Started, start_fetch k q st)
  else match data q with
       | Some v => (Served v, st)
       | None => (Started, start_fetch k q st)
       end.

Fixpoint remove_first (k : string) (l : list string) : list string :=
  match l with
  | [] => []
  | x :: l' => if String.eqb x k then l' else x :: remove_first k l'
  end.

(** The network fetch of [k] settles; a failure is retried while
    [failureCount < retry], otherwise it ends the fetch and keeps the
    previous data. *)
Definition resolve (cfg : QueryDefaults) (k : string) (r : result jsval exn) (st : Store) : Store :=
  let q := query_of st k in
  if fetching q then
    match r with
    | Ok v => mkStore (<[k := mkQuery (Some v) None false false (clock st) 0]> (entries st))
                      (clock st) (requests st) (remove_first k (outstanding st))
    | Err e =>
        if Nat.ltb (failureCount q) (retry cfg) then
          mkStore (<[k := mkQuery (data q) (query_error q) true (isInvalidated q)
                                  (dataUpdatedAt q) (S (failureCount q))]> (entries st))
                  (clock st) (requests st ++ [k]) (outstanding st)
        else
          mkStore (<[k := mkQuery (data q) (Some e) false (isInvalidated q)
                                  (dataUpdatedAt q) (S (failureCount q))]> (entries st))
                  (clock st) (requests st) (remove_first k (outstanding st))
    end
  else st.

Definition invalidate (k : string) (st : Store) : Store :=
  match entries st !! k with
  | Some q => mkStore (<[k := mkQuery (data q) (query_error q) (fetching q) true
                                      (dataUpdatedAt q) (failureCount q)]> (entries st))
                      (clock st) (requests st) (outstanding st)
  | None => st
  end.

(** Background refetch of the entries satisfying [p], one key at a time. *)
Definition refetch_key (p : nat -> Query -> bool) (st : Store) (k : string) : Store :=
  let q := query_of st k in
  if negb (fetching q) && p (clock st) q then start_fetch k q st else st.

Definition refetch_where (p : nat -> Query -> bool) (st : Store) : Store :=
  fold_left (refetch_key p) (map fst (map_to_list (entries st))) st.

Definition window_focus (cfg : QueryDefaults) (st : Store) : Store :=
  if refetchOnWindowFocus cfg then refetch_where (isStale cfg) st else st.

Definition tick (cfg : QueryDefaults) (st : Store) : Store :=
  let st' := mkStore (entries st) (S (clock st)) (requests st) (outstanding st) in
  match refetchInterval cfg with
  | Some n => if Nat.eqb n 0 then st'
              else if Nat.eqb (clock st' mod n) 0 then refetch_where (fun _ _ => true) st' else st'
  | None => st'
  end.

Inductive cache_event : Type :=
  | Read (k : string)
  | Resolve (k : string) (r : result jsval exn)
  | Invalidate (k : string)
  | Focus
  | Tick.

Definition cache_step (cfg : QueryDefaults) (ev : cache_event) (st : Store) : Store :=
  match ev with
  | Read k => snd (getOrFetch cfg k st)
  | Resolve k r => resolve cfg k r st
  | Invalidate k => invalidate k st
  | Focus => window_focus cfg st
  | Tick => tick cfg st
  end.

Definition cache_run (cfg : QueryDefaults) (evs : list cache_event) (st : Store) : Store :=
  fold_left (fun st ev => cache_step cfg ev st) evs st.

Inductive cache_reachable (cfg : QueryDefaults) : Store -> Prop :=
  | creach_empty : cache_reachable cfg empty_store
  | creach_step st ev : cache_reachable cfg st -> cache_reachable cfg (cache_step cfg ev st).

(** [n] reads of the same key issued before any fetch settles. *)
Fixpoint read_many (cfg : QueryDefaults) (k : string) (n : nat) (st : Store)
    : list read_outcome * Store :=
  match n with
  | O => ([], st)
  | S n' =>
      let '(o, st1) := getOrFetch cfg k st in
      let '(os, st2) := read_many cfg k n' st1 in
      (o :: os, st2)
  end.

(** Events that do not address key [k] explicitly. *)
Definition leaves_key (k : string) (ev : cache_event) : bool :=
  match ev with
  | Read _ | Focus | Tick => true
  | Invalidate k' | Resolve k' _ => negb (String.eqb k k')
  end.

(** The memo table the cache promises: the valid data of each key. *)
Definition view (st : Store) : gmap string jsval :=
  omap (fun q => if isInvalidated q then None else data q) (entries st).

(** One network fetch in flight per key, exactly while its entry says so. *)
Definition store_wf (st : Store) : Prop :=
  forall k, count_occ String.string_dec (outstanding st) k = if fetching (query_of st k) then 1 else 0.

(** An invariant of every entry of the store. *)
Definition entries_ok (I : Query -> Prop) (st : Store) : Prop := forall k, I (query_of st k).

(** The failure count the retryer allows: at most [retry] failures while
    a fetch is in flight, one more once it has given up. *)
Definition failure_bound (cfg : QueryDefaults) (q : Query) : Prop :=
  failureCount q <= S (retry cfg) /\ (fetching q = true -> failureCount q <= retry cfg).

(** Settling every fetch in flight, in the order they were issued, each
    with the outcome [outcome] gives its key. *)
Definition drain (outcome : string -> result jsval exn) (st : Store) : list cache_event :=
  map (fun k => Resolve k (outcome k)) (outstanding st).

(** ** Lemmas *)

Lemma query_of_insert_eq (m : gmap string Query) (c : nat) (rq out : list string)
    (k : string) (q : Query) :
  query_of (mkStore (<[k := q]> m) c rq out) k = q.
Proof. unfold query_of. simpl. by rewrite lookup_insert_eq. Qed.

Lemma query_of_insert_ne (m : gmap string Query) (c : nat) (rq out : list string)
    (k k' : string) (q : Query) :
  k <> k' -> query_of (mkStore (<[k := q]> m) c rq out) k' = query_of (mkStore m c rq out) k'.
Proof. intros H. unfold query_of. simpl. by rewrite lookup_insert_ne. Qed.

Lemma count_occ_snoc (l : list string) (k k' : string) :
  count_occ String.string_dec (l ++ [k]) k' =
  count_occ String.string_dec l k' + (if String.string_dec k k' then 1 else 0).
Proof.
  rewrite count_occ_app. simpl. destruct (String.string_dec k k'); lia.
Qed.

Lemma count_occ_remove_first (l : list string) (k k' : string) :
  count_occ String.string_dec (remove_first k l) k' =
  count_occ String.string_dec l k' -
    (if String.string_dec k k' then Nat.min 1 (count_occ String.string_dec l k') else 0).
Proof.
  induction l as [|x l IH]; simpl; [by destruct (String.string_dec k k')|].
  destruct (String.eqb_spec x k) as [->|Hxk].
  - destruct (String.string_dec k k') as [->|]; lia.
  - simpl. rewrite IH.
    destruct (String.string_dec x k'), (String.string_dec k k'); subst; try congruence;
      simpl; try lia.
Qed.

Ltac wf_key k k' :=
  destruct (String.eqb_spec k k') as [<-|?];
  [rewrite ?query_of_insert_eq | rewrite ?query_of_insert_ne by done].

Lemma wf_start_fetch (k : string) (st : Store) :
  store_wf st -> fetching (query_of st k) = false ->
  store_wf (start_fetch k (query_of st k) st).
Proof.
  intros Hwf Hf k'. unfold start_fetch. simpl. rewrite count_occ_snoc, Hwf.
  wf_key k k'.
  - rewrite Hf. simpl. by destruct (String.string_dec k k).
  - destruct (String.string_dec k k'); [congruence|]. rewrite Nat.add_0_r. reflexivity.
Qed.

Lemma not_stale_data (cfg : QueryDefaults) (n : nat) (q : Query) :
  isStale cfg n q = false -> exists v, data q = Some v.
Proof. unfold isStale. destruct (data q); [eauto|]. by rewrite orb_true_r. Qed.

(** The three answers of a read. *)
Lemma getOrFetch_cases (cfg : QueryDefaults) (k : string) (st : Store) :
  (isStale cfg (clock st) (query_of st k) = true /\ fetching (query_of st k) = true /\
     getOrFetch cfg k st = (Joined, st)) \/
  (isStale cfg (clock st) (query_of st k) = true /\ fetching (query_of st k) = false /\
     getOrFetch cfg k st = (Started, start_fetch k (query_of st k) st)) \/
  (exists v, isStale cfg (clock st) (query_of st k) = false /\
     data (query_of st k) = Some v /\ getOrFetch cfg k st = (Served v, st)).
Proof.
  unfold getOrFetch. destruct (isStale _ _ _) eqn:Hs.
  - destruct (fetching (query_of st k)); [left|right; left]; done.
  - right; right. destruct (not_stale_data _ _ _ Hs) as [v Hv]. rewrite Hv. by exists v.
Qed.

Lemma wf_getOrFetch (cfg : QueryDefaults) (k : string) (st : Store) :
  store_wf st -> store_wf (snd (getOrFetch cfg k st)).
Proof.
  intros Hwf.
  destruct (getOrFetch_cases cfg k st) as [(_ & _ & ->)|[(_ & Hf & ->)|(v & _ & _ & ->)]];
    simpl; [done| by apply wf_start_fetch | done].
Qed.

(** Replacing an entry without touching its in-flight flag. *)
Lemma wf_replace (st : Store) (k : string) (q' : Query) (c : nat) (rq : list string) :
  store_wf st -> fetching q' = fetching (query_of st k) ->
  store_wf (mkStore (<[k := q']> (entries st)) c rq (outstanding st)).
Proof.
  intros Hwf Hf k'. simpl. rewrite Hwf. wf_key k k'; [by rewrite Hf | reflexivity].
Qed.

(** Ending the fetch of [k]. *)
Lemma wf_finish (st : Store) (k : string) (q' : Query) (c : nat) (rq : list string) :
  store_wf st -> fetching (query_of st k) = true -> fetching q' = false ->
  store_wf (mkStore (<[k := q']> (entries st)) c rq (remove_first k (outstanding st))).
Proof.
  intros Hwf Hf Hf' k'. simpl. rewrite count_occ_remove_first, Hwf.
  wf_key k k'.
  - rewrite Hf, Hf'. by destruct (String.string_dec k k).
  - destruct (String.string_dec k k'); [congruence|]. rewrite Nat.sub_0_r. reflexivity.
Qed.

Lemma wf_resolve (cfg : QueryDefaults) (k : string) (r : result jsval exn) (st : Store) :
  store_wf st -> store_wf (resolve cfg k r st).
Proof.
  intros Hwf. unfold resolve. destruct (fetching (query_of st k)) eqn:Hf; [|done].
  destruct r as [v|e]; [by apply wf_finish|].
  destruct (Nat.ltb _ _); [apply wf_replace; by rewrite ?Hf | by apply wf_finish].
Qed.

Lemma wf_invalidate (k : string) (st : Store) : store_wf st -> store_wf (invalidate k st).
Proof.
  intros Hwf. unfold invalidate. destruct (entries st !! k) as [q|] eqn:Hq; [|done].
  apply wf_replace; [done|]. unfold query_of. by rewrite Hq.
Qed.

Lemma wf_refetch_where (p : nat -> Query -> bool) (st : Store) :
  store_wf st -> store_wf (refetch_where p st).
Proof.
  unfold refetch_where. generalize (map fst (map_to_list (entries st))) as ks.
  intros ks. revert st. induction ks as [|k ks IH]; intros st Hwf; [done|]. simpl.
  apply IH. unfold refetch_key. destruct (fetching (query_of st k)) eqn:Hf; [done|].
  destruct (p _ _); [by apply wf_start_fetch | done].
Qed.

Lemma wf_tick (cfg : QueryDefaults) (st : Store) : store_wf st -> store_wf (tick cfg st).
Proof.
  intros Hwf. assert (Hwf' : store_wf (mkStore (entries st) (S (clock st)) (requests st)
                                              (outstanding st))) by exact Hwf.
  unfold tick. destruct (refetchInterval cfg) as [n|]; [|done].
  destruct (Nat.eqb n 0); [done|]. destruct (Nat.eqb _ 0); [by apply wf_refetch_where | done].
Qed.

Lemma wf_cache_step (cfg : QueryDefaults) (ev : cache_event) (st : Store) :
  store_wf st -> store_wf (cache_step cfg ev st).
Proof.
  destruct ev; simpl.
  - apply wf_getOrFetch.
  - apply wf_resolve.
  - apply wf_invalidate.
  - unfold window_focus. destruct (refetchOnWindowFocus cfg); [apply wf_refetch_where | done].
  - apply wf_tick.
Qed.

Lemma cache_run_app (cfg : QueryDefaults) (evs1 evs2 : list cache_event) (st : Store) :
  cache_run cfg (evs1 ++ evs2) st = cache_run cfg evs2 (cache_run cfg evs1 st).
Proof. unfold cache_run. apply fold_left_app. Qed.

Lemma cache_reachable_run (cfg : QueryDefaults) (evs : list cache_event) (st : Store) :
  cache_reachable cfg st -> cache_reachable cfg (cache_run cfg evs st).
Proof. revert st. induction evs; simpl; auto using creach_step. Qed.

Lemma isStale_set_fetching (cfg : QueryDefaults) (n : nat) (q : Query) :
  isStale cfg n (set_fetching q) = isStale cfg n q.
Proof. reflexivity. Qed.

(** Under [queryClient] staleness does not depend on the clock. *)
Lemma isStale_queryClient (n m : nat) (q : Query) :
  isStale (queries queryClient) n q = isStale (queries queryClient) m q.
Proof. reflexivity. Qed.

(** The only events of [queryClient] that touch the entry of a fresh key
    are the ones that name it. *)
Lemma step_keeps_fresh (k : string) (ev : cache_event) (st : Store) :
  isStale (queries queryClient) (clock st) (query_of st k) = false -> leaves_key k ev = true ->
  query_of (cache_step (queries queryClient) ev st) k = query_of st k.
Proof.
  intros Hfresh Hk. destruct ev as [k'|k' r|k'| |]; cbn [cache_step leaves_key] in *; try reflexivity.
  - destruct (getOrFetch_cases (queries queryClient) k' st)
      as [(_ & _ & ->)|[(Hs & _ & ->)|(v & _ & _ & ->)]]; simpl; try reflexivity.
    destruct (String.eqb_spec k' k) as [->|Hne]; [congruence|].
    unfold start_fetch, query_of. simpl. by rewrite lookup_insert_ne.
  - destruct (String.eqb_spec k k') as [|Hne]; [discriminate|].
    unfold resolve. destruct (fetching (query_of st k')); [|reflexivity].
    unfold query_of. destruct r; [|destruct (Nat.ltb _ _)]; simpl; by rewrite lookup_insert_ne.
  - destruct (String.eqb_spec k k') as [|Hne]; [discriminate|].
    unfold invalidate. destruct (entries st !! k'); [|reflexivity].
    unfold query_of. simpl. by rewrite lookup_insert_ne.
Qed.

Lemma view_lookup (st : Store) (k : string) (v : jsval) :
  view st !! k = Some v <->
  isInvalidated (query_of st k) = false /\ data (query_of st k) = Some v.
Proof.
  unfold view, query_of. rewrite lookup_omap.
  destruct (entries st !! k) as [q|]; simpl.
  - destruct (isInvalidated q); split.
    + discriminate.
    + by intros [? _].
    + by intros ?.
    + by intros [_ ?].
  - split; [discriminate | by intros [_ ?]].
Qed.

Lemma query_of_start_fetch (k : string) (q : Query) (st : Store) :
  query_of (start_fetch k q st) k = set_fetching q.
Proof. apply query_of_insert_eq. Qed.

Lemma getOrFetch_started (cfg : QueryDefaults) (k : string) (st : Store) :
  isStale cfg (clock st) (query_of st k) = true -> fetching (query_of st k) = false ->
  getOrFetch cfg k st = (Started, start_fetch k (query_of st k) st).
Proof. intros Hs Hf. unfold getOrFetch. by rewrite Hs, Hf. Qed.

Lemma getOrFetch_joined (cfg : QueryDefaults) (k : string) (st : Store) :
  isStale cfg (clock st) (query_of st k) = true -> fetching (query_of st k) = true ->
  getOrFetch cfg k st = (Joined, st).
Proof. intros Hs Hf. unfold getOrFetch. by rewrite Hs, Hf. Qed.


Lemma stale_no_data (cfg : QueryDefaults) (n : nat) (q : Query) :
  data q = None -> isStale cfg n q = true.
Proof. unfold isStale. intros ->. by rewrite orb_true_r. Qed.

Lemma fresh_not_stale (n : nat) (q : Query) (v : jsval) :
  data q = Some v -> isInvalidated q = false -> isStale (queries queryClient) n q = false.
Proof. intros Hd Hi. unfold isStale. by rewrite Hd, Hi. Qed.

(** Invariants of the entries that every [fetch] action establishes are
    kept by reads, background refetches and the clock. *)
Section EntryInvariant.
Variable I : Query -> Prop.
Hypothesis I_fetch : forall q, I (set_fetching q).

Lemma entries_ok_insert (st : Store) (k : string) (q : Query) (c : nat) (rq out : list string) :
  entries_ok I st -> I q -> entries_ok I (mkStore (<[k := q]> (entries st)) c rq out).
Proof. intros Hst Hq k'. wf_key k k'; [done | apply Hst]. Qed.

Lemma entries_ok_start_fetch (k : string) (q : Query) (st : Store) :
  entries_ok I st -> entries_ok I (start_fetch k q st).
Proof. intros Hst. by apply entries_ok_insert. Qed.

Lemma entries_ok_getOrFetch (cfg : QueryDefaults) (k : string) (st : Store) :
  entries_ok I st -> entries_ok I (snd (getOrFetch cfg k st)).
Proof.
  intros Hst.
  destruct (getOrFetch_cases cfg k st) as [(_ & _ & ->)|[(_ & _ & ->)|(v & _ & _ & ->)]];
    simpl; [done | by apply entries_ok_start_fetch | done].
Qed.

Lemma entries_ok_refetch_where (p : nat -> Query -> bool) (st : Store) :
  entries_ok I st -> entries_ok I (refetch_where p st).
Proof.
  unfold refetch_where. generalize (map fst (map_to_list (entries st))) as ks.
  intros ks. revert st. induction ks as [|k ks IH]; intros st Hst; [done|]. simpl.
  apply IH. unfold refetch_key. destruct (_ && _); [by apply entries_ok_start_fetch | done].
Qed.

Lemma entries_ok_tick (cfg : QueryDefaults) (st : Store) :
  entries_ok I st -> entries_ok I (tick cfg st).
Proof.
  intros Hst. assert (Hst' : entries_ok I (mkStore (entries st) (S (clock st)) (requests st)
                                                  (outstanding st))) by exact Hst.
  unfold tick. destruct (refetchInterval cfg) as [n|]; [|done].
  destruct (Nat.eqb n 0); [done|]. destruct (Nat.eqb _ 0); [by apply entries_ok_refetch_where | done].
Qed.

Lemma entries_ok_window_focus (cfg : QueryDefaults) (st : Store) :
  entries_ok I st -> entries_ok I (window_focus cfg st).
Proof.
  unfold window_focus. destruct (refetchOnWindowFocus cfg); [apply entries_ok_refetch_where | done].
Qed.
End EntryInvariant.

Lemma failure_bound_resolve (cfg : QueryDefaults) (k : string) (r : result jsval exn) (st : Store) :
  entries_ok (failure_bound cfg) st -> entries_ok (failure_bound cfg) (resolve cfg k r st).
Proof.
  intros Hst. unfold resolve. destruct (fetching (query_of st k)) eqn:Hf; [|done].
  destruct (Hst k) as [_ Hle]. specialize (Hle Hf).
  destruct r as [v|e]; [|destruct (Nat.ltb_spec (failureCount (query_of st k)) (retry cfg))];
    apply entries_ok_insert; try done; unfold failure_bound; simpl; lia.
Qed.

Lemma failure_bound_invalidate (cfg : QueryDefaults) (k : string) (st : Store) :
  entries_ok (failure_bound cfg) st -> entries_ok (failure_bound cfg) (invalidate k st).
Proof.
  intros Hst. unfold invalidate. destruct (entries st !! k) as [q|] eqn:Hq; [|done].
  apply entries_ok_insert; [done|]. pose proof (Hst k) as Hk. unfold query_of in Hk.
  rewrite Hq in Hk. exact Hk.
Qed.

Lemma failure_bound_step (cfg : QueryDefaults) (ev : cache_event) (st : Store) :
  entries_ok (failure_bound cfg) st -> entries_ok (failure_bound cfg) (cache_step cfg ev st).
Proof.
  assert (Hf : forall q, failure_bound cfg (set_fetching q)) by (intros q; split; simpl; lia).
  destruct ev; simpl.
  - by apply entries_ok_getOrFetch.
  - apply failure_bound_resolve.
  - apply failure_bound_invalidate.
  - by apply entries_ok_window_focus.
  - by apply entries_ok_tick.
Qed.

(** Each settlement of a fetch in flight, with [retry = 0], ends it. *)
Lemma drain_head (cfg : QueryDefaults) (k : string) (rest : list string) (r : result jsval exn)
    (st : Store) :
  retry cfg = 0 -> store_wf st -> outstanding st = k :: rest ->
  outstanding (resolve cfg k r st) = rest /\ requests (resolve cfg k r st) = requests st.
Proof.
  intros Hr Hwf Ho.
  assert (Hf : fetching (query_of st k) = true).
  { pose proof (Hwf k) as Hk. rewrite Ho in Hk. simpl in Hk.
    destruct (String.string_dec k k); [|done]. by destruct (fetching (query_of st k)). }
  unfold resolve. rewrite Hf, Hr, Ho. simpl. rewrite String.eqb_refl.
  destruct r; [done|]. destruct (Nat.ltb_spec (failureCount (query_of st k)) 0); [lia | done].
Qed.

Lemma drain_run (cfg : QueryDefaults) (outcome : string -> result jsval exn) :
  retry cfg = 0 -> forall st, store_wf st ->
  outstanding (cache_run cfg (drain outcome st) st) = [] /\
  requests (cache_run cfg (drain outcome st) st) = requests st.
Proof.
  intros Hr st. unfold drain. remember (outstanding st) as l eqn:Hl. revert st Hl.
  induction l as [|k rest IH]; intros st Hl Hwf; [done|]. simpl.
  destruct (drain_head cfg k rest (outcome k) st Hr Hwf (eq_sym Hl)) as [Ho Hq].
  rewrite <- Hq. apply IH; [done | by apply wf_resolve].
Qed.

(** ** Properties *)

(** The invariant holds in every reachable store, for any configuration. *)
Lemma store_wf_reachable (cfg : QueryDefaults) (st : Store) :
  cache_reachable cfg st -> store_wf st.
Proof.
  induction 1 as [|st ev _ IH]; [|by apply wf_cache_step].
  intros k. reflexivity.
Qed.

(** C10: the cache of [queryClient] never has two network fetches in
    flight for one key, and has one exactly while the entry of the key is
    fetching, whatever the order of reads, settlements, invalidations,
    focus events and clock ticks ([store_wf_reachable]: under every
    configuration). *)
Theorem cache_reachable_wf (st : Store) :
  cache_reachable (queries queryClient) st -> store_wf st.
Proof. apply store_wf_reachable. Qed.

Lemma cache_reachable_wf_witness :
  cache_reachable (queries queryClient)
    (cache_run (queries queryClient) [Read "/api/me"; Read "/api/me"] empty_store) /\
  store_wf (cache_run (queries queryClient) [Read "/api/me"; Read "/api/me"] empty_store).
Proof.
  assert (H : cache_reachable (queries queryClient)
    (cache_run (queries queryClient) [Read "/api/me"; Read "/api/me"] empty_store))
    by (apply cache_reachable_run, creach_empty).
  split; [exact H | exact (cache_reachable_wf _ H)].
Defined.

(** Deduplication, for any configuration. *)
Lemma read_many_dedup (cfg : QueryDefaults) (k : string) (n : nat) (st : Store) :
  isStale cfg (clock st) (query_of st k) = true -> fetching (query_of st k) = false ->
  read_many cfg k (S n) st = (Started :: repeat Joined n, start_fetch k (query_of st k) st).
Proof.
  intros Hs Hf. cbn [read_many]. rewrite getOrFetch_started by done.
  assert (Hj : forall m, read_many cfg k m (start_fetch k (query_of st k) st) =
                         (repeat Joined m, start_fetch k (query_of st k) st)).
  { induction m as [|m IH]; [reflexivity|]. cbn [read_many].
    rewrite getOrFetch_joined by (rewrite query_of_start_fetch; done). by rewrite IH. }
  by rewrite Hj.
Qed.

(** C9: spec property 5, deduplication: in the cache of [queryClient],
    any number of reads of a key whose entry is stale and idle, issued
    before the fetch settles, cause exactly one network fetch; the first
    read starts it and the others join it ([read_many_dedup]: under every
    configuration). *)
Theorem getOrFetch_dedup (k : string) (n : nat) (st : Store) :
  isStale (queries queryClient) (clock st) (query_of st k) = true ->
  fetching (query_of st k) = false ->
  read_many (queries queryClient) k (S n) st =
    (Started :: repeat Joined n, start_fetch k (query_of st k) st).
Proof. apply read_many_dedup. Qed.

Lemma getOrFetch_dedup_witness :
  isStale (queries queryClient) (clock empty_store) (query_of empty_store "/api/me") = true /\
  fetching (query_of empty_store "/api/me") = false /\
  requests (snd (read_many (queries queryClient) "/api/me" 3 empty_store)) = ["/api/me"].
Proof.
  split; [reflexivity|]. split; [reflexivity|].
  rewrite (getOrFetch_dedup "/api/me" 2 empty_store eq_refl eq_refl).
  reflexivity.
Defined.

(** C15: a failed read is not retried and leaves no data: under
    [queryClient], a read of a key without data followed by the failure
    of its fetch issues exactly one network request, records the error,
    and the next read starts a new fetch. *)
Theorem failed_read_refetches (k : string) (e : exn) (st : Store) :
  data (query_of st k) = None -> fetching (query_of st k) = false ->
  let st1 := cache_run (queries queryClient) [Read k; Resolve k (Err e)] st in
  requests st1 = (requests st ++ [k])%list /\ data (query_of st1 k) = None /\
  query_error (query_of st1 k) = Some e /\ fetching (query_of st1 k) = false /\
  getOrFetch (queries queryClient) k st1 = (Started, start_fetch k (query_of st1 k) st1).
Proof.
  intros Hd Hf st1. set (q := query_of st k).
  set (q1 := mkQuery None (Some e) false (isInvalidated q) (dataUpdatedAt q) 1).
  assert (Hst1 : st1 = mkStore (<[k := q1]> (<[k := set_fetching q]> (entries st))) (clock st)
                         (requests st ++ [k]) (remove_first k (outstanding st ++ [k]))).
  { unfold st1, cache_run. simpl.
    rewrite getOrFetch_started by first [done | by apply stale_no_data].
    simpl. unfold resolve. rewrite query_of_start_fetch. simpl.
    unfold q1. rewrite <- Hd. reflexivity. }
  assert (Hq1 : query_of st1 k = q1) by (rewrite Hst1; apply query_of_insert_eq).
  rewrite Hq1. repeat split; try (rewrite Hst1; reflexivity).
  rewrite getOrFetch_started; [by rewrite Hq1 | rewrite Hq1; by apply stale_no_data | by rewrite Hq1].
Qed.

Lemma failed_read_refetches_witness :
  data (query_of empty_store "/api/me") = None /\ fetching (query_of empty_store "/api/me") = false /\
  requests (cache_run (queries queryClient)
              [Read "/api/me"; Resolve "/api/me" (Err (JsError "500: db down")); Read "/api/me"]
              empty_store) = ["/api/me"; "/api/me"].
Proof.
  split; [reflexivity|]. split; [reflexivity|].
  destruct (failed_read_refetches "/api/me" (JsError "500: db down") empty_store eq_refl eq_refl)
    as (_ & _ & _ & _ & H).
  change (requests (snd (getOrFetch (queries queryClient) "/api/me"
            (cache_run (queries queryClient)
               [Read "/api/me"; Resolve "/api/me" (Err (JsError "500: db down"))] empty_store)))
          = ["/api/me"; "/api/me"]).
  rewrite H. reflexivity.
Defined.

(** C26: invalidation is the refresh command: after [invalidate k] the
    next read of a cached, idle key starts a network fetch, whatever the
    configuration. *)
Theorem invalidate_refetches (k : string) (q : Query) (st : Store) :
  entries st !! k = Some q -> fetching q = false ->
  fst (getOrFetch (queries queryClient) k
         (cache_step (queries queryClient) (Invalidate k) st)) = Started.
Proof.
  intros Hq Hf. simpl. unfold invalidate. rewrite Hq.
  rewrite getOrFetch_started; [done| |]; unfold query_of; simpl; rewrite lookup_insert_eq;
    [reflexivity | done].
Qed.

Lemma invalidate_refetches_witness :
  let st := cache_run (queries queryClient) [Read "/api/me"; Resolve "/api/me" (Ok JNull)] empty_store in
  entries st !! "/api/me" = Some (mkQuery (Some JNull) None false false 0 0) /\
  fetching (mkQuery (Some JNull) None false false 0 0) = false /\
  fst (getOrFetch (queries queryClient) "/api/me"
         (cache_step (queries queryClient) (Invalidate "/api/me") st)) = Started.
Proof.
  intros st. split; [reflexivity|]. split; [reflexivity|].
  exact (invalidate_refetches "/api/me" _ st eq_refl eq_refl).
Defined.

(** The read path: a read is answered from the cache exactly when [view]
    holds a value for the key. *)
Lemma getOrFetch_view (k : string) (v : jsval) (st : Store) :
  getOrFetch (queries queryClient) k st = (Served v, st) <-> view st !! k = Some v.
Proof.
  rewrite view_lookup. split.
  - destruct (getOrFetch_cases (queries queryClient) k st)
      as [(_ & _ & ->)|[(_ & _ & ->)|(v' & Hs & Hd & ->)]]; try discriminate.
    intros [= <-]. split; [|done]. unfold isStale in Hs.
    by destruct (isInvalidated (query_of st k)).
  - intros [Hi Hd]. unfold getOrFetch. by rewrite (fresh_not_stale _ _ v Hd Hi), Hd.
Qed.

(** Invalidation deletes the key from [view]. *)
Lemma view_invalidate (k : string) (st : Store) :
  view (cache_step (queries queryClient) (Invalidate k) st) = delete k (view st).
Proof.
  apply map_eq. intros j. simpl. unfold invalidate.
  destruct (entries st !! k) as [q|] eqn:Hq.
  - unfold view. simpl. rewrite lookup_omap, lookup_insert, lookup_delete, lookup_omap.
    by destruct (decide (k = j)).
  - rewrite delete_id; [done|]. unfold view. by rewrite lookup_omap, Hq.
Qed.

(** A successful settlement inserts the value into [view]. *)
Lemma view_resolve_ok (k : string) (v : jsval) (st : Store) :
  fetching (query_of st k) = true ->
  view (cache_step (queries queryClient) (Resolve k (Ok v)) st) = <[k := v]> (view st).
Proof.
  intros Hf. simpl. unfold resolve. rewrite Hf. apply map_eq. intros j. unfold view. simpl.
  rewrite lookup_omap, !lookup_insert, lookup_omap. by destruct (decide (k = j)).
Qed.

(** C17: bounds on the retryer: in every reachable store of the cache
    configured by [cfg], no entry has failed more than [retry + 1] times
    since its last fetch started, and an entry still fetching has failed
    at most [retry] times; under [queryClient] ([retry: false]) a fetch
    in flight has never failed and a settled one failed at most once. *)
Theorem reachable_failure_bound (cfg : QueryDefaults) (st : Store) (k : string) :
  cache_reachable cfg st ->
  failureCount (query_of st k) <= S (retry cfg) /\
  (fetching (query_of st k) = true -> failureCount (query_of st k) <= retry cfg).
Proof.
  intros Hr. revert k. change (entries_ok (failure_bound cfg) st).
  induction Hr as [|st ev _ IH]; [|by apply failure_bound_step].
  intros k. unfold query_of. simpl. rewrite lookup_empty. split; simpl; lia.
Qed.

Lemma reachable_failure_bound_witness :
  let st := cache_run (queries queryClient)
              [Read "/api/me"; Resolve "/api/me" (Err (JsError "500: db down"));
               Read "/api/me"; Resolve "/api/me" (Err (JsError "500: db down"))] empty_store in
  cache_reachable (queries queryClient) st /\ failureCount (query_of st "/api/me") = 1 /\
  failureCount (query_of st "/api/me") <= S (retry (queries queryClient)).
Proof.
  intros st. assert (Hr : cache_reachable (queries queryClient) st)
    by (apply cache_reachable_run, creach_empty).
  split; [exact Hr|]. split; [reflexivity|].
  exact (proj1 (reachable_failure_bound _ st "/api/me" Hr)).
Defined.

(** C18: liveness of the fetches in flight: from any reachable store of
    [queryClient], one settlement per fetch in flight, in the order they
    were issued and with any outcomes, leaves no fetch in flight and no
    entry fetching, and issues no new request ([retry: false]). *)
Theorem drain_settles (outcome : string -> result jsval exn) (st : Store) :
  cache_reachable (queries queryClient) st ->
  let st' := cache_run (queries queryClient) (drain outcome st) st in
  outstanding st' = [] /\ requests st' = requests st /\ forall k, fetching (query_of st' k) = false.
Proof.
  intros Hr st'.
  destruct (drain_run (queries queryClient) outcome eq_refl st (store_wf_reachable _ _ Hr)) as [Ho Hq].
  split; [exact Ho|]. split; [exact Hq|]. intros k.
  pose proof (store_wf_reachable _ _ (cache_reachable_run _ (drain outcome st) st Hr) k) as Hk.
  rewrite Ho in Hk. revert Hk. unfold st'. destruct (fetching _); [discriminate | done].
Qed.

Lemma drain_settles_witness :
  let st := cache_run (queries queryClient) [Read "/api/me"; Read "/api/waitlist"] empty_store in
  cache_reachable (queries queryClient) st /\ outstanding st = ["/api/me"; "/api/waitlist"] /\
  outstanding (cache_run (queries queryClient) (drain (fun _ => Ok JNull) st) st) = [].
Proof.
  intros st. assert (Hr : cache_reachable (queries queryClient) st)
    by (apply cache_reachable_run, creach_empty).
  split; [exact Hr|]. split; [reflexivity|].
  exact (proj1 (drain_settles (fun _ => Ok JNull) st Hr)).
Defined.

(** C23: refinement of the memo table of spec 4.3: under [queryClient]
    the cache acts on its abstraction [view] (the valid data of each key)
    as a memo table: a read is answered from the cache, without changing
    it, exactly when [view] holds a value for the key, and the answer is
    that value; [invalidate k] deletes [k] from [view]; a successful
    settlement of the fetch of [k] with [v] inserts [v] at [k]; both
    leave the other keys of [view] as they were. *)
Theorem cache_refines_view (k : string) (st : Store) :
  (forall v, getOrFetch (queries queryClient) k st = (Served v, st) <-> view st !! k = Some v) /\
  view (cache_step (queries queryClient) (Invalidate k) st) = delete k (view st) /\
  (forall v, fetching (query_of st k) = true ->
     view (cache_step (queries queryClient) (Resolve k (Ok v)) st) = <[k := v]> (view st)).
Proof.
  split; [intros v; apply getOrFetch_view|].
  split; [apply view_invalidate | intros v; apply view_resolve_ok].
Qed.

Lemma cache_refines_view_witness :
  let st := snd (getOrFetch (queries queryClient) "/api/me" empty_store) in
  fetching (query_of st "/api/me") = true /\
  view (cache_step (queries queryClient) (Resolve "/api/me" (Ok JNull)) st)
    = <[ "/api/me" := JNull ]> (view st).
Proof.
  intros st. split; [reflexivity|].
  apply (proj2 (proj2 (cache_refines_view "/api/me" st))). reflexivity.
Defined.

End Cache.
