(* ===== verification/QueryGc.v ===== *)
(** * Garbage collection of the query cache of [queryClient]

    [queryClient] (src/client/src/lib/queryClient.ts, lines 92-105) sets
    [staleTime: Infinity] but no [gcTime], so TanStack's default applies:
    a query with no observer is removed from the cache [gcTime] after its
    gc timeout was scheduled, if no fetch is in flight then.  The library
    schedules the timeout ([scheduleGc], which also clears the previous
    one) when it creates a query and when a fetch of the query settles
    for good; when the timeout fires during a fetch nothing is removed.
    No source calls [useQuery], so no query ever has an observer.

    [GcStore] adds to the store of [QueryCache.v] the time each pending
    gc timeout was scheduled; [gc_step] runs the events of [QueryCache.v]
    and fires the timeouts as the clock advances.  With [gcTime: Infinity]
    it is the cache of [QueryCache.v] ([gc_run_infinite]); with the
    default, a key's valid data is served while its timeout is pending
    ([gc_serves_fresh]), every idle entry is collected within [gcTime]
    ticks and the
    next read goes to the network ([gc_collects_idle]), whereas spec
    section 3 says an entry is invalidated only by explicit command,
    never by a timer. *)

From S2P Require Import Prelude Js Http QueryCache.

Local Set Warnings "-abstract-large-number".

Module CacheGc.
Import JsValue Executor Cache.

(** TanStack's default [gcTime], five minutes in milliseconds (the unit of
    the clock of [QueryCache.v], as for [staleTime] and [refetchInterval]). *)
Definition gcTime_default : nat := 300000.

Record GcStore : Type := mkGcStore {
  cstore : Store;
  timers : gmap string nat   (** when the pending gc timeout of a key was scheduled *)
}.

Definition gc_initial : GcStore := mkGcStore empty_store ∅.

(** [QueryCache.build] creates the query of a new key and schedules its
    timeout; a read then proceeds as in [QueryCache.v]. *)
Definition gc_read (cfg : QueryDefaults) (k : string) (gs : GcStore) : GcStore :=
  let st := cstore gs in
  mkGcStore (snd (getOrFetch cfg k st))
            (match entries st !! k with
             | None => <[k := clock st]> (timers gs)
             | Some _ => timers gs
             end).

(** A fetch that settles for good schedules the timeout again. *)
Definition gc_resolve (cfg : QueryDefaults) (k : string) (r : result jsval exn) (gs : GcStore) : GcStore :=
  let st := cstore gs in
  let st' := resolve cfg k r st in
  mkGcStore st' (if fetching (query_of st k) && negb (fetching (query_of st' k))
                 then <[k := clock st]> (timers gs) else timers gs).

(** The timeouts that fire at time [now] ([optionalRemove]): each removes
    its query unless a fetch of it is in flight. *)
Definition fires (g now : nat) (gs : GcStore) (k : string) : bool :=
  match timers gs !! k with
  | Some t => Nat.eqb (t + g) now
  | None => false
  end.

Definition collect (g : nat) (gs : GcStore) : GcStore :=
  let st := cstore gs in
  mkGcStore (mkStore (filter (fun kq => fires g (clock st) gs kq.1 && negb (fetching kq.2) = false)
                             (entries st))
                     (clock st) (requests st) (outstanding st))
            (filter (fun kt => Nat.eqb (kt.2 + g) (clock st) = false) (timers gs)).

(** [gcTime]: [None] is [Infinity], which schedules no timeout. *)
Definition gc_step (cfg : QueryDefaults) (gcTime : option nat) (ev : cache_event) (gs : GcStore)
    : GcStore :=
  match ev with
  | Read k => gc_read cfg k gs
  | Resolve k r => gc_resolve cfg k r gs
  | Tick =>
      let gs' := mkGcStore (tick cfg (cstore gs)) (timers gs) in
      match gcTime with Some g => collect g gs' | None => gs' end
  | _ => mkGcStore (cache_step cfg ev (cstore gs)) (timers gs)
  end.

Definition gc_run (cfg : QueryDefaults) (gcTime : option nat) (evs : list cache_event) (gs : GcStore)
    : GcStore :=
  fold_left (fun gs ev => gc_step cfg gcTime ev gs) evs gs.

Inductive gc_reachable (cfg : QueryDefaults) (gcTime : option nat) : GcStore -> Prop :=
  | greach_initial : gc_reachable cfg gcTime gc_initial
  | greach_step gs ev : gc_reachable cfg gcTime gs -> gc_reachable cfg gcTime (gc_step cfg gcTime ev gs).

(** Every pending timeout fires within [g] ticks, and every idle entry
    has one pending. *)
Definition gc_ok (g : nat) (gs : GcStore) : Prop :=
  (forall k t, timers gs !! k = Some t -> t <= clock (cstore gs) < t + g) /\
  (forall k q, entries (cstore gs) !! k = Some q -> fetching q = false -> is_Some (timers gs !! k)).

(** ** Lemmas on the store of [QueryCache.v] *)

Lemma lookup_start_fetch_ne (k k' : string) (q : Query) (st : Store) :
  k <> k' -> entries (start_fetch k q st) !! k' = entries st !! k'.
Proof. intros H. unfold start_fetch. simpl. by rewrite lookup_insert_ne. Qed.

(** A background refetch only sets entries fetching. *)
Lemma refetch_where_idle (p : nat -> Query -> bool) (st : Store) (k : string) (q : Query) :
  entries (refetch_where p st) !! k = Some q -> fetching q = false -> entries st !! k = Some q.
Proof.
  unfold refetch_where. generalize (map fst (map_to_list (entries st))) as ks.
  intros ks. revert st. induction ks as [|k0 ks IH]; intros st Hk Hf; [done|]. simpl in Hk.
  apply IH in Hk; [|done]. unfold refetch_key in Hk. destruct (_ && _); [|done].
  destruct (String.eqb_spec k0 k) as [->|Hne].
  - unfold start_fetch in Hk. simpl in Hk. rewrite lookup_insert_eq in Hk.
    injection Hk as <-. discriminate.
  - by rewrite lookup_start_fetch_ne in Hk.
Qed.

Lemma refetch_where_clock (p : nat -> Query -> bool) (st : Store) :
  clock (refetch_where p st) = clock st.
Proof.
  unfold refetch_where. generalize (map fst (map_to_list (entries st))) as ks.
  intros ks. revert st. induction ks as [|k0 ks IH]; intros st; [done|]. simpl.
  rewrite IH. unfold refetch_key. by destruct (_ && _).
Qed.

Lemma tick_clock (cfg : QueryDefaults) (st : Store) : clock (tick cfg st) = S (clock st).
Proof.
  unfold tick. destruct (refetchInterval cfg) as [n|]; [|done].
  destruct (Nat.eqb n 0); [done|]. destruct (Nat.eqb _ 0); [|done]. by rewrite refetch_where_clock.
Qed.

Lemma tick_idle (cfg : QueryDefaults) (st : Store) (k : string) (q : Query) :
  entries (tick cfg st) !! k = Some q -> fetching q = false -> entries st !! k = Some q.
Proof.
  unfold tick. destruct (refetchInterval cfg) as [n|]; [|done].
  destruct (Nat.eqb n 0); [done|]. destruct (Nat.eqb _ 0); [|done].
  intros Hk Hf. exact (refetch_where_idle _ _ _ _ Hk Hf).
Qed.

(** Only the final settlement of its fetch leaves an entry idle that was
    not idle before. *)
Lemma step_idle (cfg : QueryDefaults) (ev : cache_event) (st : Store) (k : string) (q' : Query) :
  ev <> Tick ->
  entries (cache_step cfg ev st) !! k = Some q' -> fetching q' = false ->
  (exists q, entries st !! k = Some q /\ fetching q = false) \/
  (exists r, ev = Resolve k r /\ fetching (query_of st k) = true).
Proof.
  intros Htick Hk Hf. destruct ev as [k0|k0 r|k0| |]; simpl in Hk; [| | | |done].
  - left. exists q'. split; [|done].
    destruct (getOrFetch_cases cfg k0 st) as [(_ & _ & E)|[(_ & _ & E)|(v & _ & _ & E)]];
      rewrite E in Hk; cbn [snd] in Hk; try done.
    destruct (String.eqb_spec k0 k) as [->|Hne]; [|by rewrite lookup_start_fetch_ne in Hk].
    unfold start_fetch in Hk. simpl in Hk. rewrite lookup_insert_eq in Hk. by injection Hk as <-.
  - unfold resolve in Hk. destruct (fetching (query_of st k0)) eqn:Hf0; [|left; by exists q'].
    destruct (String.eqb_spec k0 k) as [->|Hne]; [right; by exists r|left; exists q'; split; [|done]].
    destruct r; [|destruct (Nat.ltb _ _)]; simpl in Hk; by rewrite lookup_insert_ne in Hk.
  - unfold invalidate in Hk. destruct (entries st !! k0) as [q0|] eqn:E0; [|left; by exists q'].
    simpl in Hk. destruct (String.eqb_spec k0 k) as [->|Hne].
    + rewrite lookup_insert_eq in Hk. injection Hk as <-. left. by exists q0.
    + rewrite lookup_insert_ne in Hk by done. left. by exists q'.
  - unfold window_focus in Hk. destruct (refetchOnWindowFocus cfg); [|left; by exists q'].
    left. exists q'. split; [exact (refetch_where_idle _ _ _ _ Hk Hf) | done].
Qed.

Lemma clock_step (cfg : QueryDefaults) (ev : cache_event) (st : Store) :
  ev <> Tick -> clock (cache_step cfg ev st) = clock st.
Proof.
  intros Htick. destruct ev as [k0|k0 r|k0| |]; simpl; [| | | |done].
  - destruct (getOrFetch_cases cfg k0 st) as [(_ & _ & E)|[(_ & _ & E)|(v & _ & _ & E)]];
      by rewrite E.
  - unfold resolve. destruct (fetching _); [|done]. destruct r; [|destruct (Nat.ltb _ _)]; done.
  - unfold invalidate. by destruct (entries st !! k0).
  - unfold window_focus. destruct (refetchOnWindowFocus cfg); [apply refetch_where_clock|done].
Qed.

(** ** The gc store against the store of [QueryCache.v] *)

Lemma gc_step_cstore (cfg : QueryDefaults) (gcTime : option nat) (ev : cache_event) (gs : GcStore) :
  ev <> Tick -> cstore (gc_step cfg gcTime ev gs) = cache_step cfg ev (cstore gs).
Proof. intros Htick. by destruct ev. Qed.

Lemma gc_step_infinite (cfg : QueryDefaults) (ev : cache_event) (gs : GcStore) :
  cstore (gc_step cfg None ev gs) = cache_step cfg ev (cstore gs).
Proof. by destruct ev. Qed.

(** Outside the clock, the timeouts are kept, and only the current time is
    scheduled. *)
Lemma timers_step (cfg : QueryDefaults) (gcTime : option nat) (ev : cache_event) (gs : GcStore) :
  ev <> Tick ->
  (forall k t, timers gs !! k = Some t -> is_Some (timers (gc_step cfg gcTime ev gs) !! k)) /\
  (forall k t, timers (gc_step cfg gcTime ev gs) !! k = Some t ->
     timers gs !! k = Some t \/ t = clock (cstore gs)).
Proof.
  intros Htick.
  assert (Hins : forall k0 (m : gmap string nat),
    (m = timers gs \/ m = <[k0 := clock (cstore gs)]> (timers gs)) ->
    (forall k t, timers gs !! k = Some t -> is_Some (m !! k)) /\
    (forall k t, m !! k = Some t -> timers gs !! k = Some t \/ t = clock (cstore gs))).
  { intros k0 m [->| ->]; split; intros k t Hk; eauto.
    - destruct (String.eqb_spec k0 k) as [->|Hne]; [rewrite lookup_insert_eq | rewrite lookup_insert_ne]; eauto.
    - destruct (String.eqb_spec k0 k) as [->|Hne].
      + rewrite lookup_insert_eq in Hk. injection Hk as <-. by right.
      + rewrite lookup_insert_ne in Hk by done. by left. }
  destruct ev as [k0|k0 r|k0| |]; simpl; [apply (Hins k0)..|apply (Hins EmptyString)|done].
  - destruct (entries (cstore gs) !! k0); [left|right]; done.
  - destruct (_ && _); [right|left]; done.
  - by left.
  - by left.
Qed.

Section Invariant.
Context (cfg : QueryDefaults) (g : nat).
Hypothesis g_pos : 0 < g.

Lemma gc_ok_step_notick (ev : cache_event) (gs : GcStore) :
  ev <> Tick -> gc_ok g gs -> gc_ok g (gc_step cfg (Some g) ev gs).
Proof.
  intros Htick [Ht Hi]. destruct (timers_step cfg (Some g) ev gs Htick) as [Hkeep Hnew].
  unfold gc_ok. rewrite (gc_step_cstore cfg (Some g) ev gs Htick). split.
  - intros k t Hk. rewrite clock_step by done.
    destruct (Hnew k t Hk) as [Hold| ->]; [by apply (Ht k) | lia].
  - intros k q' Hk Hf. destruct (step_idle cfg ev (cstore gs) k q' Htick Hk Hf) as [(q & Hq & Hqf)|(r & -> & Hfetch)].
    + destruct (Hi k q Hq Hqf) as [t Htk]. by apply (Hkeep k t).
    + simpl. unfold gc_resolve. simpl in Hk. rewrite Hfetch.
      replace (query_of (resolve cfg k r (cstore gs)) k) with q' by (unfold query_of; by rewrite Hk).
      rewrite Hf. simpl. apply lookup_insert_is_Some. by left.
Qed.

Lemma gc_ok_tick (gs : GcStore) : gc_ok g gs -> gc_ok g (gc_step cfg (Some g) Tick gs).
Proof.
  intros [Ht Hi]. unfold gc_ok. simpl. rewrite tick_clock. split.
  - intros k t Hk. apply map_lookup_filter_Some in Hk as [Hk Hne]. simpl in Hne.
    apply Nat.eqb_neq in Hne. specialize (Ht k t Hk). lia.
  - intros k q Hk Hf. apply map_lookup_filter_Some in Hk as [Hk Hkeep]. simpl in Hkeep.
    destruct (Hi k q (tick_idle cfg _ k q Hk Hf) Hf) as [t Htk].
    unfold fires in Hkeep. simpl in Hkeep. rewrite Htk, Hf, andb_true_r in Hkeep.
    exists t. apply map_lookup_filter_Some. split; [done|]. simpl. by rewrite ?tick_clock in Hkeep.
Qed.

Lemma gc_ok_step (ev : cache_event) (gs : GcStore) :
  gc_ok g gs -> gc_ok g (gc_step cfg (Some g) ev gs).
Proof.
  destruct ev; [apply gc_ok_step_notick; discriminate..|apply gc_ok_tick].
Qed.

Lemma gc_ok_reachable (gs : GcStore) : gc_reachable cfg (Some g) gs -> gc_ok g gs.
Proof.
  induction 1 as [|gs ev _ IH]; [|by apply gc_ok_step].
  split; intros k; [intros t Hk | intros q Hk]; simpl in Hk; by rewrite lookup_empty in Hk.
Qed.

End Invariant.

Definition is_tick (ev : cache_event) : bool := match ev with Tick => true | _ => false end.

(** One event that does not name [k] leaves a fresh entry of [k] and its
    pending timeout alone while the timeout is not due, and advances the
    clock only if it is a tick. *)
Lemma gc_step_keeps_fresh (g : nat) (k : string) (v : jsval) (t : nat) (ev : cache_event) (gs : GcStore) :
  data (query_of (cstore gs) k) = Some v -> isInvalidated (query_of (cstore gs) k) = false ->
  timers gs !! k = Some t -> clock (cstore gs) + (if is_tick ev then 1 else 0) < t + g ->
  leaves_key k ev = true ->
  let gs' := gc_step (queries queryClient) (Some g) ev gs in
  query_of (cstore gs') k = query_of (cstore gs) k /\ timers gs' !! k = Some t /\
  clock (cstore gs') = clock (cstore gs) + (if is_tick ev then 1 else 0).
Proof.
  intros Hd Hi Ht Hc Hk gs'.
  assert (Hfresh : isStale (queries queryClient) (clock (cstore gs)) (query_of (cstore gs) k) = false)
    by (apply (fresh_not_stale _ _ v Hd Hi)).
  assert (Hin : is_Some (entries (cstore gs) !! k)).
  { unfold query_of in Hd. destruct (entries (cstore gs) !! k); [by eexists | discriminate]. }
  assert (Hcase : ev = Tick \/ ev <> Tick) by (destruct ev; [right; discriminate..|by left]).
  destruct Hcase as [->|Htick].
  - unfold gs'. simpl in Hc |- *. rewrite Nat.add_1_r in Hc. split; [|split; [|lia]].
    + unfold query_of. simpl.
      destruct (entries (cstore gs) !! k) as [q|] eqn:E; [|by destruct Hin as [? Hs]; congruence].
      erewrite (proj2 (map_lookup_filter_Some _ _ k q)); [reflexivity|]. split; [exact E|].
      unfold fires. simpl. rewrite Ht. by destruct (Nat.eqb_spec (t + g) (S (clock (cstore gs)))); [lia|].
    + apply map_lookup_filter_Some. split; [done|]. simpl. apply Nat.eqb_neq. lia.
  - assert (Hc0 : (if is_tick ev then 1 else 0) = 0) by (by destruct ev).
    rewrite Hc0. unfold gs'. rewrite gc_step_cstore by done. split; [|split].
    + by apply step_keeps_fresh.
    + destruct ev as [k0|k0 r|k0| |]; simpl; try done.
      * destruct (entries (cstore gs) !! k0) eqn:E0; [done|].
        destruct (String.eqb_spec k0 k) as [->|Hne]; [by destruct Hin as [? Hs]; rewrite Hs in E0|].
        by rewrite lookup_insert_ne.
      * simpl in Hk. destruct (String.eqb_spec k k0) as [|Hne]; [discriminate|].
        destruct (_ && _); [by rewrite lookup_insert_ne|done].
    + by rewrite clock_step, Nat.add_0_r.
Qed.

Lemma gc_run_keeps_fresh (g : nat) (k : string) (v : jsval) (t : nat) (evs : list cache_event) (gs : GcStore) :
  data (query_of (cstore gs) k) = Some v -> isInvalidated (query_of (cstore gs) k) = false ->
  timers gs !! k = Some t -> clock (cstore gs) + length (filter is_tick evs) < t + g ->
  forallb (leaves_key k) evs = true ->
  query_of (cstore (gc_run (queries queryClient) (Some g) evs gs)) k = query_of (cstore gs) k.
Proof.
  revert gs. induction evs as [|ev evs IH]; intros gs Hd Hi Ht Hc Hk; [done|].
  simpl in Hk. apply andb_true_iff in Hk as [Hk1 Hk2].
  assert (Hc1 : clock (cstore gs) + (if is_tick ev then 1 else 0) < t + g)
    by (rewrite filter_cons in Hc; destruct (is_tick ev); simpl in Hc; lia).
  destruct (gc_step_keeps_fresh g k v t ev gs Hd Hi Ht Hc1 Hk1) as (Hq & Ht' & Hclock).
  cbn [gc_run fold_left]. fold (gc_run (queries queryClient) (Some g) evs
                                 (gc_step (queries queryClient) (Some g) ev gs)).
  rewrite IH; [done|by rewrite Hq|by rewrite Hq|done| |done].
  rewrite Hclock. rewrite filter_cons in Hc. destruct (is_tick ev); simpl in Hc; lia.
Qed.

Lemma gc_run_infinite (cfg : QueryDefaults) (evs : list cache_event) (gs : GcStore) :
  cstore (gc_run cfg None evs gs) = cache_run cfg evs (cstore gs).
Proof.
  revert gs. induction evs as [|ev evs IH]; intros gs; [done|]. simpl.
  rewrite IH, gc_step_infinite. reflexivity.
Qed.

Lemma gc_reachable_run (cfg : QueryDefaults) (gcTime : option nat) (evs : list cache_event) (gs : GcStore) :
  gc_reachable cfg gcTime gs -> gc_reachable cfg gcTime (gc_run cfg gcTime evs gs).
Proof. revert gs. induction evs; simpl; auto using greach_step. Qed.

(** Under [queryClient] ([refetchInterval: false]) the clock alone starts
    no fetch: an entry that is idle or absent stays so until its timeout
    fires, which removes it. *)
Lemma ticks_collect (g : nat) (k : string) (n : nat) (gs : GcStore) :
  0 < g -> gc_ok g gs ->
  (entries (cstore gs) !! k = None \/
   exists q t, entries (cstore gs) !! k = Some q /\ fetching q = false /\
               timers gs !! k = Some t /\ t + g <= clock (cstore gs) + n) ->
  entries (cstore (gc_run (queries queryClient) (Some g) (repeat Tick n) gs)) !! k = None.
Proof.
  intros Hg. revert gs. induction n as [|n IH]; intros gs Hok Hk.
  - destruct Hk as [Hk|(q & t & _ & _ & Ht & Hle)]; [done|].
    destruct ((proj1 Hok) k t Ht). lia.
  - simpl. apply IH; [by apply gc_ok_tick|]. simpl. rewrite ?tick_clock.
    destruct Hk as [Hk|(q & t & Hq & Hf & Ht & Hle)].
    + left. apply map_lookup_filter_None. by left.
    + destruct (Nat.eqb_spec (t + g) (S (clock (cstore gs)))) as [Heq|Hne].
      * left. apply map_lookup_filter_None. right. intros q' Hq'.
        rewrite Hq in Hq'. injection Hq' as <-. unfold fires. simpl.
        rewrite Ht, Hf, ?tick_clock. apply Nat.eqb_eq in Heq. by rewrite Heq.
      * right. exists q, t. split; [|split; [done|split; [|lia]]].
        -- apply map_lookup_filter_Some. split; [exact Hq|]. unfold fires. simpl.
           rewrite Ht, ?tick_clock. apply Nat.eqb_neq in Hne. by rewrite Hne.
        -- apply map_lookup_filter_Some. split; [exact Ht|]. simpl. by apply Nat.eqb_neq.
Qed.

(** ** Properties *)

(** C12: with [staleTime: Infinity], [refetchInterval] and
    [refetchOnWindowFocus] off, the cache of [queryClient] serves a key's
    valid data for as long as its gc timeout is pending: after any events
    that do not name the key (reads of it, reads and settlements of other
    keys, window focus, ticks) and before the timeout fires, a read of the
    key is answered from the cache with that data and changes nothing.
    With [gc_collects_idle] this is the whole lifetime of a cached value:
    from the settlement of its fetch until [gcTime] later. *)
Theorem gc_serves_fresh (k : string) (v : jsval) (t : nat) (evs : list cache_event) (gs : GcStore) :
  data (query_of (cstore gs) k) = Some v -> isInvalidated (query_of (cstore gs) k) = false ->
  timers gs !! k = Some t -> clock (cstore gs) + length (filter is_tick evs) < t + gcTime_default ->
  forallb (leaves_key k) evs = true ->
  let st' := cstore (gc_run (queries queryClient) (Some gcTime_default) evs gs) in
  getOrFetch (queries queryClient) k st' = (Served v, st').
Proof.
  intros Hd Hi Ht Hc Hk st'.
  pose proof (gc_run_keeps_fresh _ k v t evs gs Hd Hi Ht Hc Hk) as Hq. fold st' in Hq.
  unfold getOrFetch. rewrite Hq, (fresh_not_stale _ _ v Hd Hi), Hd. reflexivity.
Qed.

Lemma gc_serves_fresh_witness :
  let k := hashKey [JStr "/api/me"] in
  let gs := gc_run (queries queryClient) (Some gcTime_default) [Read k; Resolve k (Ok JNull)] gc_initial in
  let evs := [Tick; Focus; Read (hashKey [JStr "/api/other"]); Read k; Tick] in
  timers gs !! k = Some 0 /\
  fst (getOrFetch (queries queryClient) k
         (cstore (gc_run (queries queryClient) (Some gcTime_default) evs gs))) = Served JNull.
Proof.
  intros k gs evs.
  assert (Ht : timers gs !! k = Some 0) by (vm_compute; reflexivity).
  split; [exact Ht|].
  rewrite (gc_serves_fresh k JNull 0 evs gs); [reflexivity|vm_compute; reflexivity|vm_compute; reflexivity
          |exact Ht|apply Nat.ltb_lt; vm_compute; reflexivity|vm_compute; reflexivity].
Defined.

(** C29: the cache of [queryClient] forgets by a timer: [queryClient]
    sets [staleTime: Infinity] but not [gcTime], so TanStack's default of
    five minutes applies, and no query has an observer.  From every
    reachable state of the cache, a key with no fetch in flight, however
    fresh its data, has no entry left once [gcTime] has passed, and the
    next read of it goes to the network; spec section 3 says an entry is
    invalidated only by explicit command, never by a timer.  (With
    [gcTime: Infinity] the cache is the one of [QueryCache.v],
    [gc_run_infinite].) *)
Theorem gc_collects_idle (k : string) (gs : GcStore) :
  gc_reachable (queries queryClient) (Some gcTime_default) gs ->
  (forall q, entries (cstore gs) !! k = Some q -> fetching q = false) ->
  let gs' := gc_run (queries queryClient) (Some gcTime_default) (repeat Tick gcTime_default) gs in
  entries (cstore gs') !! k = None /\
  fst (getOrFetch (queries queryClient) k (cstore gs')) = Started.
Proof.
  intros Hr Hidle gs'.
  assert (Hg : 0 < gcTime_default) by (apply Nat.ltb_lt; reflexivity).
  pose proof (gc_ok_reachable _ _ Hg gs Hr) as Hok.
  assert (Hnone : entries (cstore gs') !! k = None).
  { apply ticks_collect; [done|done|].
    destruct (entries (cstore gs) !! k) as [q|] eqn:Hq; [right|by left].
    destruct ((proj2 Hok) k q Hq (Hidle q eq_refl)) as [t Ht].
    destruct ((proj1 Hok) k t Ht). exists q, t. split; [done|]. split; [exact (Hidle q eq_refl)|]. split; [done|lia]. }
  split; [exact Hnone|].
  assert (Hnew : query_of (cstore gs') k = new_query) by (unfold query_of; by rewrite Hnone).
  rewrite getOrFetch_started; [done| |]; rewrite Hnew; [by apply stale_no_data | done].
Qed.

Lemma gc_collects_idle_witness :
  let k := hashKey [JStr "/api/me"] in
  let gs := gc_run (queries queryClient) (Some gcTime_default) [Read k; Resolve k (Ok JNull)] gc_initial in
  gc_reachable (queries queryClient) (Some gcTime_default) gs /\
  (forall q, entries (cstore gs) !! k = Some q -> fetching q = false) /\
  fst (getOrFetch (queries queryClient) k
         (cstore (gc_run (queries queryClient) (Some gcTime_default) (repeat Tick gcTime_default) gs)))
    = Started.
Proof.
  intros k gs.
  assert (Hr : gc_reachable (queries queryClient) (Some gcTime_default) gs)
    by (apply gc_reachable_run, greach_initial).
  assert (Hi : forall q, entries (cstore gs) !! k = Some q -> fetching q = false)
    by (intros q Hq; vm_compute in Hq; injection Hq as <-; reflexivity).
  split; [exact Hr|]. split; [exact Hi|]. exact (proj2 (gc_collects_idle k gs Hr Hi)).
Defined.

End CacheGc.
