(* ===== verification/Waitlist.v ===== *)
(** * SubmissionWorkflow: the [WaitlistCard] component of
    src/client/src/components/WaitlistCard.tsx

    The component's state is the [isSuccess] flag of [useState], the state
    of its [useMutation] observer, the field error of [useForm], the
    toasts it raised and the calls of [mutationFn] whose promise has not
    settled.  Two events drive it: the user submits the form with the
    current input, and the pending [mutationFn] promise settles.  The
    rendering decides which submissions reach the handlers: the form is
    only rendered while [!isSuccess] (line 53) and its input and button
    are [disabled] while [mutation.isPending] (lines 62 and 73).

    [abs_step] is the state machine of spec sections 3 and 4.4; the
    component refines it through [abstract]. *)

From S2P Require Import Prelude Js Schema.
From Stdlib Require Import Relations.

Module Workflow.
Import JsValue EmailSchema.

(** The [status] of a TanStack mutation. *)
Inductive MutationStatus : Type :=
  | idle
  | pending
  | success
  | error.

#[export] Instance MutationStatus_eq_dec : EqDecision MutationStatus.
Proof. solve_decision. Defined.

Record Toast : Type := mkToast {
  title : string;
  description : string;
  variant : string
}.

Record State : Type := mkState {
  isSuccess : bool;                 (** [useState(false)], line 15 *)
  status : MutationStatus;          (** [mutation.status] *)
  mutation_error : option exn;      (** [mutation.error] *)
  email_error : option string;      (** [errors.email?.message] *)
  toasts : list Toast;              (** the toasts shown, oldest first *)
  inflight : list string            (** emails passed to [mutationFn], unsettled *)
}.

Definition initial : State := mkState false idle None None [] [].

Definition isPending (s : State) : bool :=
  match status s with pending => true | _ => false end.

Definition fallback_message : string := "Failed to join waitlist. Please try again.".

(** The toast of [onError], lines 36-42. *)
Definition error_toast (e : exn) : Toast :=
  mkToast "Error" (str_or (exn_message e) fallback_message) "destructive".

(** [mutation.mutate(data)]: the observer goes [pending] and [mutationFn]
    ([addToWaitlist(data.email)], lines 30-32) is called. *)
Definition mutate (email : string) (s : State) : State :=
  mkState (isSuccess s) pending None (email_error s) (toasts s) (inflight s ++ [email]).

(** [onSubmit], lines 45-47. *)
Definition onSubmit (email : string) (s : State) : State := mutate email s.

(** [handleSubmit(onSubmit)]: [zodResolver(emailSchema)] validates the
    form value; a failure sets the field error and stops there. *)
Definition handleSubmit (email : string) (s : State) : State :=
  match emailSchema_parse email with
  | Err m => mkState (isSuccess s) (status s) (mutation_error s) (Some m) (toasts s) (inflight s)
  | Ok v => onSubmit v (mkState (isSuccess s) (status s) (mutation_error s) None (toasts s) (inflight s))
  end.

(** A submission as the rendered page lets it through: no form once
    [isSuccess] holds, a disabled form while the mutation is pending. *)
Definition submit (email : string) (s : State) : State :=
  if isSuccess s then s
  else if isPending s then s
  else handleSubmit email s.

(** [onSuccess], lines 33-35, and [onError], lines 36-42, run when the
    oldest unsettled [mutationFn] promise settles; [retry: false] makes
    the first rejection final. *)
Definition settle (outcome : result unit exn) (s : State) : State :=
  match inflight s with
  | [] => s
  | _ :: rest =>
      match outcome with
      | Ok _ => mkState true success None (email_error s) (toasts s) rest
      | Err e => mkState (isSuccess s) error (Some e) (email_error s)
                         (toasts s ++ [error_toast e]) rest
      end
  end.

Inductive event : Type :=
  | Submit (email : string)
  | Settle (outcome : result unit exn).

Definition step (ev : event) (s : State) : State :=
  match ev with
  | Submit email => submit email s
  | Settle outcome => settle outcome s
  end.

(** A run of the component on a sequence of events. *)
Definition run (evs : list event) (s : State) : State := fold_left (fun s ev => step ev s) evs s.

(** The states the component can be in. *)
Inductive reachable : State -> Prop :=
  | reach_initial : reachable initial
  | reach_step s ev : reachable s -> reachable (step ev s).

(** The invariant: at most one [mutationFn] call in flight, exactly while
    the observer is pending, and a shown success is a successful mutation. *)
Definition wf (s : State) : Prop :=
  length (inflight s) <= 1 /\
  (isPending s = true <-> inflight s <> []) /\
  (isSuccess s = true -> status s = success).

(** ** Abstract specification: spec section 4.4 *)

Inductive AbsState : Type :=
  | AIdle
  | APending
  | ASucceeded
  | AFailed (msg : string).

Inductive abs_step : AbsState -> AbsState -> Prop :=
  | abs_submit_idle : abs_step AIdle APending
  | abs_submit_failed m : abs_step (AFailed m) APending
  | abs_submit_succeeded : abs_step ASucceeded APending
  | abs_resolve_ok : abs_step APending ASucceeded
  | abs_resolve_fail m : m <> EmptyString -> abs_step APending (AFailed m).

(** What the presentation layer observes of a component state. *)
Definition abstract (s : State) : AbsState :=
  match status s with
  | idle => AIdle
  | pending => APending
  | success => ASucceeded
  | error => AFailed (match mutation_error s with
                      | Some e => description (error_toast e)
                      | None => fallback_message
                      end)
  end.

(** ** Lemmas *)

Lemma run_app (evs1 evs2 : list event) (s : State) :
  run (evs1 ++ evs2) s = run evs2 (run evs1 s).
Proof. unfold run. apply fold_left_app. Qed.

Lemma reachable_run (evs : list event) (s : State) :
  reachable s -> reachable (run evs s).
Proof. revert s. induction evs; simpl; auto using reach_step. Qed.

Lemma submit_pending (email : string) (s : State) : isPending s = true -> submit email s = s.
Proof. unfold submit. intros ->. by destruct (isSuccess s). Qed.

Lemma submit_success (email : string) (s : State) : isSuccess s = true -> submit email s = s.
Proof. unfold submit. by intros ->. Qed.

Lemma handleSubmit_cases (email : string) (s : State) :
  (email_ok email = true /\ handleSubmit email s =
     mkState (isSuccess s) pending None None (toasts s) (inflight s ++ [email])) \/
  (email_ok email = false /\ handleSubmit email s =
     mkState (isSuccess s) (status s) (mutation_error s) (Some invalid_email_message)
             (toasts s) (inflight s)).
Proof.
  unfold handleSubmit, emailSchema_parse. destruct (email_ok email); [left|right]; done.
Qed.

Lemma error_toast_nonempty (e : exn) : description (error_toast e) <> EmptyString.
Proof.
  unfold error_toast, str_or. simpl.
  destruct (String.eqb (exn_message e) EmptyString) eqn:E; [discriminate|].
  intros H. rewrite H in E. discriminate.
Qed.


Lemma submit_cases (email : string) (s : State) :
  submit email s = s \/
  (isSuccess s = false /\ isPending s = false /\ submit email s = handleSubmit email s).
Proof.
  unfold submit. destruct (isSuccess s); [by left|].
  destruct (isPending s); [by left|]. by right.
Qed.

Lemma wf_not_pending (s : State) : wf s -> isPending s = false -> inflight s = [].
Proof.
  intros (_ & Hp & _) Hnp. destruct (inflight s) as [|x l]; [done|].
  exfalso. assert (isPending s = true) by (apply Hp; discriminate). congruence.
Qed.

Lemma wf_pending (s : State) : wf s -> isPending s = true -> exists x, inflight s = [x].
Proof.
  intros (Hlen & Hp & _) Hpend. destruct (inflight s) as [|x [|y l]] eqn:E.
  - by apply Hp in Hpend.
  - by exists x.
  - simpl in Hlen. lia.
Qed.

Lemma wf_submit (email : string) (s : State) : wf s -> wf (submit email s).
Proof.
  intros Hwf. destruct (submit_cases email s) as [-> | (Hs & Hp & ->)]; [done|].
  pose proof (wf_not_pending s Hwf Hp) as Hin.
  destruct (handleSubmit_cases email s) as [(_ & ->) | (_ & ->)].
  - rewrite Hin. unfold wf; simpl. rewrite Hs.
    split; [lia|]. split; [split; [intros _; discriminate | done] | discriminate].
  - destruct Hwf as (Hl & Hpe & Hsu). unfold wf, isPending in *; simpl. auto.
Qed.

Lemma wf_settle (o : result unit exn) (s : State) : wf s -> wf (settle o s).
Proof.
  intros Hwf. unfold settle. destruct (inflight s) as [|x rest] eqn:E; [done|].
  destruct Hwf as (Hl & Hpe & Hsu). rewrite E in Hl. simpl in Hl.
  destruct rest; [|simpl in Hl; lia].
  destruct o as [u|e]; unfold wf, isPending; simpl.
  - intuition (try lia; try discriminate; try congruence).
  - assert (isPending s = true) as Hps by (apply Hpe; rewrite E; discriminate).
    assert (isSuccess s = false) as Hns.
    { destruct (isSuccess s); [|done]. unfold isPending in Hps. by rewrite Hsu in Hps. }
    rewrite Hns. intuition (try lia; try discriminate; try congruence).
Qed.

Lemma wf_step (ev : event) (s : State) : wf s -> wf (step ev s).
Proof. destruct ev; [apply wf_submit | apply wf_settle]. Qed.


Lemma wf_reachable (s : State) : reachable s -> wf s.
Proof.
  induction 1 as [|s ev _ IH]; [|by apply wf_step].
  unfold wf; simpl. repeat split; [lia|discriminate|congruence|discriminate].
Qed.

(** ** Properties *)

(** C1: the invariant of every reachable state: at most one call of
    [mutationFn] is in flight, one is in flight exactly while the
    mutation is pending, and the success screen is only shown after a
    successful mutation. *)
Theorem reachable_wf (s : State) : reachable s -> wf s.
Proof. apply wf_reachable. Qed.

Lemma reachable_wf_witness :
  reachable (run [Submit "user@example.com"] initial) /\
  wf (run [Submit "user@example.com"] initial).
Proof.
  assert (H : reachable (run [Submit "user@example.com"] initial))
    by (apply reachable_run, reach_initial).
  split; [exact H | exact (reachable_wf _ H)].
Defined.

(** C7: spec property 6, first half: from a state that is neither
    pending nor showing success (idle, or failed: the workflow is
    re-entrant after a failure), submitting a valid address starts
    exactly one mutation with that address and clears the field error. *)
Theorem submit_valid_starts (email : string) (s : State) :
  reachable s -> isSuccess s = false -> isPending s = false -> email_ok email = true ->
  submit email s = mkState false pending None None (toasts s) [email].
Proof.
  intros Hr Hs Hp Hok. pose proof (wf_not_pending s (wf_reachable s Hr) Hp) as Hin.
  unfold submit. rewrite Hs, Hp. unfold handleSubmit, emailSchema_parse. rewrite Hok.
  unfold onSubmit, mutate. simpl. by rewrite Hin, Hs.
Qed.

Lemma submit_valid_starts_witness :
  reachable initial /\ isSuccess initial = false /\ isPending initial = false /\
  email_ok "user@example.com" = true /\
  submit "user@example.com" initial = mkState false pending None None [] ["user@example.com"].
Proof.
  split; [exact reach_initial|]. split; [reflexivity|]. split; [reflexivity|].
  split; [reflexivity|].
  exact (submit_valid_starts "user@example.com" initial reach_initial eq_refl eq_refl eq_refl).
Defined.

(** C5: spec property 6, the guard: while the mutation is pending the
    form is disabled, so a second submission changes nothing and the
    number of calls in flight stays one. *)
Theorem submit_while_pending (email : string) (s : State) :
  isPending s = true -> submit email s = s.
Proof. apply submit_pending. Qed.

Lemma submit_while_pending_witness :
  isPending (submit "user@example.com" initial) = true /\
  submit "other@example.com" (submit "user@example.com" initial) =
    submit "user@example.com" initial.
Proof. split; [reflexivity|]. apply submit_while_pending. reflexivity. Defined.

(** C8: validation failures never reach the network: submitting an
    address the schema rejects leaves the mutation, its calls in flight,
    the toasts and the success flag unchanged, and shows the field
    message when the form is enabled. *)
Theorem submit_invalid (email : string) (s : State) :
  email_ok email = false ->
  let s' := submit email s in
  status s' = status s /\ inflight s' = inflight s /\ mutation_error s' = mutation_error s /\
  toasts s' = toasts s /\ isSuccess s' = isSuccess s /\
  (isSuccess s = false -> isPending s = false -> email_error s' = Some invalid_email_message).
Proof.
  intros Hbad. simpl. unfold submit.
  destruct (isSuccess s) eqn:Hs; [repeat split; congruence|].
  destruct (isPending s) eqn:Hp; [repeat split; congruence|].
  unfold handleSubmit, emailSchema_parse. rewrite Hbad. simpl. repeat split; done.
Qed.

Lemma submit_invalid_witness :
  email_ok "not-an-email" = false /\
  email_error (submit "not-an-email" initial) = Some invalid_email_message /\
  inflight (submit "not-an-email" initial) = [].
Proof.
  split; [reflexivity|].
  destruct (submit_invalid "not-an-email" initial eq_refl) as (_ & Hin & _ & _ & _ & He).
  split; [exact (He eq_refl eq_refl) | exact Hin].
Defined.

(** C6: spec property 6, second half: when the pending mutation
    resolves, the workflow shows success; when it rejects, it records the
    error, is no longer pending, and raises one destructive toast whose
    text is the error's message, or the fixed fallback when that message
    is empty. *)
Theorem settle_outcome (o : result unit exn) (s : State) :
  reachable s -> isPending s = true ->
  let s' := settle o s in
  inflight s' = [] /\ isPending s' = false /\
  match o with
  | Ok _ => isSuccess s' = true /\ status s' = success /\ toasts s' = toasts s
  | Err e => isSuccess s' = false /\ status s' = error /\ mutation_error s' = Some e /\
             toasts s' = (toasts s ++
               [mkToast "Error" (str_or (exn_message e) fallback_message) "destructive"])%list
  end.
Proof.
  intros Hr Hp. pose proof (wf_reachable s Hr) as Hwf.
  destruct (wf_pending s Hwf Hp) as [x Hx]. simpl. unfold settle. rewrite Hx.
  destruct o as [u|e]; simpl; [done|].
  destruct Hwf as (_ & _ & Hsu). destruct (isSuccess s) eqn:Hs; [|done].
  unfold isPending in Hp. rewrite (Hsu eq_refl) in Hp. discriminate.
Qed.

Lemma settle_outcome_witness :
  reachable (submit "user@example.com" initial) /\
  isPending (submit "user@example.com" initial) = true /\
  toasts (settle (Err (JsError "500: db down")) (submit "user@example.com" initial)) =
    [mkToast "Error" "500: db down" "destructive"].
Proof.
  assert (Hr : reachable (submit "user@example.com" initial))
    by exact (reach_step initial (Submit "user@example.com") reach_initial).
  split; [exact Hr|]. split; [reflexivity|].
  exact (proj2 (proj2 (proj2 (proj2 (proj2 (settle_outcome (Err (JsError "500: db down")) _ Hr eq_refl)))))).
Defined.

(** C2: refinement: every event the component handles, from any
    reachable state, is either invisible to the presentation layer or one
    transition of the state machine of spec section 4.4. *)
Theorem step_refines (ev : event) (s : State) :
  reachable s ->
  abstract (step ev s) = abstract s \/ abs_step (abstract s) (abstract (step ev s)).
Proof.
  intros Hr. pose proof (wf_reachable s Hr) as Hwf. destruct ev as [email|o]; simpl.
  - destruct (submit_cases email s) as [-> | (Hs & Hp & ->)]; [by left|].
    destruct (handleSubmit_cases email s) as [(_ & ->) | (_ & ->)]; [right | by left].
    unfold abstract, isPending in *; simpl.
    destruct (status s); [constructor|discriminate|constructor|constructor].
  - destruct (isPending s) eqn:Hp.
    + right. destruct (wf_pending s Hwf Hp) as [x Hx].
      unfold settle. rewrite Hx. unfold isPending in Hp.
      unfold abstract at 1. destruct (status s); try discriminate.
      destruct o as [u|e]; simpl; constructor. apply error_toast_nonempty.
    + left. unfold settle. by rewrite (wf_not_pending s Hwf Hp).
Qed.

Lemma step_refines_witness :
  reachable (submit "user@example.com" initial) /\
  abs_step (abstract (submit "user@example.com" initial))
           (abstract (step (Settle (Err (JsError "500: db down"))) (submit "user@example.com" initial))).
Proof.
  assert (Hr : reachable (submit "user@example.com" initial))
    by exact (reach_step initial (Submit "user@example.com") reach_initial).
  split; [exact Hr|].
  destruct (step_refines (Settle (Err (JsError "500: db down"))) _ Hr) as [H|H]; [|exact H].
  discriminate H.
Defined.

(** C30: the success screen is final: once [isSuccess] holds no event
    changes the component, so no new submission is possible, whereas
    spec section 4.4 lets the workflow accept a new attempt from
    Succeeded. *)
Theorem success_final (evs : list event) (s : State) :
  reachable s -> isSuccess s = true -> run evs s = s.
Proof.
  intros Hr Hs. pose proof (wf_reachable s Hr) as Hwf.
  assert (Hp : isPending s = false).
  { destruct Hwf as (_ & _ & Hsu). unfold isPending. by rewrite (Hsu Hs). }
  pose proof (wf_not_pending s Hwf Hp) as Hin.
  assert (Hstep : forall ev, step ev s = s).
  { intros [email|o]; simpl; [by apply submit_success|]. unfold settle. by rewrite Hin. }
  induction evs as [|ev evs IH]; [done|]. simpl. by rewrite Hstep.
Qed.

Lemma success_final_witness :
  reachable (run [Submit "user@example.com"; Settle (Ok tt)] initial) /\
  isSuccess (run [Submit "user@example.com"; Settle (Ok tt)] initial) = true /\
  run [Submit "again@example.com"] (run [Submit "user@example.com"; Settle (Ok tt)] initial) =
    run [Submit "user@example.com"; Settle (Ok tt)] initial.
Proof.
  assert (Hr : reachable (run [Submit "user@example.com"; Settle (Ok tt)] initial))
    by (apply reachable_run, reach_initial).
  split; [exact Hr|]. split; [reflexivity|].
  exact (success_final _ _ Hr eq_refl).
Defined.

(** C19: liveness: no reachable state is stuck short of success: from
    every reachable state, the user submitting a valid address and the
    server accepting the call in flight reach the success screen in two
    events (a pending call is settled, a finished one is followed by a new
    attempt, a shown success stays). *)
Theorem success_reachable (email : string) (s : State) :
  reachable s -> email_ok email = true -> isSuccess (run [Submit email; Settle (Ok tt)] s) = true.
Proof.
  intros Hr Hok. pose proof (wf_reachable s Hr) as Hwf. unfold run. simpl.
  destruct (submit_cases email s) as [Hs | (Hs & Hp & Hsub)].
  - rewrite Hs. destruct (isPending s) eqn:Hp.
    + destruct (wf_pending s Hwf Hp) as [x Hx]. unfold settle. by rewrite Hx.
    + destruct (isSuccess s) eqn:Hsu; [unfold settle; by rewrite (wf_not_pending s Hwf Hp)|].
      rewrite <- Hs. unfold submit. rewrite Hsu, Hp.
      destruct (handleSubmit_cases email s) as [(_ & ->) | (Hbad & _)]; [|congruence].
      unfold settle. simpl. by destruct (inflight s).
  - rewrite Hsub. destruct (handleSubmit_cases email s) as [(_ & ->) | (Hbad & _)]; [|congruence].
    unfold settle. simpl. by destruct (inflight s).
Qed.

Lemma success_reachable_witness :
  reachable (run [Submit "user@example.com"; Settle (Err (JsError "500: db down"))] initial) /\
  email_ok "user@example.com" = true /\
  isSuccess (run [Submit "user@example.com"; Settle (Ok tt)]
               (run [Submit "user@example.com"; Settle (Err (JsError "500: db down"))] initial)) = true.
Proof.
  assert (Hr : reachable (run [Submit "user@example.com"; Settle (Err (JsError "500: db down"))] initial))
    by (apply reachable_run, reach_initial).
  split; [exact Hr|]. split; [reflexivity|].
  exact (success_reachable "user@example.com" _ Hr eq_refl).
Defined.

End Workflow.
