(* ===== verification/Mutation.v ===== *)
(** * The mutation of [WaitlistCard] under TanStack's retryer

    [useMutation] in WaitlistCard.tsx (lines 29-43) passes no [retry]
    option, so its mutation takes [defaultOptions.mutations.retry] of
    [queryClient] (lines 101-103, [retry: false]).  The library runs
    [mutationFn] through a retryer: a rejection is retried, with a new call
    of [mutationFn] and so a new POST, while the mutation's failure count
    is below [retry]; only then does [onError] run.  [Waitlist.v] models
    the component with the first rejection final.  This file adds the
    failure count and the number of calls of the current mutation
    ([MState]), runs the retryer for any [MutationDefaults] ([msettle]),
    and shows that under the defaults of [queryClient] it is exactly the
    workflow of [Waitlist.v] ([mrun_queryClient]); for every
    configuration, one submission sends at most [retry + 1] POSTs
    ([mreachable_attempts]). *)

From S2P Require Import Prelude Js Endpoint Http Schema QueryCache Waitlist.

Module MutationRetry.
Import JsValue Cache Workflow.

(** The component with the state of its current mutation: the failure
    count of TanStack's [Mutation] and the calls of [mutationFn] it made. *)
Record MState : Type := mkMState {
  mstate : State;
  mfailures : nat;
  attempts : nat
}.

Definition minitial : MState := mkMState initial 0 0.

(** [onSubmit] (lines 45-47): [mutation.mutate(data)] starts a new
    mutation, with no failure and one call of [mutationFn], exactly when
    the observer goes pending. *)
Definition msubmit (email : string) (m : MState) : MState :=
  let s' := submit email (mstate m) in
  if isPending s' && negb (isPending (mstate m)) then mkMState s' 0 1
  else mkMState s' (mfailures m) (attempts m).

(** The call in flight settles.  A rejection is retried while the failure
    count is below [retry]: the count goes up and [mutationFn] is called
    again, the observer stays pending.  Otherwise the workflow settles as
    in [Waitlist.v]: [onSuccess] resets the count, [onError] counts the
    last failure. *)
Definition msettle (md : MutationDefaults) (o : result unit exn) (m : MState) : MState :=
  match inflight (mstate m), o with
  | [], _ => m
  | _ :: _, Ok _ => mkMState (settle o (mstate m)) 0 (attempts m)
  | _ :: _, Err _ =>
      if Nat.ltb (mfailures m) (mutation_retry md)
      then mkMState (mstate m) (S (mfailures m)) (S (attempts m))
      else mkMState (settle o (mstate m)) (S (mfailures m)) (attempts m)
  end.

Definition mstep (md : MutationDefaults) (ev : event) (m : MState) : MState :=
  match ev with
  | Submit email => msubmit email m
  | Settle o => msettle md o m
  end.

Definition mrun (md : MutationDefaults) (evs : list event) (m : MState) : MState :=
  fold_left (fun m ev => mstep md ev m) evs m.

Inductive mreachable (md : MutationDefaults) : MState -> Prop :=
  | mreach_initial : mreachable md minitial
  | mreach_step m ev : mreachable md m -> mreachable md (mstep md ev m).

(** The retryer's invariant: at most [retry + 1] calls per mutation, and
    while pending one call more than failures, failures within [retry]. *)
Definition attempts_ok (md : MutationDefaults) (m : MState) : Prop :=
  attempts m <= S (mutation_retry md) /\
  (isPending (mstate m) = true ->
     attempts m = S (mfailures m) /\ mfailures m <= mutation_retry md).

(** ** Lemmas *)

Lemma mreachable_run (md : MutationDefaults) (evs : list event) (m : MState) :
  mreachable md m -> mreachable md (mrun md evs m).
Proof. revert m. induction evs; simpl; auto using mreach_step. Qed.

(** Without retries the component state moves as [Workflow.step]. *)
Lemma mstep_no_retry (md : MutationDefaults) (ev : event) (m : MState) :
  mutation_retry md = 0 -> mstate (mstep md ev m) = step ev (mstate m).
Proof.
  intros Hr. destruct ev as [email|o]; simpl.
  - unfold msubmit. by destruct (_ && _).
  - unfold msettle, settle. rewrite Hr.
    destruct (inflight (mstate m)) as [|x l]; [done|]. by destruct o.
Qed.

Lemma mrun_no_retry (md : MutationDefaults) (evs : list event) (m : MState) :
  mutation_retry md = 0 -> mstate (mrun md evs m) = run evs (mstate m).
Proof.
  intros Hr. revert m. induction evs as [|ev evs IH]; intros m; [done|]. simpl.
  rewrite IH. unfold run. simpl. by rewrite mstep_no_retry.
Qed.

(** The component state of a reachable [MState] is a reachable state of
    the workflow: a retry leaves it unchanged. *)
Lemma mreachable_reachable (md : MutationDefaults) (m : MState) :
  mreachable md m -> reachable (mstate m).
Proof.
  induction 1 as [|m ev _ IH]; [exact reach_initial|]. destruct ev as [email|o]; simpl.
  - unfold msubmit. destruct (_ && _); exact (reach_step _ (Submit email) IH).
  - unfold msettle. destruct (inflight (mstate m)); [done|]. destruct o as [u|e].
    + exact (reach_step _ (Settle (Ok u)) IH).
    + destruct (Nat.ltb _ _); [done | exact (reach_step _ (Settle (Err e)) IH)].
Qed.

Lemma attempts_ok_submit (md : MutationDefaults) (email : string) (m : MState) :
  attempts_ok md m -> attempts_ok md (msubmit email m).
Proof.
  intros [Hle Hp]. unfold msubmit.
  destruct (isPending (submit email (mstate m))) eqn:Hs', (isPending (mstate m)) eqn:Hs;
    simpl; unfold attempts_ok; simpl; try (split; [lia|]); try rewrite Hs'.
  - rewrite submit_pending in * by done. auto.
  - intros _. lia.
  - rewrite submit_pending in * by done. congruence.
  - discriminate.
Qed.

Lemma attempts_ok_settle (md : MutationDefaults) (o : result unit exn) (m : MState) :
  wf (mstate m) -> attempts_ok md m -> attempts_ok md (msettle md o m).
Proof.
  intros Hwf [Hle Hp]. unfold msettle.
  destruct (inflight (mstate m)) as [|x l] eqn:Hin; [done|].
  assert (Hpend : isPending (mstate m) = true) by (apply (proj1 (proj2 Hwf)); by rewrite Hin).
  destruct (Hp Hpend) as [Ha Hf].
  assert (Hfin : forall o' f, isPending (settle o' (mstate m)) = false ->
            attempts_ok md (mkMState (settle o' (mstate m)) f (attempts m)))
    by (intros o' f Hs; split; [done | simpl; congruence]).
  destruct o as [u|e].
  - apply Hfin. unfold settle. by rewrite Hin.
  - destruct (Nat.ltb_spec (mfailures m) (mutation_retry md)).
    + split; simpl; [lia | intros _; lia].
    + apply Hfin. unfold settle. by rewrite Hin.
Qed.

Lemma attempts_ok_reachable (md : MutationDefaults) (m : MState) :
  mreachable md m -> attempts_ok md m.
Proof.
  intros Hr. induction Hr as [|m ev Hr IH].
  - split; simpl; [lia | discriminate].
  - destruct ev as [email|o]; simpl; [by apply attempts_ok_submit|].
    apply attempts_ok_settle; [|done]. by apply wf_reachable, (mreachable_reachable md).
Qed.

(** ** Properties *)

(** C24: refinement of the workflow by the configured client: under
    [queryClient]'s mutation defaults ([retry: false], lines 101-103) the
    mutation of [WaitlistCard] run by TanStack's retryer shows, after
    every sequence of events, exactly the state of the workflow of
    [Waitlist.v], whose first rejection is final. *)
Theorem mrun_queryClient (evs : list event) :
  mstate (mrun (mutations queryClient) evs minitial) = run evs initial.
Proof. by apply mrun_no_retry. Qed.

(** C25: bounds of the retryer: for every configuration of the mutation
    defaults, in every reachable state the current mutation has called
    [mutationFn] (sent its POST) at most [retry + 1] times, and while it
    is pending exactly one time more than it has failed, with at most
    [retry] failures; under [queryClient] each submission sends one POST. *)
Theorem mreachable_attempts (md : MutationDefaults) (m : MState) :
  mreachable md m ->
  attempts m <= S (mutation_retry md) /\
  (isPending (mstate m) = true -> attempts m = S (mfailures m) /\ mfailures m <= mutation_retry md).
Proof. apply attempts_ok_reachable. Qed.

Lemma mreachable_attempts_witness :
  let md := mkMutationDefaults 2 in
  let m := mrun md [Submit "user@example.com"; Settle (Err (JsTypeError "Failed to fetch"));
                    Settle (Err (JsTypeError "Failed to fetch"))] minitial in
  mreachable md m /\ attempts m = 3 /\ attempts m <= S (mutation_retry md).
Proof.
  intros md m. assert (Hr : mreachable md m)
    by (apply mreachable_run, mreach_initial).
  split; [exact Hr|]. split; [reflexivity|]. exact (proj1 (mreachable_attempts md m Hr)).
Defined.

End MutationRetry.
