(* ===== verification/View.v ===== *)
(** * Presentation: the markup [WaitlistCard] returns, lines 49-94 of
    src/client/src/components/WaitlistCard.tsx

    The component renders either the form (while [!isSuccess], line 53)
    or the success panel (lines 87-91).  The form's input and button are
    [disabled] while [mutation.isPending] (lines 62 and 73), the button
    shows three loading dots instead of its label while pending (lines
    75-83), and the field message is a paragraph under the input only
    when [errors.email] is set (lines 65-67), which also turns the input's
    border red (line 59).  [render] is that markup as data; the logo,
    the wrapper [div]s and the remaining class names are constant and are
    left out here; [Markup.v] writes the whole tree.

    The browser delivers a form submission only through an enabled submit
    button (a click, or the implicit submission of Enter in the input,
    which HTML blocks when the form's submit button is disabled).
    [dispatch_submit] is the submission the rendered markup lets through;
    [render_submit_equiv] shows that it is the guard [Workflow.submit]. *)

From S2P Require Import Prelude Js Schema Waitlist.

Module Render.
Import Workflow.

(** The content of the submit button, lines 75-83. *)
Inductive ButtonContent : Type :=
  | LoadingDots
  | Label (text : string).

(** The form, lines 54-85: what varies with the state. *)
Record FormView : Type := mkFormView {
  input_className : string;
  input_disabled : bool;
  error_paragraph : option string;
  button_disabled : bool;
  button_content : ButtonContent
}.

(** The body of the card under the logo, lines 53-92. *)
Inductive CardBody : Type :=
  | FormBody (f : FormView)
  | SuccessBody (heading message : string).

(** Line 59: the border colour of the input. *)
Definition input_border (email_error : option string) : string :=
  match email_error with
  | Some _ => "border-red-500"
  | None => "border-gray-300"
  end.

Definition input_class (email_error : option string) : string :=
  "w-full px-4 py-3 border " +:+ input_border email_error +:+
  " rounded-lg focus:ring-2 focus:ring-black focus:border-transparent outline-none transition-all".

Definition join_label : string := "Join Waitlist".

(** Lines 49-94. *)
Definition render (s : State) : CardBody :=
  if negb (isSuccess s) then
    FormBody {| input_className := input_class (email_error s);
                input_disabled := isPending s;
                error_paragraph := email_error s;
                button_disabled := isPending s;
                button_content := if isPending s then LoadingDots else Label join_label |}
  else SuccessBody "You're on the list!" "We'll notify you when we launch.".

(** A submission of the value [email] as the rendered page delivers it to
    [handleSubmit(onSubmit)] (line 54): only from the form, and only
    through its enabled submit button. *)
Definition dispatch_submit (email : string) (s : State) : State :=
  match render s with
  | FormBody f => if button_disabled f then s else handleSubmit email s
  | SuccessBody _ _ => s
  end.

(** ** Lemmas *)

Lemma render_form (s : State) :
  isSuccess s = false ->
  render s = FormBody (mkFormView (input_class (email_error s)) (isPending s) (email_error s)
                                  (isPending s) (if isPending s then LoadingDots else Label join_label)).
Proof. unfold render. by intros ->. Qed.

Lemma render_success (s : State) :
  isSuccess s = true -> render s = SuccessBody "You're on the list!" "We'll notify you when we launch.".
Proof. unfold render. by intros ->. Qed.

(** ** Properties *)

(** C14: equivalence of the submission guard with the markup: a
    submission that the rendered page delivers ([dispatch_submit]: no
    form once [isSuccess], a disabled button while pending) is exactly
    [Workflow.submit], the guard the workflow's theorems are proved
    about. *)
Theorem render_submit_equiv (email : string) (s : State) :
  dispatch_submit email s = submit email s.
Proof.
  unfold dispatch_submit, submit. destruct (isSuccess s) eqn:Hs.
  - by rewrite render_success.
  - rewrite render_form by done. simpl. by destruct (isPending s).
Qed.

(** C22: what every reachable state shows: the form exactly while no
    success is shown, its button disabled and showing the loading dots
    exactly while a call of [mutationFn] is in flight, the field message
    and red border exactly when validation failed; the success panel only
    after a successful call, with nothing in flight. *)
Theorem render_reachable (s : State) :
  reachable s ->
  match render s with
  | FormBody f =>
      isSuccess s = false /\
      (button_disabled f = true <-> inflight s <> []) /\
      (input_disabled f = true <-> inflight s <> []) /\
      (button_content f = LoadingDots <-> inflight s <> []) /\
      error_paragraph f = email_error s /\
      (input_border (email_error s) = "border-red-500" <-> email_error s <> None)
  | SuccessBody _ _ => isSuccess s = true /\ status s = success /\ inflight s = []
  end.
Proof.
  intros Hr. pose proof (wf_reachable s Hr) as Hwf.
  destruct (isSuccess s) eqn:Hs.
  - rewrite render_success by done. destruct Hwf as (_ & Hp & Hsu).
    split; [done|]. split; [by apply Hsu|].
    apply wf_not_pending; [apply (wf_reachable s Hr)|]. unfold isPending. by rewrite Hsu.
  - rewrite render_form by done. simpl. destruct Hwf as (_ & Hp & _).
    split; [done|]. rewrite <- Hp.
    split; [done|]. split; [done|].
    split; [by destruct (isPending s)|]. split; [done|].
    by destruct (email_error s).
Qed.

Lemma render_reachable_witness :
  reachable (submit "user@example.com" initial) /\
  isSuccess (submit "user@example.com" initial) = false /\
  inflight (submit "user@example.com" initial) <> [].
Proof.
  assert (Hr : reachable (submit "user@example.com" initial))
    by exact (reach_step initial (Submit "user@example.com") reach_initial).
  split; [exact Hr|]. split; [reflexivity|].
  pose proof (render_reachable _ Hr) as H.
  rewrite render_form in H by reflexivity. cbn [button_content] in H.
  destruct H as (_ & _ & _ & [Hd _] & _). apply Hd. reflexivity.
Defined.

End Render.
