(* ===== verification/Markup.v ===== *)
(** * The element tree [WaitlistCard] returns, lines 49-94 of
    src/client/src/components/WaitlistCard.tsx, and the browser reading it

    [View.v] keeps of the markup what varies with the state.  This file
    writes the whole JSX as a tree of elements ([card_tree]): every host
    element with its attributes (class names, [type], [placeholder], the
    props spread by [register('email')], [disabled]) and children, text
    nodes, and the two imported components [KledeLogo] and [CheckCircle],
    whose rendering lies outside the sources and is left opaque.

    The browser's side is written with DOM queries over the tree:
    [query] is [querySelectorAll] by tag name, [prop] reads a prop with
    React's rule that a later prop overrides an earlier one, and
    [tree_dispatch_submit] is HTML's form submission: the submit event
    reaches the form's [onSubmit] only through the form's default button
    (its first submit button), and not at all when that button is
    disabled.  [card_tree_refines] shows that the view of [View.v] is what
    the tree shows, and that HTML's submission rule on the tree is the
    [dispatch_submit] of [View.v]. *)

From S2P Require Import Prelude Js Schema Waitlist View.

Local Set Warnings "-register-all".

Module Markup.
Import Workflow Render.

(** The handlers the JSX binds: [handleSubmit(onSubmit)] (line 54) and
    the props [register('email')] spreads on the input (line 61). *)
Inductive handler : Type :=
  | OnSubmitHandler
  | RegisterOnChange
  | RegisterOnBlur
  | RegisterRef.

Inductive prop_value : Type :=
  | PText (s : string)
  | PBool (b : bool)
  | PHandler (h : handler).

(** A React node: a host element, a text node, or an element of an
    imported component (rendered by code outside the sources). *)
Inductive vnode : Type :=
  | Elem (tag : string) (props : list (string * prop_value)) (children : list vnode)
  | Text (s : string)
  | Comp (name : string) (props : list (string * prop_value)).

(** [{...register('email')}]: the name and the handlers of the field. *)
Definition register_email : list (string * prop_value) :=
  [("name", PText "email"); ("onChange", PHandler RegisterOnChange);
   ("onBlur", PHandler RegisterOnBlur); ("ref", PHandler RegisterRef)].

Definition button_class : string :=
  "w-full bg-black text-white py-3 px-4 rounded-lg font-medium hover:bg-gray-800 transition-colors focus:outline-none focus:ring-2 focus:ring-gray-400 focus:ring-offset-2 disabled:opacity-70".

(** Line 77, three times. *)
Definition loading_dot : vnode :=
  Elem "span" [("className", PText "loading-dot w-1.5 h-1.5 bg-white rounded-full")] [].

(** Lines 49-94. *)
Definition card_tree (s : State) : vnode :=
  Elem "div" [("className", PText "w-full max-w-md")]
    [Comp "KledeLogo" [];
     if negb (isSuccess s) then
       Elem "form" [("onSubmit", PHandler OnSubmitHandler); ("className", PText "space-y-6 mt-8")]
         [Elem "div" []
            (Elem "div" [("className", PText "relative")]
               [Elem "input" ([("type", PText "email"); ("className", PText (input_class (email_error s)));
                               ("placeholder", PText "Enter your email")] ++ register_email ++
                              [("disabled", PBool (isPending s))])%list []] ::
             match email_error s with
             | Some message => [Elem "p" [("className", PText "text-red-500 text-sm mt-1")] [Text message]]
             | None => []
             end);
          Elem "button" [("type", PText "submit"); ("className", PText button_class);
                         ("disabled", PBool (isPending s))]
            [if isPending s then
               Elem "span" [("className", PText "flex justify-center space-x-1")]
                 [loading_dot; loading_dot; loading_dot]
             else Text join_label]]
     else
       Elem "div" [("className", PText "text-center py-4 animate-fade-in mt-8")]
         [Comp "CheckCircle" [("className", PText "mx-auto h-12 w-12 text-green-500")];
          Elem "h2" [("className", PText "mt-3 text-xl font-medium text-gray-900")]
            [Text "You're on the list!"];
          Elem "p" [("className", PText "mt-2 text-gray-600")]
            [Text "We'll notify you when we launch."]]].

(** ** The browser's reading of the tree *)

Definition props_of (n : vnode) : list (string * prop_value) :=
  match n with
  | Elem _ ps _ | Comp _ ps => ps
  | Text _ => []
  end.

(** The value a prop ends with: a later prop overrides an earlier one. *)
Definition prop (k : string) (n : vnode) : option prop_value :=
  fold_left (fun acc kv => if String.eqb k kv.1 then Some kv.2 else acc) (props_of n) None.

Definition is_tag (t : string) (n : vnode) : bool :=
  match n with
  | Elem t' _ _ => String.eqb t t'
  | _ => false
  end.

(** The node and its descendants in document order. *)
Fixpoint descendants (n : vnode) : list vnode :=
  n :: match n with
       | Elem _ _ cs =>
           (fix go (cs : list vnode) : list vnode :=
              match cs with
              | [] => []
              | c :: cs' => (descendants c ++ go cs')%list
              end) cs
       | _ => []
       end.

(** [n.querySelectorAll(t)] (the node itself included: a [form] is
    queried from outside). *)
Definition query (t : string) (n : vnode) : list vnode := filter (fun m => is_tag t m = true) (descendants n).

(** [textContent] of a subtree of host elements. *)
Fixpoint text_content (n : vnode) : string :=
  match n with
  | Text s => s
  | Elem _ _ cs =>
      (fix go (cs : list vnode) : string :=
         match cs with
         | [] => EmptyString
         | c :: cs' => text_content c +:+ go cs'
         end) cs
  | Comp _ _ => EmptyString
  end.

Definition class_of (n : vnode) : string :=
  match prop "className" n with Some (PText c) => c | _ => EmptyString end.

(** A boolean attribute is present when its prop is [true]. *)
Definition is_disabled (n : vnode) : bool :=
  match prop "disabled" n with Some (PBool b) => b | _ => false end.

Definition is_submit_button (n : vnode) : bool :=
  match prop "type" n with Some (PText t) => String.eqb t "submit" | _ => false end.

Definition is_loading_dot (n : vnode) : bool := String.prefix "loading-dot" (class_of n).

(** What a reader of the page sees: the form's field, its message and its
    button, or the success panel's heading and paragraph. *)
Definition view_of_tree (root : vnode) : option CardBody :=
  match head (query "form" root) with
  | Some form =>
      match head (query "input" form), head (query "button" form) with
      | Some input, Some button =>
          Some (FormBody {| input_className := class_of input;
                            input_disabled := is_disabled input;
                            error_paragraph := option_map text_content (head (query "p" form));
                            button_disabled := is_disabled button;
                            button_content :=
                              if existsb is_loading_dot (descendants button) then LoadingDots
                              else Label (text_content button) |})
      | _, _ => None
      end
  | None =>
      match head (query "h2" root), head (query "p" root) with
      | Some h, Some p => Some (SuccessBody (text_content h) (text_content p))
      | _, _ => None
      end
  end.

(** HTML form submission: a click on the default button or implicit
    submission from the field; both go through the default button, the
    first submit button of the form, and do nothing when it is disabled
    (a form without a submit button submits implicitly from its single
    field). *)
Definition submission_allowed (form : vnode) : bool :=
  match head (filter (fun b => is_submit_button b = true) (query "button" form)) with
  | Some b => negb (is_disabled b)
  | None => true
  end.

(** A submission of the value [email] as the browser delivers it to the
    form's [onSubmit] handler. *)
Definition tree_dispatch_submit (email : string) (s : State) : State :=
  match head (query "form" (card_tree s)) with
  | Some form =>
      if submission_allowed form then
        match prop "onSubmit" form with
        | Some (PHandler OnSubmitHandler) => handleSubmit email s
        | _ => s
        end
      else s
  | None => s
  end.

(** ** Properties *)

(** C34: refinement of the view by the markup: what a reader of the
    rendered tree sees (the field's class and [disabled] state, the
    message paragraph, the button's [disabled] state and its loading dots
    or label, or the success panel's heading and paragraph) is the view
    [render] of [View.v] in every state; and HTML's submission rule on
    the tree (the default submit button, blocked while disabled; no form
    once [isSuccess]) delivers exactly the submissions of
    [dispatch_submit]. *)
Theorem card_tree_refines (s : State) :
  view_of_tree (card_tree s) = Some (render s) /\
  (forall email, tree_dispatch_submit email s = dispatch_submit email s).
Proof.
  unfold view_of_tree, tree_dispatch_submit, dispatch_submit, render, card_tree.
  destruct (isSuccess s), (isPending s), (email_error s); simpl;
    rewrite ?append_empty_r; split; done.
Qed.

End Markup.
