(* ===== verification/EndToEnd.v ===== *)
(** * The data flow of spec section 2, end to end

    The presentation layer hands a validated email to the workflow
    ([Workflow.submit]); the mutation calls [addToWaitlist], which posts
    through [apiRequest] (resolved by [getApiUrl]); the outcome settles the
    workflow ([Workflow.settle]).  Reads go through the query cache, whose
    fetches run [getQueryFn]; [defaultQueryFn] is the query function of
    [queryClient] with [res.json()] as [Json.json_parse].  This file
    composes the components over a [Network] and proves the scenarios of
    spec section 7 for every network answer, not only for the sample
    inputs, and what the cache holds after a 2xx answer with a JSON or a
    blank body. *)

From S2P Require Import Prelude Js Json Endpoint Http Schema QueryCache Waitlist.
Local Open Scope klede_scope.

Module EndToEnd.
Import JsValue Json Resolver Executor EmailSchema Cache Workflow.

#[export] Hint Resolve throwIfResNotOk_ok throwIfResNotOk_not_ok error_message_nonempty : klede.
#[export] Hint Resolve submit_pending submit_success error_toast_nonempty wf_step : klede.
#[export] Hint Resolve wf_cache_step creach_step reach_step : klede.

(** [addToWaitlist(email)] of @/lib/supabase is not among the sources;
    following spec sections 2 and 7 it posts the address through
    [apiRequest] and resolves to nothing on success. *)
Definition waitlist_path : string := "/api/waitlist".

Definition addToWaitlist `{Network} (env : Env) (email : string) : result unit exn :=
  let* _ := apiRequest env "POST" waitlist_path (JObj [("email", JStr email)]) in Ok tt.

(** The request the mutation issues for [email]. *)
Definition waitlist_request (env : Env) (email : string) : string * RequestInit :=
  apiRequest_init env "POST" waitlist_path (JObj [("email", JStr email)]).

(** One submission and the settlement of the call it made. *)
Definition submit_and_settle `{Network} (env : Env) (email : string) (s : State) : State :=
  run [Submit email; Settle (addToWaitlist env email)] s.

(** A read through the cache whose fetch, if any, is answered at once by
    [getQueryFn] with the policy of the call site. *)
Definition read_through `{Network} (json_parse : string -> result jsval exn)
    (on401 : UnauthorizedBehavior) (env : Env) (path : string) (st : Store) : Store :=
  let k := hashKey [JStr path] in
  match getOrFetch (queries queryClient) k st with
  | (Started, st1) => resolve (queries queryClient) k (getQueryFn json_parse on401 env [JStr path]) st1
  | (_, st1) => st1
  end.

(** The query function of [queryClient] (line 95,
    [getQueryFn({ on401: "throw" })]) with [res.json()] as [JSON.parse]. *)
Definition defaultQueryFn `{Network} (env : Env) (queryKey : list jsval) : result jsval exn :=
  getQueryFn json_parse (queryFn_on401 (queries queryClient)) env queryKey.

(** ** Lemmas *)

Lemma addToWaitlist_spec `{Network} (env : Env) (email : string) :
  addToWaitlist env email =
    match fetch (fst (waitlist_request env email)) (snd (waitlist_request env email)) with
    | FetchFailed e => Err e
    | Fetched res => if ok res then Ok tt else Err (JsError (error_message res))
    end.
Proof.
  unfold addToWaitlist, apiRequest, waitlist_request. simpl.
  rewrite apiRequest_settle_eq.
  destruct (fetch _ _) as [res|e]; [|done]. by destruct (ok res).
Qed.

Lemma submit_initial (email : string) :
  email_ok email = true -> submit email initial = mkState false pending None None [] [email].
Proof.
  intros Hok. unfold submit, handleSubmit, emailSchema_parse. simpl. by rewrite Hok.
Qed.

Lemma getQueryFn_path `{Network} (json_parse : string -> result jsval exn)
    (on401 : UnauthorizedBehavior) (env : Env) (path : string) :
  getQueryFn json_parse on401 env [JStr path] =
    getQueryFn_settle json_parse on401 (fetch (getApiUrl env path) query_init).
Proof. reflexivity. Qed.

Lemma read_through_started `{Network} (json_parse : string -> result jsval exn)
    (on401 : UnauthorizedBehavior) (env : Env) (path : string) (st : Store) :
  let k := hashKey [JStr path] in
  data (query_of st k) = None -> fetching (query_of st k) = false ->
  read_through json_parse on401 env path st =
    resolve (queries queryClient) k (getQueryFn json_parse on401 env [JStr path])
            (start_fetch k (query_of st k) st).
Proof.
  intros k Hd Hf. unfold read_through. fold k.
  rewrite getOrFetch_started; [reflexivity | by apply stale_no_data | done].
Qed.

(** The entry a read through the cache leaves for a key without data and
    without a fetch in flight: the value of the query function, or its
    error with the failure counted ([queryClient] does not retry). *)
Lemma read_through_query `{Network} (json_parse : string -> result jsval exn)
    (on401 : UnauthorizedBehavior) (env : Env) (path : string) (st : Store) :
  let k := hashKey [JStr path] in
  data (query_of st k) = None -> fetching (query_of st k) = false ->
  query_of (read_through json_parse on401 env path st) k =
    match getQueryFn json_parse on401 env [JStr path] with
    | Ok v => mkQuery (Some v) None false false (clock st) 0
    | Err e => mkQuery None (Some e) false (isInvalidated (query_of st k))
                       (dataUpdatedAt (query_of st k)) 1
    end.
Proof.
  intros k Hd Hf. rewrite read_through_started by done.
  unfold resolve. rewrite query_of_start_fetch. simpl.
  destruct (getQueryFn json_parse on401 env [JStr path]); simpl;
    rewrite query_of_insert_eq; [done|]. fold k. by rewrite Hd.
Qed.

(** ** Properties *)

(** C11: spec section 7, submission scenarios, for every address and
    every answer of the network: submitting a valid address from the
    initial state and settling the call it made leaves nothing in flight
    and shows success with no toast when the POST is answered 2xx; a
    non-2xx answer shows one toast whose text is exactly
    ["<status>: <body or statusText>"]; a transport failure shows its own
    message.  A rejected address never reaches the network: the workflow
    stays idle with the field message shown, and no settlement, whatever
    its outcome, changes that. *)
Theorem submit_and_settle_outcome `{Network} (env : Env) (email : string) :
  let s := submit_and_settle env email initial in
  inflight s = [] /\
  if email_ok email then
    match fetch (fst (waitlist_request env email)) (snd (waitlist_request env email)) with
    | Fetched res =>
        if ok res then isSuccess s = true /\ status s = success /\ toasts s = []
        else status s = error /\ toasts s = [mkToast "Error" (error_message res) "destructive"]
    | FetchFailed e =>
        status s = error /\
        toasts s = [mkToast "Error" (str_or (exn_message e) fallback_message) "destructive"]
    end
  else s = mkState false idle None (Some invalid_email_message) [] [] /\
       forall o, run [Submit email; Settle o] initial = s.
Proof.
  destruct (email_ok email) eqn:Hok.
  - unfold submit_and_settle, run. simpl. rewrite submit_initial by done.
    unfold settle. simpl. rewrite addToWaitlist_spec.
    destruct (fetch _ _) as [res|e]; [destruct (ok res)|]; simpl; repeat split; try done.
    unfold error_toast. simpl. by rewrite str_or_nonempty by apply error_message_nonempty.
  - assert (Hrun : forall o, run [Submit email; Settle o] initial =
                             mkState false idle None (Some invalid_email_message) [] []).
    { intros o. unfold run. simpl. unfold submit, handleSubmit, emailSchema_parse. simpl. by rewrite Hok. }
    unfold submit_and_settle. rewrite Hrun. split; [done|]. split; [done|]. intros o. apply Hrun.
Qed.

Definition db_down : Response := mkResponse 500 "Internal Server Error" "/api/waitlist" "db down".

Lemma submit_and_settle_outcome_witness :
  email_ok "user@example.com" = true /\
  toasts (@submit_and_settle (constant_network db_down) (mkEnv true true "https://klede.app")
            "user@example.com" initial) = [mkToast "Error" "500: db down" "destructive"].
Proof.
  split; [reflexivity|].
  pose proof (proj2 (@submit_and_settle_outcome (constant_network db_down)
                       (mkEnv true true "https://klede.app") "user@example.com")) as H.
  change (email_ok "user@example.com") with true in H. exact (proj2 H).
Defined.

(** A 401 read under [on401: "returnNull"]. *)
Lemma read_401_returnNull `{Network} (json_parse : string -> result jsval exn)
    (env : Env) (path : string) (res : Response) (st : Store) :
  let k := hashKey [JStr path] in
  fetch (getApiUrl env path) query_init = Fetched res -> Executor.status res = 401%Z ->
  data (query_of st k) = None -> fetching (query_of st k) = false ->
  let st' := read_through json_parse returnNull env path st in
  view st' !! k = Some JNull /\ query_error (query_of st' k) = None /\
  getOrFetch (queries queryClient) k st' = (Served JNull, st').
Proof.
  intros k Hnet H401 Hd Hf st'.
  assert (Hq : query_of st' k = mkQuery (Some JNull) None false false (clock st) 0).
  { unfold st'. rewrite read_through_query by done. rewrite getQueryFn_path, Hnet.
    simpl. by rewrite H401. }
  assert (Hv : view st' !! k = Some JNull) by (apply view_lookup; by rewrite Hq).
  split; [exact Hv|]. split; [by rewrite Hq|].
  unfold getOrFetch. rewrite Hq. reflexivity.
Qed.


(** A 401 read under the default policy of [queryClient]. *)
Lemma read_401_throw `{Network} (json_parse : string -> result jsval exn)
    (env : Env) (path : string) (res : Response) (st : Store) :
  let k := hashKey [JStr path] in
  fetch (getApiUrl env path) query_init = Fetched res -> Executor.status res = 401%Z ->
  data (query_of st k) = None -> fetching (query_of st k) = false ->
  let st' := read_through json_parse (queryFn_on401 (queries queryClient)) env path st in
  view st' !! k = None /\ query_error (query_of st' k) = Some (JsError (error_message res)) /\
  fst (getOrFetch (queries queryClient) k st') = Started.
Proof.
  intros k Hnet H401 Hd Hf st'.
  assert (Hok : ok res = false) by (unfold ok; rewrite H401; reflexivity).
  assert (Hq : query_of st' k = mkQuery None (Some (JsError (error_message res))) false
                 (isInvalidated (query_of st k)) (dataUpdatedAt (query_of st k))
                 1).
  { unfold st'. rewrite read_through_query by done. rewrite getQueryFn_path, Hnet.
    simpl. unfold throwIfResNotOk. by rewrite Hok. }
  split; [|split; [by rewrite Hq|]].
  - destruct (view st' !! k) as [v|] eqn:Hv; [|done].
    apply view_lookup in Hv. rewrite Hq in Hv. by destruct Hv as [_ ?].
  - rewrite getOrFetch_started; [reflexivity | rewrite Hq; by apply stale_no_data | by rewrite Hq].
Qed.

(** C16: spec sections 4.3 and 7, the 401 policy selectable per call
    site: when the server answers a read with 401, under
    [on401: "returnNull"] the read raises nothing, caches [null] as the
    key's value and later reads are answered [null] from the cache; under
    the default of [queryClient] ([on401: "throw"]) it records the error
    ["401: <text>"], caches no value, and the next read goes back to the
    network. *)
Theorem unauthorized_read `{Network} (json_parse : string -> result jsval exn)
    (env : Env) (path : string) (res : Response) (st : Store) :
  let k := hashKey [JStr path] in
  fetch (getApiUrl env path) query_init = Fetched res -> Executor.status res = 401%Z ->
  data (query_of st k) = None -> fetching (query_of st k) = false ->
  (let st' := read_through json_parse returnNull env path st in
   view st' !! k = Some JNull /\ query_error (query_of st' k) = None /\
   getOrFetch (queries queryClient) k st' = (Served JNull, st')) /\
  (let st' := read_through json_parse (queryFn_on401 (queries queryClient)) env path st in
   view st' !! k = None /\ query_error (query_of st' k) = Some (JsError (error_message res)) /\
   fst (getOrFetch (queries queryClient) k st') = Started).
Proof.
  intros k Hnet H401 Hd Hf.
  split; [exact (read_401_returnNull json_parse env path res st Hnet H401 Hd Hf)
        | exact (read_401_throw json_parse env path res st Hnet H401 Hd Hf)].
Qed.

Definition unauthorized : Response := mkResponse 401 "Unauthorized" "/api/me" "Unauthorized".

Lemma unauthorized_read_witness :
  @fetch (constant_network unauthorized) (getApiUrl (mkEnv true true "https://klede.app") "/api/me")
    query_init = Fetched unauthorized /\
  Executor.status unauthorized = 401%Z /\
  view (@read_through (constant_network unauthorized) json_parse
          returnNull (mkEnv true true "https://klede.app") "/api/me" empty_store)
    !! hashKey [JStr "/api/me"] = Some JNull /\
  query_error (query_of (@read_through (constant_network unauthorized) json_parse throw
      (mkEnv true true "https://klede.app") "/api/me" empty_store) (hashKey [JStr "/api/me"]))
    = Some (JsError "401: Unauthorized").
Proof.
  split; [reflexivity|]. split; [reflexivity|].
  destruct (@unauthorized_read (constant_network unauthorized) json_parse
    (mkEnv true true "https://klede.app") "/api/me" unauthorized empty_store
    eq_refl eq_refl eq_refl eq_refl) as [(H1 & _ & _) (_ & H2 & _)].
  split; [exact H1 | exact H2].
Defined.

(** C20: a read through the cache with the query function of
    [queryClient]: when the server answers 2xx with the JSON text of a
    value, the cache holds the value [JSON.parse] reads back from it, and
    the next read is served from the cache without a request. *)
Theorem read_through_json `{Network} (env : Env) (path : string) (res : Response)
    (v : jsval) (st : Store) :
  let k := hashKey [JStr path] in
  fetch (getApiUrl env path) query_init = Fetched res -> ok res = true ->
  stringify v = Some (res_body res) ->
  data (query_of st k) = None -> fetching (query_of st k) = false ->
  let st' := read_through json_parse (queryFn_on401 (queries queryClient)) env path st in
  view st' !! k = Some (to_json v) /\
  getOrFetch (queries queryClient) k st' = (Served (to_json v), st').
Proof.
  intros k Hnet Hok Hv Hd Hf st'.
  assert (Hq : query_of st' k = mkQuery (Some (to_json v)) None false false (clock st) 0).
  { unfold st'. rewrite read_through_query by done. rewrite getQueryFn_path, Hnet. simpl.
    rewrite throwIfResNotOk_ok by done. simpl. by rewrite (json_parse_of_stringify v _ Hv). }
  split; [apply view_lookup; by rewrite Hq|].
  unfold getOrFetch. rewrite Hq. reflexivity.
Qed.

Definition me_value : jsval := JObj [("email", JStr "user@example.com"); ("waitlisted", JBool true)].
Definition me_response : Response :=
  mkResponse 200 "OK" "/api/me" (default EmptyString (stringify me_value)).

Lemma read_through_json_witness :
  @fetch (constant_network me_response) (getApiUrl (mkEnv true true "https://klede.app") "/api/me")
    query_init = Fetched me_response /\
  ok me_response = true /\ stringify me_value = Some (res_body me_response) /\
  view (@read_through (constant_network me_response) json_parse throw
          (mkEnv true true "https://klede.app") "/api/me" empty_store)
    !! hashKey [JStr "/api/me"] = Some me_value.
Proof.
  split; [reflexivity|]. split; [reflexivity|]. split; [reflexivity|].
  exact (proj1 (@read_through_json (constant_network me_response) (mkEnv true true "https://klede.app")
    "/api/me" me_response me_value empty_store eq_refl eq_refl eq_refl eq_refl eq_refl)).
Defined.

(** C21: a 2xx answer whose body is empty or blank (a [204 No Content],
    for instance) is not JSON: the query function of [queryClient]
    rejects with a [SyntaxError] that carries no status code, and the
    read through the cache records that error and caches no value. *)
Theorem read_through_blank_body `{Network} (env : Env) (path : string) (res : Response)
    (st : Store) :
  let k := hashKey [JStr path] in
  fetch (getApiUrl env path) query_init = Fetched res -> ok res = true ->
  skip_ws (res_body res) = EmptyString ->
  data (query_of st k) = None -> fetching (query_of st k) = false ->
  let st' := read_through json_parse (queryFn_on401 (queries queryClient)) env path st in
  defaultQueryFn env [JStr path] = Err (JsSyntaxError "Unexpected end of JSON input") /\
  view st' !! k = None /\
  query_error (query_of st' k) = Some (JsSyntaxError "Unexpected end of JSON input").
Proof.
  intros k Hnet Hok Hb Hd Hf st'.
  assert (Hfn : defaultQueryFn env [JStr path] = Err (JsSyntaxError "Unexpected end of JSON input")).
  { unfold defaultQueryFn. rewrite getQueryFn_path, Hnet. simpl.
    rewrite throwIfResNotOk_ok by done. simpl. by apply json_parse_blank. }
  assert (Hq : query_of st' k = mkQuery None (Some (JsSyntaxError "Unexpected end of JSON input")) false
                 (isInvalidated (query_of st k)) (dataUpdatedAt (query_of st k))
                 1).
  { unfold st'. rewrite read_through_query by done. unfold defaultQueryFn in Hfn. by rewrite Hfn. }
  split; [exact Hfn|]. split; [|by rewrite Hq].
  destruct (view st' !! k) as [w|] eqn:Hw; [|done].
  apply view_lookup in Hw. rewrite Hq in Hw. by destruct Hw as [_ ?].
Qed.

Definition no_content : Response := mkResponse 204 "No Content" "/api/me" EmptyString.

Lemma read_through_blank_body_witness :
  @fetch (constant_network no_content) (getApiUrl (mkEnv true true "https://klede.app") "/api/me")
    query_init = Fetched no_content /\
  ok no_content = true /\ skip_ws (res_body no_content) = EmptyString /\
  @defaultQueryFn (constant_network no_content) (mkEnv true true "https://klede.app") [JStr "/api/me"]
    = Err (JsSyntaxError "Unexpected end of JSON input").
Proof.
  split; [reflexivity|]. split; [reflexivity|]. split; [reflexivity|].
  exact (proj1 (@read_through_blank_body (constant_network no_content) (mkEnv true true "https://klede.app")
    "/api/me" no_content empty_store eq_refl eq_refl eq_refl eq_refl eq_refl)).
Defined.

End EndToEnd.
