(* ===== verification/Console.v ===== *)
(** * Diagnostic logging: the [console.log] and [console.error] calls of
    src/client/src/lib/queryClient.ts

    [Http.v] and [Endpoint.v] model [getApiUrl], [throwIfResNotOk],
    [apiRequest] and [getQueryFn] without their console calls.  This
    file runs the same functions in a writer monad ([logged]: a value and
    the console calls made while computing it, in program order), with
    every [console.log] and [console.error] of the source at its place:
    lines 7, 27, 36, 48, 50, 61 and 67.  Spec section 4.2 permits logging
    of the method, the endpoint and the outcome status, provided it never
    alters control flow.

    [apiRequest_logging] and [getQueryFn_logging] show what a reader of
    the console learns of each call (the [_val] lemmas check that the
    logged functions compute what the plain ones do), and
    [addToWaitlist_logs_email] that the code logs more than the spec
    permits: the request body, which for the waitlist mutation is the
    visitor's address. *)

From S2P Require Import Prelude Js Endpoint Http EndToEnd.
Local Open Scope klede_scope.

Module Console.
Import JsValue Resolver Executor EndToEnd.

(** One argument of a console call: a string, a JavaScript value, or a
    thrown value (the [error] of a [catch]). *)
Inductive arg : Type :=
  | AStr (s : string)
  | AVal (v : jsval)
  | AExn (e : exn).

Inductive console_method : Type :=
  | LogCall     (** [console.log] *)
  | ErrorCall.  (** [console.error] *)

Record entry : Type := mkEntry {
  level : console_method;
  args : list arg
}.

(** The writer: the value computed and the console calls made, oldest
    first. *)
Record logged (A : Type) : Type := mkLogged {
  val : A;
  trace : list entry
}.
Arguments mkLogged {A} _ _.
Arguments val {A} _.
Arguments trace {A} _.

Definition ret {A} (a : A) : logged A := mkLogged a [].

Definition bind {A B} (m : logged A) (k : A -> logged B) : logged B :=
  let r := k (val m) in mkLogged (val r) (trace m ++ trace r)%list.

Notation "'let+' x ':=' c 'in' k" := (bind c (fun x => k))
  (at level 10, x name, c at level 100, k at level 200) : klede_scope.

Definition console_log (xs : list arg) : logged unit := mkLogged tt [mkEntry LogCall xs].
Definition console_error (xs : list arg) : logged unit := mkLogged tt [mkEntry ErrorCall xs].

(** Lines 17-39, with the logs of lines 27 and 36. *)
Definition getApiUrl_logged (env : Env) (path : string) : logged string :=
  let normalizedPath := normalizePath path in
  if is_production env then
    let baseUrl := location_origin env in
    if String.prefix api_prefix normalizedPath then
      let+ _ := console_log [AStr ("Redirecting " +:+ normalizedPath +:+ " to Netlify function")] in
      ret (baseUrl +:+ function_route +:+ str_drop 4 normalizedPath)
    else ret (baseUrl +:+ normalizedPath)
  else
    let+ _ := console_log [AStr ("Using direct path for development: " +:+ normalizedPath)] in
    ret normalizedPath.

(** Lines 3-10, with the [console.error] of line 7. *)
Definition throwIfResNotOk_logged (res : Response) : logged (result unit exn) :=
  if negb (ok res) then
    let errorMessage := error_message res in
    let+ _ := console_error [AStr "API Error:"; AStr errorMessage; AStr "URL:"; AStr (res_url res)] in
    ret (Err (JsError errorMessage))
  else ret (Ok tt).

(** Lines 66-69: [catch (error) { console.error("Request failed:", error);
    throw error; }] around the body of the [try]. *)
Definition apiRequest_catch {A} (body : logged (result A exn)) : logged (result A exn) :=
  let+ r := body in
  match r with
  | Ok a => ret (Ok a)
  | Err e =>
      let+ _ := console_error [AStr "Request failed:"; AExn e] in
      ret (Err e)
  end.

(** The options object of lines 54-59. *)
Definition api_init (method : string) (data : jsval) : RequestInit :=
  {| init_method := Some method;
     init_headers := if truthy data then json_content_type else [];
     init_body := if truthy data then stringify data else None;
     init_credentials := Some "include" |}.

(** The [try] block, lines 53-65: the [fetch], the log of line 61 and
    [throwIfResNotOk]. *)
Definition apiRequest_try `{Network} (apiUrl method : string) (data : jsval)
    : logged (result Response exn) :=
  match fetch apiUrl (api_init method data) with
  | FetchFailed e => ret (Err e)
  | Fetched res =>
      let+ _ := console_log [AStr ("Response status: " +:+ z_to_string (status res))] in
      let+ t := throwIfResNotOk_logged res in
      ret (let* _ := t in Ok res)
  end.

(** Lines 41-70, with the logs of lines 48 and 50 before the [try]. *)
Definition apiRequest_logged `{Network} (env : Env) (method url : string) (data : jsval)
    : logged (result Response exn) :=
  let+ apiUrl := getApiUrl_logged env url in
  let+ _ := console_log [AStr ("Making " +:+ method +:+ " request to: " +:+ apiUrl)] in
  let+ _ := (if truthy data then console_log [AStr "Request data:"; AVal data] else ret tt) in
  apiRequest_catch (apiRequest_try apiUrl method data).

(** Lines 72-90: the query function logs only through [getApiUrl] and
    [throwIfResNotOk]; a key whose head is not a string throws in
    [getApiUrl] before its log. *)
Definition getQueryFn_logged `{Network} (json_parse : string -> result jsval exn)
    (on401 : UnauthorizedBehavior) (env : Env) (queryKey : list jsval)
    : logged (result jsval exn) :=
  match queryKey_path queryKey with
  | Err e => ret (Err e)
  | Ok path =>
      let+ apiUrl := getApiUrl_logged env path in
      match fetch apiUrl query_init with
      | FetchFailed e => ret (Err e)
      | Fetched res =>
          if (match on401 with returnNull => true | throw => false end) && (status res =? 401)%Z
          then ret (Ok JNull)
          else let+ t := throwIfResNotOk_logged res in
               ret (let* _ := t in json_parse (res_body res))
      end
  end.

(** [addToWaitlist(email)] (spec sections 2 and 7): a POST of [{ email }]
    through [apiRequest]. *)
Definition addToWaitlist_logged `{Network} (env : Env) (email : string) : logged (result unit exn) :=
  let+ r := apiRequest_logged env "POST" waitlist_path (JObj [("email", JStr email)]) in
  ret (let* _ := r in Ok tt).

(** ** Lemmas *)

Lemma val_bind {A B} (m : logged A) (k : A -> logged B) : val (bind m k) = val (k (val m)).
Proof. reflexivity. Qed.

Lemma trace_bind {A B} (m : logged A) (k : A -> logged B) :
  trace (bind m k) = (trace m ++ trace (k (val m)))%list.
Proof. reflexivity. Qed.

(** Push [val] and [trace] through the binds, one continuation at a time. *)
Ltac logged_simp :=
  repeat (progress (rewrite ?val_bind, ?trace_bind); cbv beta).

(** The [_val] lemmas check the transcription: the logged functions
    compute what [Endpoint.v] and [Http.v] compute.  In a writer monad
    this holds wherever the logs are placed, so they say nothing of the
    logging itself; the theorems below do. *)
Lemma getApiUrl_logged_val (env : Env) (p : string) : val (getApiUrl_logged env p) = getApiUrl env p.
Proof. unfold getApiUrl_logged, getApiUrl. by case_bools. Qed.

(** [getApiUrl] writes one [console.log] line, except for a page path in
    hosted mode, which it resolves silently. *)
Lemma getApiUrl_logged_trace (env : Env) (p : string) :
  Forall (fun en => level en = LogCall) (trace (getApiUrl_logged env p)).
Proof. unfold getApiUrl_logged. case_bools; repeat constructor. Qed.

Lemma throwIfResNotOk_logged_val (res : Response) :
  val (throwIfResNotOk_logged res) = throwIfResNotOk res.
Proof. unfold throwIfResNotOk_logged, throwIfResNotOk. by case_bools. Qed.

Lemma apiRequest_catch_val {A} (body : logged (result A exn)) :
  val (apiRequest_catch body) = val body.
Proof. unfold apiRequest_catch. rewrite val_bind. by destruct (val body). Qed.

(** After the [catch] a rejection is the last line written. *)
Lemma apiRequest_catch_err {A} (body : logged (result A exn)) (e : exn) :
  val (apiRequest_catch body) = Err e ->
  trace (apiRequest_catch body) = (trace body ++ [mkEntry ErrorCall [AStr "Request failed:"; AExn e]])%list.
Proof.
  unfold apiRequest_catch. rewrite val_bind, trace_bind.
  destruct (val body) as [a|e']; simpl; [discriminate|]. by intros [= ->].
Qed.

Lemma apiRequest_catch_ok {A} (body : logged (result A exn)) (a : A) :
  val (apiRequest_catch body) = Ok a -> val body = Ok a /\ trace (apiRequest_catch body) = trace body.
Proof.
  unfold apiRequest_catch. rewrite val_bind, trace_bind.
  destruct (val body) as [a'|e']; simpl; [|discriminate]. intros ->. by rewrite app_nil_r.
Qed.

Lemma apiRequest_logged_val `{Network} (env : Env) (method url : string) (data : jsval) :
  val (apiRequest_logged env method url data) = apiRequest env method url data.
Proof.
  unfold apiRequest_logged, apiRequest, apiRequest_init. logged_simp.
  rewrite apiRequest_catch_val, getApiUrl_logged_val. unfold apiRequest_try.
  change (snd _) with (api_init method data). simpl.
  destruct (fetch _ _) as [res|e]; [|done]. logged_simp.
  by rewrite throwIfResNotOk_logged_val.
Qed.

Lemma getQueryFn_logged_val `{Network} (json_parse : string -> result jsval exn)
    (on401 : UnauthorizedBehavior) (env : Env) (queryKey : list jsval) :
  val (getQueryFn_logged json_parse on401 env queryKey) = getQueryFn json_parse on401 env queryKey.
Proof.
  unfold getQueryFn_logged, getQueryFn, getQueryFn_init.
  destruct (queryKey_path queryKey) as [path|e]; [|done]. logged_simp. simpl.
  rewrite getApiUrl_logged_val. destruct (fetch _ _) as [res|e]; [|done].
  simpl. destruct (_ && _); [reflexivity|]. logged_simp. by rewrite throwIfResNotOk_logged_val.
Qed.

(** The console lines of [apiRequest]: those of [getApiUrl], the method
    and endpoint, the body when there is one, then those of the [try]
    block and of the [catch]. *)
Lemma apiRequest_logged_split `{Network} (env : Env) (method url : string) (data : jsval) :
  let body := apiRequest_try (getApiUrl env url) method data in
  val (apiRequest_logged env method url data) = val (apiRequest_catch body) /\
  trace (apiRequest_logged env method url data) =
    (trace (getApiUrl_logged env url) ++
     mkEntry LogCall [AStr ("Making " +:+ method +:+ " request to: " +:+ getApiUrl env url)] ::
     (if truthy data then [mkEntry LogCall [AStr "Request data:"; AVal data]] else []) ++
     trace (apiRequest_catch body))%list.
Proof.
  unfold apiRequest_logged. logged_simp. rewrite getApiUrl_logged_val.
  split; [by destruct (truthy data)|]. f_equal. simpl. f_equal. by destruct (truthy data).
Qed.

(** The [try] block on each outcome of its [fetch]. *)
Lemma apiRequest_try_spec `{Network} (apiUrl method : string) (data : jsval) :
  let t := apiRequest_try apiUrl method data in
  match fetch apiUrl (api_init method data) with
  | FetchFailed e => val t = Err e /\ trace t = []
  | Fetched res =>
      let status_line := mkEntry LogCall [AStr ("Response status: " +:+ z_to_string (status res))] in
      if ok res then val t = Ok res /\ trace t = [status_line]
      else val t = Err (JsError (error_message res)) /\
           trace t = [status_line; mkEntry ErrorCall [AStr "API Error:"; AStr (error_message res);
                                                       AStr "URL:"; AStr (res_url res)]]
  end.
Proof.
  unfold apiRequest_try. destruct (fetch _ _) as [res|e]; [|done].
  logged_simp. unfold throwIfResNotOk_logged. by destruct (ok res).
Qed.

(** ** Properties *)

(** C33: what the console shows of a call of [apiRequest]: the method and
    the resolved endpoint always; a rejection last (a suffix of the
    console's lines), as
    [console.error("Request failed:", error)] with the very error thrown;
    a response outside 200-299 as the line ["API Error:"] with the
    message and the response URL, right before it; and a resolved call
    writes no [console.error] line and logs its status. *)
Theorem apiRequest_logging `{Network} (env : Env) (method url : string) (data : jsval) :
  let w := apiRequest_logged env method url data in
  In (mkEntry LogCall [AStr ("Making " +:+ method +:+ " request to: " +:+ getApiUrl env url)]) (trace w) /\
  (forall e, val w = Err e ->
     [mkEntry ErrorCall [AStr "Request failed:"; AExn e]] `suffix_of` trace w) /\
  (forall res, fetch (getApiUrl env url) (snd (apiRequest_init env method url data)) = Fetched res ->
     ok res = false ->
     [mkEntry ErrorCall [AStr "API Error:"; AStr (error_message res); AStr "URL:"; AStr (res_url res)];
      mkEntry ErrorCall [AStr "Request failed:"; AExn (JsError (error_message res))]] `suffix_of` trace w) /\
  (forall res, val w = Ok res ->
     In (mkEntry LogCall [AStr ("Response status: " +:+ z_to_string (status res))]) (trace w) /\
     Forall (fun en => level en = LogCall) (trace w)).
Proof.
  intros w. destruct (apiRequest_logged_split env method url data) as [Hv Ht].
  pose proof (apiRequest_try_spec (getApiUrl env url) method data) as Hs.
  set (body := apiRequest_try (getApiUrl env url) method data) in *.
  fold w in Hv, Ht. rewrite Ht.
  split; [apply in_app_iff; right; left; reflexivity|]. split; [|split].
  - intros e He. rewrite Hv in He. rewrite (apiRequest_catch_err body e He).
    by apply suffix_app_r, suffix_cons_r, suffix_app_r, suffix_app_r.
  - intros res Hf Hok. change (snd _) with (api_init method data) in Hf.
    rewrite Hf, Hok in Hs. destruct Hs as [Hb Htb].
    rewrite (apiRequest_catch_err body _ (eq_trans (apiRequest_catch_val body) Hb)), Htb.
    apply suffix_app_r, suffix_cons_r, suffix_app_r. cbn [app]. by apply suffix_cons_r.
  - intros res Hr. rewrite Hv in Hr. destruct (apiRequest_catch_ok body res Hr) as [Hb ->].
    destruct (fetch _ _) as [r|e]; [|by destruct Hs as [Hs _]; rewrite Hs in Hb].
    destruct (ok r); destruct Hs as [Hs Htb]; rewrite Hs in Hb; [|discriminate].
    injection Hb as <-. rewrite Htb. split.
    + apply in_app_iff. right. right. apply in_app_iff. right. left. reflexivity.
    + apply Forall_app. split; [apply getApiUrl_logged_trace|].
      constructor; [done|]. apply Forall_app. split; [|by repeat constructor].
      destruct (truthy data); by repeat constructor.
Qed.

Lemma apiRequest_logging_witness :
  let res := mkResponse 500 EmptyString "/api/waitlist" EmptyString in
  let env := mkEnv false false EmptyString in
  let data := JObj [("email", JStr "a@b.co")] in
  @fetch (constant_network res) (getApiUrl env "/api/waitlist")
    (snd (apiRequest_init env "POST" "/api/waitlist" data)) = Fetched res /\
  ok res = false /\
  [mkEntry ErrorCall [AStr "API Error:"; AStr "500: "; AStr "URL:"; AStr "/api/waitlist"];
   mkEntry ErrorCall [AStr "Request failed:"; AExn (JsError "500: ")]]
    `suffix_of` trace (@apiRequest_logged (constant_network res) env "POST" "/api/waitlist" data).
Proof.
  intros res env data. split; [reflexivity|]. split; [reflexivity|].
  exact (proj1 (proj2 (proj2 (@apiRequest_logging (constant_network res) env "POST" "/api/waitlist" data)))
           res eq_refl eq_refl).
Defined.

(** C32: what the console shows of a call of the query function: the
    line of [getApiUrl] and nothing else, except the ["API Error:"] line
    of [throwIfResNotOk] for a response outside 200-299 that is not a 401
    under [on401: "returnNull"].  The query function has no [catch]: a
    key that is not a string throws before any log, and a transport
    failure of its [fetch] is never reported on the console, unlike the
    same failure in [apiRequest]. *)
Theorem getQueryFn_logging `{Network} (json_parse : string -> result jsval exn)
    (on401 : UnauthorizedBehavior) (env : Env) (queryKey : list jsval) :
  let w := getQueryFn_logged json_parse on401 env queryKey in
  match queryKey_path queryKey with
  | Err _ => trace w = []
  | Ok path =>
      match fetch (getApiUrl env path) query_init with
      | Fetched res =>
          if negb ((match on401 with returnNull => true | throw => false end) && (status res =? 401)%Z)
             && negb (ok res)
          then trace w = (trace (getApiUrl_logged env path) ++
                          [mkEntry ErrorCall [AStr "API Error:"; AStr (error_message res);
                                              AStr "URL:"; AStr (res_url res)]])%list
          else trace w = trace (getApiUrl_logged env path)
      | FetchFailed _ => trace w = trace (getApiUrl_logged env path)
      end
  end.
Proof.
  intros w. unfold w, getQueryFn_logged.
  destruct (queryKey_path queryKey) as [path|e]; [|reflexivity].
  logged_simp. rewrite getApiUrl_logged_val.
  destruct (fetch _ _) as [res|e]; [|apply app_nil_r].
  destruct ((match on401 with returnNull => true | throw => false end) && (status res =? 401)%Z);
    simpl; [apply app_nil_r|].
  logged_simp. unfold throwIfResNotOk_logged. destruct (ok res); simpl; by rewrite ?app_nil_r.
Qed.

(** C35: the code logs more than the method, endpoint and status spec
    section 4.2 permits: every submission to the waitlist writes the
    request body, and with it the visitor's address, to the console, in
    every environment, production builds included. *)
Theorem addToWaitlist_logs_email `{Network} (env : Env) (email : string) :
  In (mkEntry LogCall [AStr "Request data:"; AVal (JObj [("email", JStr email)])])
     (trace (addToWaitlist_logged env email)).
Proof.
  unfold addToWaitlist_logged. rewrite trace_bind. apply in_app_iff. left.
  rewrite (proj2 (apiRequest_logged_split env "POST" waitlist_path _)). simpl.
  apply in_app_iff. right. right. left. reflexivity.
Qed.

End Console.
