(* ===== verification/System.v ===== *)
(** * The page under one event loop (spec section 5)

    The page runs [WaitlistCard] and the cache of [queryClient] in one
    single-threaded event loop: each event runs to completion, and the
    events of the two components interleave freely.  [Global] is the state
    of both; [gevent] the events the loop delivers (a submission of the
    form, the answer to the mutation's POST, a read through the cache, the
    answer to a query's GET, an invalidation, window focus, the clock);
    [gstep] runs one of them against a fixed [Network].

    [grun_split] shows that the loop is the product of the two
    components: [WaitlistCard] never reads the query cache and the cache
    never sees the mutation, so the workflow sees only its own events and
    the cache only its own.  The properties of the page are therefore
    those of [Waitlist.v] and [QueryGc.v] on the projected event
    sequences; none is restated here.  The network is a fixed function
    ([Network]): a server whose answers depend on the requests it has
    already received (a GET that sees an earlier POST) is outside the
    sources and is not modelled. *)

From S2P Require Import Prelude Js Endpoint Http Json Schema QueryCache QueryGc Waitlist EndToEnd.
Local Open Scope klede_scope.

Module System.
Import JsValue Resolver Executor Json Cache CacheGc Workflow EndToEnd.

Record Global : Type := mkGlobal {
  ui : State;
  cache : GcStore   (** the cache of [queryClient], with its gc timeouts *)
}.

Definition global_initial : Global := mkGlobal initial gc_initial.

Inductive gevent : Type :=
  | UserSubmit (email : string)
  | MutationSettles
  | QueryRead (path : string)
  | QuerySettles (path : string)
  | QueryInvalidate (path : string)
  | WindowFocus
  | ClockTick.

Definition is_ui_event (ev : gevent) : bool :=
  match ev with
  | UserSubmit _ | MutationSettles => true
  | _ => false
  end.

Section Loop.
Context `{Network} (env : Env).

(** What the POST of the oldest call of [mutationFn] in flight settles
    with: [mutationFn] is [addToWaitlist(data.email)], lines 30-32. *)
Definition mutation_outcome (s : State) : result unit exn :=
  match inflight s with
  | email :: _ => addToWaitlist env email
  | [] => Ok tt
  end.

(** The workflow's handlers: a submission, and the settlement of the call
    in flight with what the network answers. *)
Definition ui_step (ev : gevent) (s : State) : State :=
  match ev with
  | UserSubmit email => submit email s
  | MutationSettles => settle (mutation_outcome s) s
  | _ => s
  end.

(** The cache event a loop event is, if any; a query's GET is answered
    by the query function of [queryClient]. *)
Definition to_cache_event (ev : gevent) : option cache_event :=
  match ev with
  | QueryRead p => Some (Read (hashKey [JStr p]))
  | QuerySettles p => Some (Resolve (hashKey [JStr p]) (defaultQueryFn env [JStr p]))
  | QueryInvalidate p => Some (Invalidate (hashKey [JStr p]))
  | WindowFocus => Some Focus
  | ClockTick => Some Tick
  | UserSubmit _ | MutationSettles => None
  end.

Definition gstep (ev : gevent) (g : Global) : Global :=
  match to_cache_event ev with
  | Some cev => mkGlobal (ui g) (gc_step (queries queryClient) (Some gcTime_default) cev (cache g))
  | None => mkGlobal (ui_step ev (ui g)) (cache g)
  end.

Definition grun (evs : list gevent) (g : Global) : Global :=
  fold_left (fun g ev => gstep ev g) evs g.

Definition ui_run (evs : list gevent) (s : State) : State :=
  fold_left (fun s ev => ui_step ev s) evs s.

Definition cache_events (evs : list gevent) : list cache_event := omap to_cache_event evs.

(** ** Lemmas *)

Lemma to_cache_event_ui (ev : gevent) : is_ui_event ev = true <-> to_cache_event ev = None.
Proof. destruct ev; simpl; split; congruence. Qed.

Lemma ui_step_cache (ev : gevent) (s : State) : is_ui_event ev = false -> ui_step ev s = s.
Proof. by destruct ev. Qed.

(** The loop is the two components run side by side. *)
Lemma grun_split (evs : list gevent) (g : Global) :
  grun evs g = mkGlobal (ui_run evs (ui g))
                        (gc_run (queries queryClient) (Some gcTime_default) (cache_events evs) (cache g)).
Proof.
  revert g. induction evs as [|ev evs IH]; intros [s st]; [reflexivity|].
  cbn [grun fold_left]. fold (grun evs (gstep ev (mkGlobal s st))). rewrite IH.
  unfold gstep, cache_events. simpl.
  destruct (to_cache_event ev) as [cev|] eqn:E; simpl; [|reflexivity].
  rewrite ui_step_cache; [reflexivity|].
  destruct (is_ui_event ev) eqn:Hu; [|done]. apply to_cache_event_ui in Hu. congruence.
Qed.

End Loop.

End System.
